(** * build-icons.py: the branding icon pipeline

    A shallow embedding of [scripts/branding/build-icons.py].  The script
    copies a master PNG to two places, samples the rounded-corner alpha
    shape and the container box of native macOS icons through [iconutil],
    reshapes the mask, composites the icon and writes it in three formats.

    What the script owns is modelled in full: its control flow, the
    candidate loops, the diagnostics, the order of file-system effects, the
    geometry of the raster operations.  What it borrows is a parameter of
    the development: the resampling kernels, the decoders and encoders of
    the imaging library and the extraction done by [iconutil]. *)

From Stdlib Require Import ZArith NArith String Ascii List Bool Lia.
From stdpp Require Import base option list strings pretty gmap.

Local Open Scope Z_scope.

(** ** Exceptions and results *)

(** The exception classes the script meets.  [OSError] stands for itself
    and for its subclasses ([FileNotFoundError], [IsADirectoryError],
    [shutil.SameFileError], [PIL.UnidentifiedImageError]). *)
Inductive Exn : Type :=
| RuntimeError (msg : string)
| SystemExit (msg : string)
| CalledProcessError (stdout stderr : string)
| OSError (msg : string)
| ValueError (msg : string)
| IndexError (msg : string).

Inductive Result (A : Type) : Type :=
| Ok (a : A)
| Raise (e : Exn).
Arguments Ok {A} a.
Arguments Raise {A} e.

Definition is_RuntimeError (e : Exn) : bool :=
  match e with RuntimeError _ => true | _ => false end.

(** ** Raster images *)

Definition BBox : Type := Z * Z * Z * Z.

Definition RGBA : Type := Z * Z * Z * Z.

(** An image is its size and its pixels; the pixel type is the mode:
    [Image Z] is mode L, [Image RGBA] is mode RGBA.  Only the pixels at
    [0 <= x < width], [0 <= y < height] belong to the image. *)
Record Image (P : Type) : Type := mkImage {
  width : N;
  height : N;
  px : Z -> Z -> P
}.
Arguments mkImage {P} width height px.
Arguments width {P} i.
Arguments height {P} i.
Arguments px {P} i x y.

Class Band (P : Type) : Type := { mode_name : string }.
#[global] Instance Band_L : Band Z := {| mode_name := "L" |}.
#[global] Instance Band_RGBA : Band RGBA := {| mode_name := "RGBA" |}.

Definition mode {P : Type} `{Band P} (im : Image P) : string := mode_name.

Definition size {P : Type} (im : Image P) : N * N := (width im, height im).

Definition ICON_CANVAS_SIZE : N := 1024.

Definition size_eqb (a b : N * N) : bool :=
  (fst a =? fst b)%N && (snd a =? snd b)%N.

(** [Image.new(mode, (w, h), color)] *)
Definition Image_new {P : Type} (w h : N) (color : P) : Image P :=
  mkImage w h (fun _ _ => color).

(** [im.getchannel('A')] of an RGBA image. *)
Definition getchannel_A (im : Image RGBA) : Image Z :=
  mkImage (width im) (height im) (fun x y => snd (px im x y)).

Fixpoint count_from (n : nat) (start : Z) : list Z :=
  match n with
  | O => []
  | S n' => start :: count_from n' (start + 1)
  end.

(** [range(n)] *)
Definition range (n : N) : list Z := count_from (N.to_nat n) 0.

(** [any(f(a) for a in l)], stopping at the first hit. *)
Fixpoint any (f : Z -> bool) (l : list Z) : bool :=
  match l with
  | [] => false
  | a :: l' => if f a then true else any f l'
  end.

Definition col_nonzero (im : Image Z) (ys : list Z) (x : Z) : bool :=
  any (fun y => negb (px im x y =? 0)) ys.

Definition row_nonzero (im : Image Z) (xs : list Z) (y : Z) : bool :=
  any (fun x => negb (px im x y =? 0)) xs.

(** [im.getbbox()]: the box (left, upper, right, lower) of the non-zero
    pixels, right and lower exclusive; [None] when every pixel is zero. *)
Definition getbbox (im : Image Z) : option BBox :=
  let all_xs := range (width im) in
  let all_ys := range (height im) in
  let xs := List.filter (col_nonzero im all_ys) all_xs in
  let ys := List.filter (row_nonzero im all_xs) all_ys in
  match xs, ys with
  | x0 :: _, y0 :: _ => Some (x0, y0, List.last xs x0 + 1, List.last ys y0 + 1)
  | _, _ => None
  end.

(** [im.crop(box)] *)
Definition crop {P : Type} (im : Image P) (box : BBox) : Image P :=
  let '(x0, y0, x1, y1) := box in
  mkImage (Z.to_N (x1 - x0)) (Z.to_N (y1 - y0))
          (fun x y => px im (x + x0) (y + y0)).

Definition in_region (x0 y0 : Z) (w h : N) (x y : Z) : bool :=
  (x0 <=? x) && (x <? x0 + Z.of_N w) && (y0 <=? y) && (y <? y0 + Z.of_N h).

(** [dst.paste(src, (x0, y0))]: the destination keeps its size, the part
    of the source that falls outside is clipped. *)
Definition paste {P : Type} (dst src : Image P) (x0 y0 : Z) : Image P :=
  mkImage (width dst) (height dst)
          (fun x y =>
             if in_region x0 y0 (width src) (height src) x y
             then px src (x - x0) (y - y0)
             else px dst x y).

(** [im.getpixel((x, y))]: a negative coordinate counts from the far
    edge, a coordinate outside the image raises [IndexError]. *)
Definition getpixel {P : Type} (im : Image P) (x y : Z) : Result P :=
  let w := Z.of_N (width im) in
  let h := Z.of_N (height im) in
  let x' := if x <? 0 then w + x else x in
  let y' := if y <? 0 then h + y else y in
  if (x' <? 0) || (w <=? x') || (y' <? 0) || (h <=? y')
  then Raise (IndexError "image index out of range")
  else Ok (px im x' y').

(** Python's [str] of a tuple of four integers. *)
Definition str_bbox (b : BBox) : string :=
  let '(x0, y0, x1, y1) := b in
  "(" +:+ pretty x0 +:+ ", " +:+ pretty y0 +:+ ", "
      +:+ pretty x1 +:+ ", " +:+ pretty y1 +:+ ")".

(** ** The imaging library

    The part of Pillow whose result is arithmetic on pixel values or a file
    format: the LANCZOS kernels of [Image.resize] and [ImageOps.fit], the
    blend of a masked paste, the decoder behind [Image.open] and the three
    encoders behind [Image.save]. *)

Definition bytes : Type := list Byte.byte.

(** What [Image.open(path)] gives for the bytes of a file: the size read
    from the header, and what [.convert('RGBA')] will give when the pixels
    are decoded ([None]: decoding raises [OSError]).  A file is opened or
    refused with an [OSError]; files so large that Pillow refuses them for
    their number of pixels, with an error of another class, are not
    considered. *)
Record ImageFile : Type := mkImageFile {
  file_size : N * N;
  file_rgba : option (Image RGBA)
}.

Class Imaging : Type := {
  lanczos : Image Z -> N -> N -> Z -> Z -> Z;
  fit_lanczos : Image RGBA -> N -> N -> Z -> Z -> RGBA;
  blend : RGBA -> RGBA -> Z -> RGBA;
  image_open : bytes -> option ImageFile;
  encode_png : Image RGBA -> bytes;
  encode_ico : Image RGBA -> list (N * N) -> bytes;
  encode_icns : Image RGBA -> bytes
}.

(** Two of the messages of the script, named for the statements below. *)
Definition corner_not_transparent : string :=
  "[branding] rounded shape validation failed: corner is not transparent".

Definition requires_macos : string :=
  "[branding] macOS standard icon mask extraction requires macOS.".

Section Reshape.

Context {imaging : Imaging}.

(** [im.resize((w, h), LANCZOS)]: the size of the result is the size
    asked for.  Pillow takes sizes and coordinates that are C integers and
    images that fit in memory; [main] asks for nothing else, and what is
    stated of other boxes is stated of moderate ones. *)
Definition resize (im : Image Z) (w h : N) : Image Z :=
  mkImage w h (lanczos im w h).

Definition reshape_mask_to_bbox (source_alpha : Image Z) (target_bbox : BBox)
  : Result (Image Z) :=
  match getbbox source_alpha with
  | None => Raise (RuntimeError "[branding] source rounded alpha is empty")
  | Some source_bbox =>
      let source_cropped := crop source_alpha source_bbox in
      let '(target_x0, target_y0, target_x1, target_y1) := target_bbox in
      let target_width := target_x1 - target_x0 in
      let target_height := target_y1 - target_y0 in
      if (target_width <=? 0) || (target_height <=? 0)
      then Raise (RuntimeError
                    ("[branding] invalid target bbox: " +:+ str_bbox target_bbox))
      else
        let resized_shape :=
          resize source_cropped (Z.to_N target_width) (Z.to_N target_height) in
        let output_mask := Image_new ICON_CANVAS_SIZE ICON_CANVAS_SIZE 0 in
        let output_mask := paste output_mask resized_shape target_x0 target_y0 in
        match getpixel output_mask target_x0 target_y0 with
        | Raise e => Raise e
        | Ok v =>
            if negb (v =? 0)
            then Raise (RuntimeError corner_not_transparent)
            else Ok output_mask
        end
  end.

End Reshape.

Section Composite.

Context {imaging : Imaging}.

(** [ImageOps.fit(im, (w, h), method=LANCZOS)] *)
Definition ImageOps_fit (im : Image RGBA) (w h : N) : Image RGBA :=
  mkImage w h (fit_lanczos im w h).

(** [dst.paste(src, (x0, y0), mask)]: the mask must have the size of the
    pasted image; the destination keeps its size. *)
Definition paste_masked (dst src : Image RGBA) (x0 y0 : Z) (mask : Image Z)
  : Result (Image RGBA) :=
  if negb (size_eqb (size mask) (size src))
  then Raise (ValueError "images do not match")
  else Ok (mkImage (width dst) (height dst)
             (fun x y =>
                if in_region x0 y0 (width src) (height src) x y
                then blend (px dst x y) (px src (x - x0) (y - y0))
                           (px mask (x - x0) (y - y0))
                else px dst x y)).

Definition build_desktop_icon_with_mask (source : Image RGBA) (mask : Image Z)
  : Result (Image RGBA) :=
  (* source.convert('RGBA') of an RGBA image is the image *)
  let icon_content := ImageOps_fit source ICON_CANVAS_SIZE ICON_CANVAS_SIZE in
  let rounded_content :=
    Image_new ICON_CANVAS_SIZE ICON_CANVAS_SIZE (0, 0, 0, 0) in
  paste_masked rounded_content icon_content 0 0 mask.

End Composite.

(** ** Strings and paths *)

Definition nl : string := String "010"%char EmptyString.

(** A string holds its text in UTF-8.  [str.strip()] removes from both
    ends the characters for which [str.isspace()] holds: U+0009 to U+000D,
    U+001C to U+0020, U+0085, U+00A0, U+1680, U+2000 to U+200A, U+2028,
    U+2029, U+202F, U+205F and U+3000. *)
Definition is_space (n : N) : bool :=
  ((9 <=? n) && (n <=? 13) || (28 <=? n) && (n <=? 32))%N.

(** The encodings of the white space above U+007F: C2 85, C2 A0,
    E1 9A 80, E2 80 80 to E2 80 8A, E2 80 A8, E2 80 A9, E2 80 AF,
    E2 81 9F, E3 80 80. *)
Definition is_space2 (x y : N) : bool :=
  ((x =? 194) && ((y =? 133) || (y =? 160)))%N.

Definition is_space3 (x y z : N) : bool :=
  ((x =? 225) && (y =? 154) && (z =? 128)
   || (x =? 226) && (y =? 128)
        && ((128 <=? z) && (z <=? 138) || (z =? 168) || (z =? 169) || (z =? 175))
   || (x =? 226) && (y =? 129) && (z =? 159)
   || (x =? 227) && (y =? 128) && (z =? 128))%N.

(** The number of bytes of the white-space character that [l] starts
    with; 0 when it starts with none. *)
Definition leading_space (l : list ascii) : nat :=
  match l with
  | a :: l1 =>
      if is_space (N_of_ascii a) then 1%nat
      else
        match l1 with
        | b :: l2 =>
            if is_space2 (N_of_ascii a) (N_of_ascii b) then 2%nat
            else
              match l2 with
              | c :: _ =>
                  if is_space3 (N_of_ascii a) (N_of_ascii b) (N_of_ascii c)
                  then 3%nat else 0%nat
              | [] => 0%nat
              end
        | [] => 0%nat
        end
  | [] => 0%nat
  end.

(** The same for the character that the text ends with, on the bytes in
    reverse order. *)
Definition trailing_space (r : list ascii) : nat :=
  match r with
  | c :: r1 =>
      if is_space (N_of_ascii c) then 1%nat
      else
        match r1 with
        | b :: r2 =>
            if is_space2 (N_of_ascii b) (N_of_ascii c) then 2%nat
            else
              match r2 with
              | a :: _ =>
                  if is_space3 (N_of_ascii a) (N_of_ascii b) (N_of_ascii c)
                  then 3%nat else 0%nat
              | [] => 0%nat
              end
        | [] => 0%nat
        end
  | [] => 0%nat
  end.

Fixpoint lstrip (l : list ascii) : list ascii :=
  match l with
  | [] => []
  | _ :: l1 =>
      match leading_space l with
      | 0%nat => l
      | 1%nat => lstrip l1
      | 2%nat => match l1 with _ :: l2 => lstrip l2 | [] => l end
      | _ => match l1 with _ :: _ :: l3 => lstrip l3 | _ => l end
      end
  end.

(** [rstrip], on the bytes in reverse order. *)
Fixpoint rstrip_rev (r : list ascii) : list ascii :=
  match r with
  | [] => []
  | _ :: r1 =>
      match trailing_space r with
      | 0%nat => r
      | 1%nat => rstrip_rev r1
      | 2%nat => match r1 with _ :: r2 => rstrip_rev r2 | [] => r end
      | _ => match r1 with _ :: _ :: r3 => rstrip_rev r3 | _ => r end
      end
  end.

Definition strip (s : string) : string :=
  string_of_list_ascii
    (rev (rstrip_rev (rev (lstrip (list_ascii_of_string s))))).

Definition str_nonempty (s : string) : bool :=
  match s with EmptyString => false | _ => true end.

(** Python's [a or b] on strings. *)
Definition str_or (a b : string) : string := if str_nonempty a then a else b.

Definition ends_with (suffix s : string) : bool :=
  let ls := String.length s in
  let lx := String.length suffix in
  (lx <=? ls)%nat && String.eqb (substring (ls - lx) lx s) suffix.

(** An absolute path, as its components below the root. *)
Definition Path : Type := list string.

Definition str_path (p : Path) : string := "/" +:+ String.concat "/" p.

(** [p.parent] *)
Definition parent (p : Path) : Path := removelast p.

Definition format_errors (extraction_errors : list string) : string :=
  String.concat nl (map (fun message => "  - " +:+ message) extraction_errors).

(** ** The machine the script runs on *)

Inductive Node : Type :=
| File (content : bytes)
| Dir.

(** The PNG entries of an extracted [AppIcon.iconset] directory, in the
    order the directory enumerates them. *)
Definition Iconset : Type := list (string * bytes).

(** The file-system and process events of a run, oldest first. *)
Inductive Event : Type :=
| EvExists (p : Path)
| EvMkdir (p : Path)
| EvCopy (src dst : Path)
| EvOpen (p : Path)
| EvSave (p : Path) (format : string)
| EvMkdtemp (id : nat)
| EvRun (argv : list string)
| EvCleanup (id : nat).
(* [EvCleanup]: the temporary directory is removed, by [cleanup()] or by
   the finalizer. *)

(** [fs] holds the persistent files.  A temporary directory never
    coincides with a directory that exists, so the live ones are kept in a
    store of their own, [tmp], keyed by the order of creation; each holds
    the iconset extracted into it.  A temporary directory is live from its
    creation until it is removed: by [cleanup()], or by the finalizer of
    the [TemporaryDirectory] object once nothing refers to the object any
    more. *)
Record World : Type := mkWorld {
  platform : string;
  which_iconutil : option string;
  gettempdir : string;
  fs : gmap Path Node;
  tmp : gmap nat Iconset;
  next_tmp : nat;
  events : list Event;
  stdout : list string
}.

Definition set_fs (f : gmap Path Node) (w : World) : World :=
  mkWorld (platform w) (which_iconutil w) (gettempdir w) f (tmp w)
          (next_tmp w) (events w) (stdout w).

Definition set_tmp (t : gmap nat Iconset) (w : World) : World :=
  mkWorld (platform w) (which_iconutil w) (gettempdir w) (fs w) t
          (next_tmp w) (events w) (stdout w).

Definition set_next_tmp (n : nat) (w : World) : World :=
  mkWorld (platform w) (which_iconutil w) (gettempdir w) (fs w) (tmp w)
          n (events w) (stdout w).

Definition log (e : Event) (w : World) : World :=
  mkWorld (platform w) (which_iconutil w) (gettempdir w) (fs w) (tmp w)
          (next_tmp w) (events w ++ [e]) (stdout w).

Definition put_line (s : string) (w : World) : World :=
  mkWorld (platform w) (which_iconutil w) (gettempdir w) (fs w) (tmp w)
          (next_tmp w) (events w) (stdout w ++ [s]).

(** What one run of [iconutil] does: its exit status, the bytes it
    writes to its standard output and standard error, the iconset it
    leaves in the output directory. *)
Record ToolRun : Type := mkToolRun {
  returncode : Z;
  tool_stdout : string;
  tool_stderr : string;
  produced : Iconset
}.

(** What [text=True] makes of the bytes captured from a pipe: the text
    (decoded with the codec of the locale, line ends translated, and held
    in UTF-8 as every string here), or a [UnicodeDecodeError] with its
    message. *)
Inductive Decoded : Type :=
| Text (s : string)
| Undecodable (message : string).

(** Where the script lives, the extraction tool and the codec of the
    locale.  The tool: the outcome of a command line as a function of its
    arguments (all but the output directory, the last one) and of what is
    at the input path. *)
Class Host : Type := {
  ROOT_DIR : Path;
  iconutil : list string -> option Node -> ToolRun;
  decode_text : string -> Decoded
}.

(** ** Computations: state and exceptions *)

Definition M (A : Type) : Type := World -> Result A * World.

Definition ret {A : Type} (a : A) : M A := fun w => (Ok a, w).

Definition raise {A : Type} (e : Exn) : M A := fun w => (Raise e, w).

Definition bind {A B : Type} (m : M A) (k : A -> M B) : M B :=
  fun w =>
    match m w with
    | (Ok a, w') => k a w'
    | (Raise e, w') => (Raise e, w')
    end.

Notation "x <- m ;; k" := (bind m (fun x => k))
  (at level 100, m at next level, right associativity).
Notation "m ;;; k" := (bind m (fun _ => k))
  (at level 100, right associativity).

(** [try: m except: ...]: the outcome of [m], to be matched on. *)
Definition try {A : Type} (m : M A) : M (Result A) :=
  fun w => let '(r, w') := m w in (Ok r, w').

(** [try: m finally: c] *)
Definition finally {A : Type} (m : M A) (c : M unit) : M A :=
  fun w =>
    let '(r, w') := m w in
    match c w' with
    | (Ok _, w'') => (r, w'')
    | (Raise e, w'') => (Raise e, w'')
    end.

Definition lift {A : Type} (r : Result A) : M A := fun w => (r, w).

Definition get_world : M World := fun w => (Ok w, w).

(** ** File-system and process primitives *)

Definition is_dir (f : gmap Path Node) (p : Path) : bool :=
  match p with
  | [] => true
  | _ => match f !! p with Some Dir => true | _ => false end
  end.

Definition node_exists (f : gmap Path Node) (p : Path) : bool :=
  match p with
  | [] => true
  | _ => match f !! p with Some _ => true | None => false end
  end.

(** [p.exists()] *)
Definition path_exists (p : Path) : M bool :=
  fun w => (Ok (node_exists (fs w) p), log (EvExists p) w).

(** The directories to create for [mkdir(parents=True)], outermost first. *)
Definition ancestors_and_self (p : Path) : list Path :=
  map (fun n => take n p) (seq 1 (length p)).

Fixpoint make_dirs (ps : list Path) (f : gmap Path Node) : Result (gmap Path Node) :=
  match ps with
  | [] => Ok f
  | p :: ps' =>
      match f !! p with
      | Some (File _) => Raise (OSError ("not a directory: " +:+ str_path p))
      | Some Dir => make_dirs ps' f
      | None => make_dirs ps' (<[p := Dir]> f)
      end
  end.

(** [p.mkdir(parents=True, exist_ok=True)] *)
Definition mkdir_parents (p : Path) : M unit :=
  fun w =>
    let w1 := log (EvMkdir p) w in
    match make_dirs (ancestors_and_self p) (fs w) with
    | Ok f => (Ok tt, set_fs f w1)
    | Raise e => (Raise e, w1)
    end.

Definition path_eqb (p q : Path) : bool := bool_decide (p = q).

(** Opening [p] for writing and storing [b]. *)
Definition write_file (p : Path) (b : bytes) (f : gmap Path Node)
  : Result (gmap Path Node) :=
  if negb (is_dir f (parent p)) || match p with [] => true | _ => false end
  then Raise (OSError ("no such directory for: " +:+ str_path p))
  else match f !! p with
       | Some Dir => Raise (OSError ("is a directory: " +:+ str_path p))
       | _ => Ok (<[p := File b]> f)
       end.

Definition read_file (p : Path) (f : gmap Path Node) : Result bytes :=
  match f !! p with
  | Some (File b) => Ok b
  | Some Dir => Raise (OSError ("is a directory: " +:+ str_path p))
  | None => Raise (OSError ("no such file: " +:+ str_path p))
  end.

(** [shutil.copyfile(src, dst)] *)
Definition copyfile (src dst : Path) : M unit :=
  fun w =>
    let w1 := log (EvCopy src dst) w in
    if path_eqb src dst
    then (Raise (OSError (str_path src +:+ " and " +:+ str_path dst
                            +:+ " are the same file")), w1)
    else match read_file src (fs w) with
         | Raise e => (Raise e, w1)
         | Ok b =>
             match write_file dst b (fs w) with
             | Raise e => (Raise e, w1)
             | Ok f => (Ok tt, set_fs f w1)
             end
         end.

(** [print(line)] *)
Definition print (line : string) : M unit :=
  fun w => (Ok tt, put_line line w).

(** [tempfile.TemporaryDirectory(prefix=...)]: the handle is the key of the
    new directory in [tmp]. *)
Definition TemporaryDirectory (prefix : string) : M nat :=
  fun w =>
    let id := next_tmp w in
    (Ok id, log (EvMkdtemp id)
              (set_next_tmp (S id) (set_tmp (<[id := []]> (tmp w)) w))).

(** [temp_dir.cleanup()] *)
Definition cleanup (temp_dir : nat) : M unit :=
  fun w => (Ok tt, log (EvCleanup temp_dir) (set_tmp (delete temp_dir (tmp w)) w)).

(** What the interpreter does with a [TemporaryDirectory] that nothing
    refers to any more: its finalizer removes the directory. *)
Definition finalize (temp_dir : nat) : M unit :=
  fun w => (Ok tt, log (EvCleanup temp_dir) (set_tmp (delete temp_dir (tmp w)) w)).

(** [str(Path(temp_dir.name) / 'AppIcon.iconset')] *)
Definition str_iconset_dir (w : World) (prefix : string) (temp_dir : nat) : string :=
  gettempdir w +:+ "/" +:+ prefix +:+ pretty temp_dir +:+ "/AppIcon.iconset".

(** [save] after the encoder has run: [im.save(p, format=...)]. *)
Definition save_bytes (p : Path) (format : string) (b : bytes) : M unit :=
  fun w =>
    let w1 := log (EvSave p format) w in
    match write_file p b (fs w) with
    | Ok f => (Ok tt, set_fs f w1)
    | Raise e => (Raise e, w1)
    end.

Definition entries_of (w : World) (iconset_dir : nat) : Iconset :=
  match tmp w !! iconset_dir with
  | Some entries => entries
  | None => []
  end.

Definition entry_lookup (entries : Iconset) (name : string) : option bytes :=
  match List.find (fun e => String.eqb (fst e) name) entries with
  | Some e => Some (snd e)
  | None => None
  end.

Definition entry_exists (entries : Iconset) (name : string) : bool :=
  match entry_lookup entries name with
  | Some _ => true
  | None => false
  end.

Definition glob_png (entries : Iconset) : list string :=
  List.filter (ends_with ".png") (map fst entries).

(** [(iconset_dir / name).exists()] *)
Definition iconset_exists (iconset_dir : nat) (name : string) : M bool :=
  fun w => (Ok (entry_exists (entries_of w iconset_dir) name), w).

(** [iconset_dir.glob('*.png')]: the names, in directory order. *)
Definition iconset_glob_png (iconset_dir : nat) : M (list string) :=
  fun w => (Ok (glob_png (entries_of w iconset_dir)), w).

(** The machine after [TemporaryDirectory] and the [iconutil] run. *)
Definition after_run (argv : list string) (r : ToolRun) (w : World) : World :=
  let id := next_tmp w in
  let w1 := log (EvMkdtemp id)
              (set_next_tmp (S id) (set_tmp (<[id := []]> (tmp w)) w)) in
  log (EvRun argv) (set_tmp (<[id := produced r]> (tmp w1)) w1).

Definition after_cleanup (id : nat) (w : World) : World :=
  log (EvCleanup id) (set_tmp (delete id (tmp w)) w).

(** [W] has the persistent files, platform and tool of [w]. *)
Definition same_disk (w W : World) : Prop :=
  fs W = fs w /\ platform W = platform w /\ which_iconutil W = which_iconutil w.

(** Events of the part of a run that precedes the mask extraction. *)
Definition is_prologue (e : Event) : bool :=
  match e with
  | EvMkdir _ | EvCopy _ _ | EvOpen _ => true
  | _ => false
  end.

Definition returned {A : Type} (r : Result A) : bool :=
  match r with Ok _ => true | Raise _ => false end.

(** What trying one candidate comes to: a value, a diagnostic recorded
    before the next candidate is tried, or an exception that nothing
    catches. *)
Inductive Outcome (A : Type) : Type :=
| Found (a : A)
| Failed (message : string)
| Aborted (e : Exn).
Arguments Found {A} a.
Arguments Failed {A} message.
Arguments Aborted {A} e.

Definition is_save (e : Event) : bool :=
  match e with
  | EvSave _ _ => true
  | _ => false
  end.

(** Events of the mask extraction: a candidate probed, a temporary
    directory made or removed, [iconutil] run. *)
Definition is_extraction (e : Event) : bool :=
  match e with
  | EvExists _ | EvMkdtemp _ | EvRun _ | EvCleanup _ => true
  | _ => false
  end.

(** [W] is [w] after extraction activity only: the persistent files and
    the output stream are those of [w], the events added are probes,
    temporary directories and tool runs. *)
Definition extraction_only (w W : World) : Prop :=
  platform W = platform w
  /\ which_iconutil W = which_iconutil w
  /\ gettempdir W = gettempdir w
  /\ fs W = fs w
  /\ stdout W = stdout w
  /\ exists evs, events W = events w ++ evs
                 /\ Forall (fun e => is_extraction e = true) evs.

Section Script.

Context {imaging : Imaging} {host : Host}.

Definition decode (b : bytes) : Result ImageFile :=
  match image_open b with
  | Some f => Ok f
  | None => Raise (OSError "cannot identify image file")
  end.

(** [Image.open(p)] on a persistent file. *)
Definition Image_open (p : Path) : M ImageFile :=
  fun w =>
    let w1 := log (EvOpen p) w in
    match read_file p (fs w) with
    | Raise e => (Raise e, w1)
    | Ok b => (decode b, w1)
    end.

Definition open_entry (entries : Iconset) (name : string) : Result ImageFile :=
  match entry_lookup entries name with
  | None => Raise (OSError ("no such file: " +:+ name))
  | Some b => decode b
  end.

(** [Image.open(iconset_dir / name)] *)
Definition iconset_open (iconset_dir : nat) (name : string) : M ImageFile :=
  fun w => (open_entry (entries_of w iconset_dir) name, w).

Definition rgba_of (f : ImageFile) : Result (Image RGBA) :=
  match file_rgba f with
  | Some im => Ok im
  | None => Raise (OSError "image file is truncated")
  end.

(** [image.convert('RGBA')] of an opened file. *)
Definition convert_RGBA (f : ImageFile) : M (Image RGBA) :=
  lift (rgba_of f).

(** The text captured from a run of the tool: the standard output is
    decoded first, then the standard error; a [UnicodeDecodeError] is a
    [ValueError]. *)
Definition captured (r : ToolRun) : Result (string * string) :=
  match decode_text (tool_stdout r) with
  | Undecodable message => Raise (ValueError message)
  | Text out =>
      match decode_text (tool_stderr r) with
      | Undecodable message => Raise (ValueError message)
      | Text err => Ok (out, err)
      end
  end.

(** [subprocess.run(argv, check=True, capture_output=True, text=True)]
    for an [iconutil] command line reading [input] and writing into the
    temporary directory [out]: the tool runs, what it wrote is decoded,
    and then the exit status is checked. *)
Definition subprocess_run (argv : list string) (input : Path) (out : nat)
  : M unit :=
  fun w =>
    let r := iconutil (removelast argv) (fs w !! input) in
    let w1 := log (EvRun argv) (set_tmp (<[out := produced r]> (tmp w)) w) in
    match captured r with
    | Raise e => (Raise e, w1)
    | Ok (out, err) =>
        if returncode r =? 0
        then (Ok tt, w1)
        else (Raise (CalledProcessError out err), w1)
    end.

Definition SOURCE_ICON_PATH : Path :=
  ROOT_DIR ++ ["branding"; "source"; "app-icon.png"]%string.
Definition RENDERER_ICON_PATH : Path :=
  ROOT_DIR ++ ["src"; "renderer"; "public"; "branding"; "app-icon.png"]%string.
Definition DESKTOP_SOURCE_COPY_PATH : Path :=
  ROOT_DIR ++ ["public"; "branding"; "app-icon.png"]%string.
Definition DESKTOP_ICON_PNG_PATH : Path :=
  ROOT_DIR ++ ["public"; "branding"; "app-icon-desktop.png"]%string.
Definition DESKTOP_ICON_ICO_PATH : Path :=
  ROOT_DIR ++ ["public"; "branding"; "icon.ico"]%string.
Definition DESKTOP_ICON_ICNS_PATH : Path :=
  ROOT_DIR ++ ["public"; "branding"; "icon.icns"]%string.
Definition ICONSET_SOURCE_ICON_NAME : string := "AppIcon".
Definition ICONSET_SOURCE_PNG_NAME : string := "icon_512x512@2x.png".

Definition system_app (app resource : string) : Path :=
  ["System"; "Applications"; app; "Contents"; "Resources"; resource]%string.

Definition MACOS_ICON_CAR_CANDIDATES : list Path :=
  [ system_app "App Store.app" "Assets.car";
    system_app "Notes.app" "Assets.car";
    system_app "Calendar.app" "Assets.car";
    system_app "Music.app" "Assets.car";
    system_app "Photos.app" "Assets.car" ].

Definition MACOS_ICON_ICNS_CANDIDATES : list Path :=
  [ system_app "App Store.app" "AppIcon.icns";
    system_app "Notes.app" "AppIcon.icns";
    system_app "Music.app" "AppIcon.icns";
    system_app "Photos.app" "AppIcon.icns";
    system_app "Preview.app" "AppIcon.icns" ].

Definition car_prefix : string := "branding-icon-mask-car-".
Definition icns_prefix : string := "branding-icon-mask-icns-".

(** When [subprocess.run] raises, the call ends without handing
    [temp_dir] to its caller: the frame of the call holds the only
    reference to the [TemporaryDirectory], and the traceback of the
    exception holds the frame.  The finalizer removes the directory when
    the exception is dropped: at the end of the [except] block that
    catches it, before the next candidate is looked at, or when the
    interpreter exits.  The script does nothing in between, so the removal
    is placed where the exception leaves the call. *)
Definition extract_iconset_from_assets_car (iconutil_path : string)
    (car_path : Path) : M (nat * nat) :=
  temp_dir <- TemporaryDirectory car_prefix;;
  w <- get_world;;
  let iconset_dir := temp_dir in
  let extraction_command :=
    [ iconutil_path; "-c"; "iconset"; str_path car_path;
      ICONSET_SOURCE_ICON_NAME; "-o";
      str_iconset_dir w car_prefix temp_dir ]%string in
  ran <- try (subprocess_run extraction_command car_path iconset_dir);;
  match ran with
  | Ok _ => ret (temp_dir, iconset_dir)
  | Raise e => finalize temp_dir;;; raise e
  end.

Definition extract_iconset_from_icns (iconutil_path : string)
    (icns_path : Path) : M (nat * nat) :=
  temp_dir <- TemporaryDirectory icns_prefix;;
  w <- get_world;;
  let iconset_dir := temp_dir in
  let extraction_command :=
    [ iconutil_path; "-c"; "iconset"; str_path icns_path; "-o";
      str_iconset_dir w icns_prefix temp_dir ]%string in
  ran <- try (subprocess_run extraction_command icns_path iconset_dir);;
  match ran with
  | Ok _ => ret (temp_dir, iconset_dir)
  | Raise e => finalize temp_dir;;; raise e
  end.

(** [(exc.stderr or exc.stdout or '').strip() or 'iconutil failed'] *)
Definition failure_reason (out err : string) : string :=
  str_or (strip (str_or err (str_or out ""))) "iconutil failed".

(** The body of the second [try] of [load_macos_container_bbox]: the
    diagnostics after it, and the value returned if it returns. *)
Definition container_body (car_path : Path) (iconset_dir : nat)
    (extraction_errors : list string)
  : M (list string * option (BBox * Path)) :=
  present <- iconset_exists iconset_dir ICONSET_SOURCE_PNG_NAME;;
  if negb present
  then ret (extraction_errors
              ++ [str_path car_path +:+ ": missing " +:+ ICONSET_SOURCE_PNG_NAME],
            None)
  else
    opened <- iconset_open iconset_dir ICONSET_SOURCE_PNG_NAME;;
    rgba <- convert_RGBA opened;;
    let mask := getchannel_A rgba in
    let mask :=
      if negb (size_eqb (size mask) (ICON_CANVAS_SIZE, ICON_CANVAS_SIZE))
      then resize mask ICON_CANVAS_SIZE ICON_CANVAS_SIZE
      else mask in
    match getbbox mask with
    | None =>
        ret (extraction_errors
               ++ [str_path car_path +:+ ": extracted alpha mask is empty"],
             None)
    | Some bbox => ret (extraction_errors, Some (bbox, car_path))
    end.

Definition container_header : string :=
  "[branding] failed to extract macOS container bbox from native Assets.car files."
    +:+ nl.

Fixpoint container_loop (iconutil_path : string) (candidates : list Path)
    (extraction_errors : list string) : M (BBox * Path) :=
  match candidates with
  | [] =>
      raise (RuntimeError
               (container_header +:+ format_errors extraction_errors))
  | car_path :: rest =>
      present <- path_exists car_path;;
      if negb present
      then container_loop iconutil_path rest
             (extraction_errors ++ [str_path car_path +:+ ": missing"])
      else
        extracted <- try (extract_iconset_from_assets_car iconutil_path car_path);;
        match extracted with
        | Raise (CalledProcessError out err) =>
            container_loop iconutil_path rest
              (extraction_errors
                 ++ [str_path car_path +:+ ": " +:+ failure_reason out err])
        | Raise e => raise e
        | Ok (temp_dir, iconset_dir) =>
            outcome <- finally
                      (container_body car_path iconset_dir extraction_errors)
                      (cleanup temp_dir);;
            match outcome with
            | (_, Some found) => ret found
            | (extraction_errors', None) =>
                container_loop iconutil_path rest extraction_errors'
            end
        end
  end.

Definition load_macos_container_bbox (iconutil_path : string)
  : M (BBox * Path) :=
  container_loop iconutil_path MACOS_ICON_CAR_CANDIDATES [].

Fixpoint select_loop (iconset_dir : nat) (candidates : list string)
    (largest_path : option string) (largest_area : Z) : M (option string) :=
  match candidates with
  | [] => ret largest_path
  | candidate :: rest =>
      opened <- try (iconset_open iconset_dir candidate);;
      match opened with
      | Raise (OSError _) =>
          select_loop iconset_dir rest largest_path largest_area
      | Raise e => raise e
      | Ok icon_image =>
          let '(width, height) := file_size icon_image in
          let area := Z.of_N width * Z.of_N height in
          if largest_area <? area
          then select_loop iconset_dir rest (Some candidate) area
          else select_loop iconset_dir rest largest_path largest_area
      end
  end.

Definition select_largest_icon_png (iconset_dir : nat) : M (option string) :=
  names <- iconset_glob_png iconset_dir;;
  select_loop iconset_dir names None (-1).

Definition shape_body (icns_path : Path) (iconset_dir : nat)
    (extraction_errors : list string)
  : M (list string * option (Image Z * Path)) :=
  largest_png <- select_largest_icon_png iconset_dir;;
  match largest_png with
  | None =>
      ret (extraction_errors
             ++ [str_path icns_path +:+ ": no PNG images in extracted iconset"],
           None)
  | Some largest_png =>
      opened <- iconset_open iconset_dir largest_png;;
      rgba <- convert_RGBA opened;;
      let alpha := getchannel_A rgba in
      match getbbox alpha with
      | None =>
          ret (extraction_errors
                 ++ [str_path icns_path +:+ ": extracted alpha mask is empty"],
               None)
      | Some bbox => ret (extraction_errors, Some (alpha, icns_path))
      end
  end.

Definition shape_header : string :=
  "[branding] failed to extract macOS rounded icon shape from native AppIcon.icns files."
    +:+ nl.

Fixpoint shape_loop (iconutil_path : string) (candidates : list Path)
    (extraction_errors : list string) : M (Image Z * Path) :=
  match candidates with
  | [] =>
      raise (RuntimeError (shape_header +:+ format_errors extraction_errors))
  | icns_path :: rest =>
      present <- path_exists icns_path;;
      if negb present
      then shape_loop iconutil_path rest
             (extraction_errors ++ [str_path icns_path +:+ ": missing"])
      else
        extracted <- try (extract_iconset_from_icns iconutil_path icns_path);;
        match extracted with
        | Raise (CalledProcessError out err) =>
            shape_loop iconutil_path rest
              (extraction_errors
                 ++ [str_path icns_path +:+ ": " +:+ failure_reason out err])
        | Raise e => raise e
        | Ok (temp_dir, iconset_dir) =>
            outcome <- finally
                      (shape_body icns_path iconset_dir extraction_errors)
                      (cleanup temp_dir);;
            match outcome with
            | (_, Some found) => ret found
            | (extraction_errors', None) =>
                shape_loop iconutil_path rest extraction_errors'
            end
        end
  end.

Definition load_macos_rounded_shape_mask (iconutil_path : string)
  : M (Image Z * Path) :=
  shape_loop iconutil_path MACOS_ICON_ICNS_CANDIDATES [].

Definition load_macos_standard_mask : M (Image Z * Path * Path) :=
  w <- get_world;;
  if negb (String.eqb (platform w) "darwin")
  then raise (RuntimeError requires_macos)
  else
    match which_iconutil w with
    | None =>
        raise (RuntimeError
          "[branding] iconutil is missing, cannot extract macOS standard icon mask.")
    | Some iconutil_path =>
        container <- load_macos_container_bbox iconutil_path;;
        let '(container_bbox, container_source) := container in
        rounded <- load_macos_rounded_shape_mask iconutil_path;;
        let '(rounded_shape_alpha, rounded_shape_source) := rounded in
        mask <- lift (reshape_mask_to_bbox rounded_shape_alpha container_bbox);;
        ret (mask, container_source, rounded_shape_source)
    end.

Definition ICO_SIZES : list (N * N) :=
  [(16, 16); (24, 24); (32, 32); (48, 48); (64, 64); (128, 128); (256, 256)]%N.

Definition build_icons_from_source (source_path : Path) : M (Path * Path) :=
  mkdir_parents (parent RENDERER_ICON_PATH);;;
  mkdir_parents (parent DESKTOP_ICON_PNG_PATH);;;
  copyfile source_path RENDERER_ICON_PATH;;;
  copyfile source_path DESKTOP_SOURCE_COPY_PATH;;;
  opened <- Image_open source_path;;
  source <- convert_RGBA opened;;
  standard <- load_macos_standard_mask;;
  let '(standard_mask, container_source, rounded_shape_source) := standard in
  rounded_desktop_icon <- lift (build_desktop_icon_with_mask source standard_mask);;
  save_bytes DESKTOP_ICON_PNG_PATH "PNG" (encode_png rounded_desktop_icon);;;
  save_bytes DESKTOP_ICON_ICO_PATH "ICO"
             (encode_ico rounded_desktop_icon ICO_SIZES);;;
  save_bytes DESKTOP_ICON_ICNS_PATH "ICNS" (encode_icns rounded_desktop_icon);;;
  ret (container_source, rounded_shape_source).

Definition main : M unit :=
  present <- path_exists SOURCE_ICON_PATH;;
  if negb present
  then raise (SystemExit
                ("[branding] source icon missing: " +:+ str_path SOURCE_ICON_PATH))
  else
    print ("[branding] using source icon: " +:+ str_path SOURCE_ICON_PATH);;;
    sources <- build_icons_from_source SOURCE_ICON_PATH;;
    let '(container_source, rounded_shape_source) := sources in
    print ("[branding] updated renderer icon: " +:+ str_path RENDERER_ICON_PATH);;;
    print ("[branding] updated desktop source copy png: "
             +:+ str_path DESKTOP_SOURCE_COPY_PATH);;;
    print ("[branding] updated desktop rounded icon png: "
             +:+ str_path DESKTOP_ICON_PNG_PATH);;;
    print ("[branding] updated desktop icon ico: "
             +:+ str_path DESKTOP_ICON_ICO_PATH);;;
    print ("[branding] updated desktop icon icns: "
             +:+ str_path DESKTOP_ICON_ICNS_PATH);;;
    print ("[branding] macOS container bbox source: "
             +:+ str_path container_source);;;
    print ("[branding] macOS rounded-shape source: "
             +:+ str_path rounded_shape_source).

(** ** The candidates, seen from the files

    The outcome of one candidate as a function of the extracted iconset
    and of the node at the candidate's path.  The theorems below relate
    the loops to these. *)

Definition container_mask (rgba : Image RGBA) : Image Z :=
  let mask := getchannel_A rgba in
  if negb (size_eqb (size mask) (ICON_CANVAS_SIZE, ICON_CANVAS_SIZE))
  then resize mask ICON_CANVAS_SIZE ICON_CANVAS_SIZE
  else mask.

Definition container_check (car_path : Path) (entries : Iconset)
  : Outcome BBox :=
  if negb (entry_exists entries ICONSET_SOURCE_PNG_NAME)
  then Failed (str_path car_path +:+ ": missing " +:+ ICONSET_SOURCE_PNG_NAME)
  else
    match open_entry entries ICONSET_SOURCE_PNG_NAME with
    | Raise e => Aborted e
    | Ok opened =>
        match rgba_of opened with
        | Raise e => Aborted e
        | Ok rgba =>
            match getbbox (container_mask rgba) with
            | None =>
                Failed (str_path car_path +:+ ": extracted alpha mask is empty")
            | Some bbox => Found bbox
            end
        end
    end.

Definition area_of (f : ImageFile) : Z :=
  Z.of_N (fst (file_size f)) * Z.of_N (snd (file_size f)).

Fixpoint select_names (entries : Iconset) (candidates : list string)
    (largest_path : option string) (largest_area : Z) : option string :=
  match candidates with
  | [] => largest_path
  | candidate :: rest =>
      match open_entry entries candidate with
      | Raise _ => select_names entries rest largest_path largest_area
      | Ok icon_image =>
          if largest_area <? area_of icon_image
          then select_names entries rest (Some candidate) (area_of icon_image)
          else select_names entries rest largest_path largest_area
      end
  end.

Definition readable (entries : Iconset) (name : string) : bool :=
  match open_entry entries name with
  | Ok _ => true
  | Raise _ => false
  end.

Definition shape_check (icns_path : Path) (entries : Iconset)
  : Outcome (Image Z) :=
  match select_names entries (glob_png entries) None (-1) with
  | None =>
      Failed (str_path icns_path +:+ ": no PNG images in extracted iconset")
  | Some largest_png =>
      match open_entry entries largest_png with
      | Raise e => Aborted e
      | Ok opened =>
          match rgba_of opened with
          | Raise e => Aborted e
          | Ok rgba =>
              match getbbox (getchannel_A rgba) with
              | None =>
                  Failed (str_path icns_path
                            +:+ ": extracted alpha mask is empty")
              | Some _ => Found (getchannel_A rgba)
              end
          end
      end
  end.

Definition car_args (iconutil_path : string) (car_path : Path) : list string :=
  [ iconutil_path; "-c"; "iconset"; str_path car_path;
    ICONSET_SOURCE_ICON_NAME; "-o" ]%string.

Definition icns_args (iconutil_path : string) (icns_path : Path) : list string :=
  [ iconutil_path; "-c"; "iconset"; str_path icns_path; "-o" ]%string.

Definition tool_outcome {A : Type} (f : gmap Path Node) (args : list string)
    (path : Path) (check : Iconset -> Outcome A) : Outcome A :=
  if negb (node_exists f path)
  then Failed (str_path path +:+ ": missing")
  else
    let r := iconutil args (f !! path) in
    match captured r with
    | Raise e => Aborted e
    | Ok (out, err) =>
        if returncode r =? 0
        then check (produced r)
        else Failed (str_path path +:+ ": " +:+ failure_reason out err)
    end.

Definition car_outcome (f : gmap Path Node) (iconutil_path : string)
    (car_path : Path) : Outcome BBox :=
  tool_outcome f (car_args iconutil_path car_path) car_path
               (container_check car_path).

Definition icns_outcome (f : gmap Path Node) (iconutil_path : string)
    (icns_path : Path) : Outcome (Image Z) :=
  tool_outcome f (icns_args iconutil_path icns_path) icns_path
               (shape_check icns_path).

(** The five files a run produces. *)
Definition OUTPUT_PATHS : list Path :=
  [ RENDERER_ICON_PATH; DESKTOP_SOURCE_COPY_PATH; DESKTOP_ICON_PNG_PATH;
    DESKTOP_ICON_ICO_PATH; DESKTOP_ICON_ICNS_PATH ].

Definition COMPOSITED_PATHS : list Path :=
  [ DESKTOP_ICON_PNG_PATH; DESKTOP_ICON_ICO_PATH; DESKTOP_ICON_ICNS_PATH ].

(** Two machines with the same inputs: platform, tool, master file and
    candidate files. *)
Definition same_inputs (w1 w2 : World) : Prop :=
  platform w1 = platform w2
  /\ which_iconutil w1 = which_iconutil w2
  /\ fs w1 !! SOURCE_ICON_PATH = fs w2 !! SOURCE_ICON_PATH
  /\ Forall (fun c => fs w1 !! c = fs w2 !! c)
            (MACOS_ICON_CAR_CANDIDATES ++ MACOS_ICON_ICNS_CANDIDATES).

(** ** Stages of a run

    [build_icons_from_source] cut in three: what precedes the mask
    extraction, the extraction, what follows it. *)

Definition build_icons_prologue (source_path : Path) : M (Image RGBA) :=
  mkdir_parents (parent RENDERER_ICON_PATH);;;
  mkdir_parents (parent DESKTOP_ICON_PNG_PATH);;;
  copyfile source_path RENDERER_ICON_PATH;;;
  copyfile source_path DESKTOP_SOURCE_COPY_PATH;;;
  opened <- Image_open source_path;;
  convert_RGBA opened.

Definition build_icons_epilogue (source : Image RGBA)
    (standard : Image Z * Path * Path) : M (Path * Path) :=
  let '(standard_mask, container_source, rounded_shape_source) := standard in
  rounded_desktop_icon <- lift (build_desktop_icon_with_mask source standard_mask);;
  save_bytes DESKTOP_ICON_PNG_PATH "PNG" (encode_png rounded_desktop_icon);;;
  save_bytes DESKTOP_ICON_ICO_PATH "ICO"
             (encode_ico rounded_desktop_icon ICO_SIZES);;;
  save_bytes DESKTOP_ICON_ICNS_PATH "ICNS" (encode_icns rounded_desktop_icon);;;
  ret (container_source, rounded_shape_source).

(** [W] is [w] after the directories were made and the master file was
    copied and opened, in part or in whole. *)
Definition prologue_only (w W : World) : Prop :=
  platform W = platform w
  /\ which_iconutil W = which_iconutil w
  /\ tmp W = tmp w
  /\ next_tmp W = next_tmp w
  /\ (exists evs, events W = events w ++ evs
                  /\ Forall (fun e => is_prologue e = true) evs)
  /\ (forall q, ~ In q (ancestors_and_self (parent RENDERER_ICON_PATH)) ->
                ~ In q (ancestors_and_self (parent DESKTOP_ICON_PNG_PATH)) ->
                q <> RENDERER_ICON_PATH -> q <> DESKTOP_SOURCE_COPY_PATH ->
                fs W !! q = fs w !! q)
  /\ (forall q n, fs w !! q = Some n ->
                  q <> RENDERER_ICON_PATH -> q <> DESKTOP_SOURCE_COPY_PATH ->
                  fs W !! q = Some n).

Definition prologue_events (p : Path) : list Event :=
  [ EvMkdir (parent RENDERER_ICON_PATH); EvMkdir (parent DESKTOP_ICON_PNG_PATH);
    EvCopy p RENDERER_ICON_PATH; EvCopy p DESKTOP_SOURCE_COPY_PATH; EvOpen p ].

Definition save_events : list Event :=
  [ EvSave DESKTOP_ICON_PNG_PATH "PNG"; EvSave DESKTOP_ICON_ICO_PATH "ICO";
    EvSave DESKTOP_ICON_ICNS_PATH "ICNS" ].

(** The persistent files after the three saves. *)
Definition with_icons (icon : Image RGBA) (f : gmap Path Node) : gmap Path Node :=
  <[DESKTOP_ICON_ICNS_PATH := File (encode_icns icon)]>
    (<[DESKTOP_ICON_ICO_PATH := File (encode_ico icon ICO_SIZES)]>
       (<[DESKTOP_ICON_PNG_PATH := File (encode_png icon)]> f)).

(** The machine on which [main] calls [build_icons_from_source]. *)
Definition at_build (w : World) : World :=
  put_line ("[branding] using source icon: " +:+ str_path SOURCE_ICON_PATH)
           (log (EvExists SOURCE_ICON_PATH) w).

(** The mask before the corner check of [reshape_mask_to_bbox]. *)
Definition pasted_shape (source_alpha : Image Z) (source_bbox target_bbox : BBox)
  : Image Z :=
  let '(x0, y0, x1, y1) := target_bbox in
  paste (Image_new ICON_CANVAS_SIZE ICON_CANVAS_SIZE 0)
        (resize (crop source_alpha source_bbox) (Z.to_N (x1 - x0)) (Z.to_N (y1 - y0)))
        x0 y0.

(** The running maximum of [select_loop]: nothing selected yet, or a
    readable file and its area. *)
Definition best_so_far (entries : Iconset) (lp : option string) (la : Z) : Prop :=
  match lp with
  | None => la = -1
  | Some p => exists f, open_entry entries p = Ok f /\ area_of f = la
  end.

End Script.

(** ** A sample machine

    A small instance of the imaging library and of the host, and a few
    machines, to run the script on: nearest-neighbour resampling, one-byte
    image files, an [iconutil] that unpacks the bytes of an archive into
    one PNG each. *)
Module Sample.

Import Byte.

Definition nearest {P : Type} (im : Image P) (w h : N) (x y : Z) : P :=
  px im (x * Z.of_N (width im) / Z.of_N w) (y * Z.of_N (height im) / Z.of_N h).

Definition opaque_red : RGBA := (255, 0, 0, 255).
Definition clear : RGBA := (0, 0, 0, 0).

(** 1024 x 1024, opaque on the square from 16 to 1008. *)
Definition container_art : Image RGBA :=
  mkImage 1024 1024
    (fun x y =>
       if (16 <=? x) && (x <? 1008) && (16 <=? y) && (y <? 1008)
       then opaque_red else clear).

Definition blank_art : Image RGBA := mkImage 1024 1024 (fun _ _ => clear).

(** 8 x 8, opaque but for the top-left pixel. *)
Definition rounded_art : Image RGBA :=
  mkImage 8 8 (fun x y => if 1 <=? x + y then opaque_red else clear).

Definition square_art : Image RGBA := mkImage 8 8 (fun _ _ => opaque_red).

Definition small_art : Image RGBA := mkImage 4 4 (fun _ _ => opaque_red).

Definition sample_open (b : bytes) : option ImageFile :=
  match b with
  | [x01] => Some (mkImageFile (1024, 1024)%N (Some container_art))
  | [x02] => Some (mkImageFile (1024, 1024)%N (Some blank_art))
  | [x03] => Some (mkImageFile (8, 8)%N (Some rounded_art))
  | [x04] => Some (mkImageFile (8, 8)%N (Some square_art))
  | [x05] => Some (mkImageFile (8, 8)%N None)
  | [x06] => Some (mkImageFile (4, 4)%N (Some small_art))
  | _ => None
  end.

Definition to_byte (v : Z) : byte :=
  match Byte.of_N (Z.to_N (v mod 256)) with
  | Some b => b
  | None => x00
  end.

Definition sample_encode (tag : byte) (im : Image RGBA) : bytes :=
  tag :: map (fun xy => to_byte (snd (px im (fst xy) (snd xy))))
             [(0, 0); (16, 16); (512, 512)].

#[export] Instance imaging : Imaging := {|
  lanczos := nearest;
  fit_lanczos := nearest;
  blend := fun dst src m => if m =? 0 then dst else src;
  image_open := sample_open;
  encode_png := sample_encode x50;
  encode_ico := fun im _ => sample_encode x49 im;
  encode_icns := sample_encode x69
|}.

Definition sample_names : list string :=
  ["icon_512x512@2x.png"; "icon_256x256.png"; "icon_16x16.png"; "Info.txt"]%string.

Definition sample_iconutil (args : list string) (input : option Node) : ToolRun :=
  match input with
  | Some (File (x01 :: ks)) =>
      mkToolRun 0 "" "" (combine sample_names (map (fun k => [k]) ks))
  | Some (File (x02 :: _)) =>
      mkToolRun 1 "" (String (ascii_of_N 255) EmptyString) []
  | _ => mkToolRun 1 "" ("  cannot read archive " +:+ nl) []
  end.

(** The codec of a locale that knows 7-bit characters only. *)
Definition sample_decode (s : string) : Decoded :=
  if forallb (fun c => (N_of_ascii c <? 128)%N) (list_ascii_of_string s)
  then Text s
  else Undecodable "'ascii' codec can't decode byte: ordinal not in range(128)".

#[export] Instance host : Host := {|
  ROOT_DIR := ["repo"]%string;
  iconutil := sample_iconutil;
  decode_text := sample_decode
|}.

Definition app_store_car : Path := system_app "App Store.app" "Assets.car".
Definition notes_car : Path := system_app "Notes.app" "Assets.car".
Definition app_store_icns : Path := system_app "App Store.app" "AppIcon.icns".
Definition notes_icns : Path := system_app "Notes.app" "AppIcon.icns".

Definition master : bytes := [x06].

Definition repo_files : list (Path * Node) :=
  [ (["repo"], Dir); (["repo"; "branding"], Dir);
    (["repo"; "branding"; "source"], Dir);
    (["repo"; "branding"; "source"; "app-icon.png"], File master) ]%string.

Definition machine (sys_platform : string) (apps : list (Path * Node)) : World :=
  mkWorld sys_platform (Some "/usr/bin/iconutil"%string) "/tmp"
          (list_to_map (repo_files ++ apps)) ∅ 0 [] [].

(** A Mac whose first candidates both extract well. *)
Definition mac : World :=
  machine "darwin"
    [ (app_store_car, File [x01; x01]); (app_store_icns, File [x01; x03]) ].

(** The only icon archive holds an opaque square. *)
Definition mac_square : World :=
  machine "darwin"
    [ (app_store_car, File [x01; x01]); (notes_icns, File [x01; x04]) ].


(** A Mac without any of the candidate applications. *)
Definition mac_bare : World := machine "darwin" [].

(** The inputs of [mac], on a machine that has run before: stale
    outputs, a live temporary directory, events and output lines. *)
Definition mac_stale : World :=
  mkWorld "darwin" (Some "/usr/bin/iconutil"%string) "/var/tmp"
          (list_to_map
             (repo_files
                ++ [ (app_store_car, File [x01; x01]);
                     (app_store_icns, File [x01; x03]);
                     (["repo"; "public"], Dir);
                     (["repo"; "public"; "branding"], Dir);
                     (["repo"; "public"; "branding"; "icon.ico"], File [x00; x00]);
                     (["repo"; "public"; "branding"; "app-icon.png"], File [x04]) ]%string))
          {[ 3%nat := [("left-over.png"%string, [x02])] ]} 7
          [EvCleanup 2] ["an earlier line"%string].

(** The first PNG of the extracted iconset cannot be opened. *)
Definition mac_unreadable_png : World :=
  machine "darwin"
    [ (app_store_car, File [x01; x01]); (app_store_icns, File [x01; x00; x03]) ].

(** The first archive extracts to a blank image, the second one is good. *)
Definition mac_blank_first : World :=
  machine "darwin"
    [ (app_store_car, File [x01; x02]); (notes_car, File [x01; x01]);
      (app_store_icns, File [x01; x02]); (notes_icns, File [x01; x03]) ].

Definition linux : World :=
  machine "linux"
    [ (app_store_car, File [x01; x01]); (app_store_icns, File [x01; x03]) ].

Definition tool : string := "/usr/bin/iconutil".

Definition sample_box : BBox := (16, 16, 1008, 1008).

Definition opaque_mask : Image Z :=
  Image_new ICON_CANVAS_SIZE ICON_CANVAS_SIZE 255.

End Sample.

(** ** What the further theorems are stated with *)

(** ** Relations kept by every step of a computation *)

(** [m] takes every machine to a machine related to it by [R], whether it
    returns or raises. *)
Definition preserves {A : Type} (R : World -> World -> Prop) (m : M A) : Prop :=
  forall w, R w (snd (m w)).

Definition same_stdout (w W : World) : Prop := stdout W = stdout w.


(** Every exception of [m] is one of [P]. *)
Definition raises_only {A : Type} (P : Exn -> Prop) (m : M A) : Prop :=
  forall w e, fst (m w) = Raise e -> P e.

(** [m] raises on every machine that satisfies [P]. *)
Definition fails_under {A : Type} (P : World -> Prop) (m : M A) : Prop :=
  forall w, P w -> returned (fst (m w)) = false.

(** A directory sits at [q]. *)
Definition blocked (q : Path) (w : World) : Prop := fs w !! q = Some Dir.

(** A box whose coordinates are C integers (32 bits) and that is no
    larger than the canvas. *)
Definition moderate_box (b : BBox) : Prop :=
  let '(x0, y0, x1, y1) := b in
  -2147483648 <= x0 /\ -2147483648 <= y0
  /\ x1 <= 2147483647 /\ y1 <= 2147483647
  /\ x1 - x0 <= 1024 /\ y1 - y0 <= 1024.

Definition iconutil_missing : string :=
  "[branding] iconutil is missing, cannot extract macOS standard icon mask.".

Section Views.

Context {imaging : Imaging} {host : Host}.

(** The directories that [build_icons_from_source] makes when missing. *)
Definition OUTPUT_DIRS : list Path :=
  ancestors_and_self (parent RENDERER_ICON_PATH)
    ++ ancestors_and_self (parent DESKTOP_ICON_PNG_PATH).

(** From [w] to [W] a path keeps its node, or it is one of the five
    output files, or it is an output directory that was missing and has
    been made. *)
Definition only_outputs (w W : World) : Prop :=
  forall q,
    fs W !! q = fs w !! q
    \/ In q OUTPUT_PATHS
    \/ (In q OUTPUT_DIRS /\ fs w !! q = None /\ fs W !! q = Some Dir).

Definition using_line : string :=
  "[branding] using source icon: " +:+ str_path SOURCE_ICON_PATH.

(** The lines [main] prints after [build_icons_from_source] has returned. *)
Definition updated_lines (container_source rounded_shape_source : Path)
  : list string :=
  [ "[branding] updated renderer icon: " +:+ str_path RENDERER_ICON_PATH;
    "[branding] updated desktop source copy png: "
      +:+ str_path DESKTOP_SOURCE_COPY_PATH;
    "[branding] updated desktop rounded icon png: "
      +:+ str_path DESKTOP_ICON_PNG_PATH;
    "[branding] updated desktop icon ico: " +:+ str_path DESKTOP_ICON_ICO_PATH;
    "[branding] updated desktop icon icns: " +:+ str_path DESKTOP_ICON_ICNS_PATH;
    "[branding] macOS container bbox source: " +:+ str_path container_source;
    "[branding] macOS rounded-shape source: " +:+ str_path rounded_shape_source ].

(** Nothing is in the way of the outputs: no file where a directory is
    to be made, no directory where a file is to be written. *)
Definition unobstructed (w : World) : Prop :=
  (forall q c, In q OUTPUT_DIRS -> fs w !! q <> Some (File c))
  /\ (forall q, In q OUTPUT_PATHS -> fs w !! q <> Some Dir).

(** [w] is [w0] but for the outputs and their directories, and nothing
    is in the way. *)
Definition ready (w0 w : World) : Prop :=
  platform w = platform w0
  /\ which_iconutil w = which_iconutil w0
  /\ unobstructed w
  /\ (forall q, ~ In q OUTPUT_PATHS -> ~ In q OUTPUT_DIRS ->
                fs w !! q = fs w0 !! q).

Definition dirs_made (w : World) : Prop :=
  forall q, In q OUTPUT_DIRS -> fs w !! q = Some Dir.

(** The machine after the loop has dealt with candidate [c]: probed,
    and if it is there, extracted into a new temporary directory that is
    removed again. *)
Definition after_candidate (args : list string) (prefix : string) (c : Path)
    (w : World) : World :=
  let w1 := log (EvExists c) w in
  if negb (node_exists (fs w) c)
  then w1
  else
    let r := iconutil args (fs w !! c) in
    let argv := args ++ [str_iconset_dir w1 prefix (next_tmp w1)] in
    after_cleanup (next_tmp w1) (after_run argv r w1).

(** The diagnostics of a list of candidates that failed for the given
    reasons, and the message that lists diagnostics under a header: the
    header line, then one line for each diagnostic, in order. *)
Definition diagnostics (candidates : list Path) (reasons : list string)
  : list string :=
  zip_with (fun c reason => str_path c +:+ ": " +:+ reason) candidates reasons.

Definition listing (header : string) (lines : list string) : string :=
  header +:+ nl +:+ String.concat nl (map (fun line => "  - " +:+ line) lines).

(** The messages of the [RuntimeError]s a run can end with. *)
Definition mask_error (m : string) : Prop :=
  m = "[branding] macOS standard icon mask extraction requires macOS."%string
  \/ m = "[branding] iconutil is missing, cannot extract macOS standard icon mask."%string
  \/ (exists reasons,
        length reasons = length MACOS_ICON_CAR_CANDIDATES
        /\ m = listing
            "[branding] failed to extract macOS container bbox from native Assets.car files."
            (diagnostics MACOS_ICON_CAR_CANDIDATES reasons))
  \/ (exists reasons,
        length reasons = length MACOS_ICON_ICNS_CANDIDATES
        /\ m = listing
            "[branding] failed to extract macOS rounded icon shape from native AppIcon.icns files."
            (diagnostics MACOS_ICON_ICNS_CANDIDATES reasons))
  \/ m = "[branding] rounded shape validation failed: corner is not transparent"%string.

(** What is raised by the script itself is one of its messages; what the
    libraries raise is theirs. *)
Definition run_error (e : Exn) : Prop :=
  match e with
  | RuntimeError m => mask_error m
  | SystemExit _ | CalledProcessError _ _ => False
  | OSError _ | ValueError _ | IndexError _ => True
  end.

End Views.

(** ** Candidates, in the words of the specification *)

Section Candidates.

Context {imaging : Imaging} {host : Host}.

(** Candidate [c] is there and [iconutil], run on it with [args], exits
    with status [rc], having written the texts [out] and [err] and
    extracted [entries]. *)
Definition extracts (f : gmap Path Node) (args : list string) (c : Path)
    (rc : Z) (out err : string) (entries : Iconset) : Prop :=
  node_exists f c = true
  /\ returncode (iconutil args (f !! c)) = rc
  /\ decode_text (tool_stdout (iconutil args (f !! c))) = Text out
  /\ decode_text (tool_stderr (iconutil args (f !! c))) = Text err
  /\ produced (iconutil args (f !! c)) = entries.

(** The reason given for a run of [iconutil] that failed: what it wrote
    to its standard error or, if that is empty, to its standard output,
    without the white space around it; "iconutil failed" if nothing is
    left. *)
Definition reported (out err : string) : string :=
  let text := if String.eqb err "" then out else err in
  if String.eqb (strip text) "" then "iconutil failed" else strip text.

(** A container candidate fails, for a reason: it is missing, [iconutil]
    fails on it, the expected PNG is not in what was extracted, or the
    alpha channel of that PNG is empty. *)
Inductive car_fails (f : gmap Path Node) (tool : string) (c : Path)
  : string -> Prop :=
| car_missing :
    node_exists f c = false ->
    car_fails f tool c "missing"
| car_tool_failed (rc : Z) (out err : string) (entries : Iconset) :
    extracts f (car_args tool c) c rc out err entries ->
    rc <> 0 ->
    car_fails f tool c (reported out err)
| car_png_missing (out err : string) (entries : Iconset) :
    extracts f (car_args tool c) c 0 out err entries ->
    entry_exists entries "icon_512x512@2x.png" = false ->
    car_fails f tool c "missing icon_512x512@2x.png"
| car_alpha_empty (out err : string) (entries : Iconset) (opened : ImageFile)
    (rgba : Image RGBA) :
    extracts f (car_args tool c) c 0 out err entries ->
    open_entry entries "icon_512x512@2x.png" = Ok opened ->
    rgba_of opened = Ok rgba ->
    getbbox (container_mask rgba) = None ->
    car_fails f tool c "extracted alpha mask is empty".

(** A container candidate passes, with the box of its alpha channel. *)
Definition car_passes (f : gmap Path Node) (tool : string) (c : Path)
    (bbox : BBox) : Prop :=
  exists out err entries opened rgba,
    extracts f (car_args tool c) c 0 out err entries
    /\ open_entry entries "icon_512x512@2x.png" = Ok opened
    /\ rgba_of opened = Ok rgba
    /\ getbbox (container_mask rgba) = Some bbox.

(** Neither: what [iconutil] wrote cannot be decoded, or the expected PNG
    is there and cannot be opened or converted. *)
Inductive car_aborts (f : gmap Path Node) (tool : string) (c : Path)
  : Exn -> Prop :=
| car_undecodable_text (e : Exn) :
    node_exists f c = true ->
    captured (iconutil (car_args tool c) (f !! c)) = Raise e ->
    car_aborts f tool c e
| car_png_unreadable (out err : string) (entries : Iconset) (e : Exn) :
    extracts f (car_args tool c) c 0 out err entries ->
    entry_exists entries "icon_512x512@2x.png" = true ->
    open_entry entries "icon_512x512@2x.png" = Raise e ->
    car_aborts f tool c e
| car_png_truncated (out err : string) (entries : Iconset) (opened : ImageFile)
    (e : Exn) :
    extracts f (car_args tool c) c 0 out err entries ->
    open_entry entries "icon_512x512@2x.png" = Ok opened ->
    rgba_of opened = Raise e ->
    car_aborts f tool c e.

(** The same for a shape candidate, whose PNG is the one that
    [select_largest_icon_png] selects: the candidate fails when no PNG of
    the iconset can be opened. *)
Inductive icns_fails (f : gmap Path Node) (tool : string) (c : Path)
  : string -> Prop :=
| icns_missing :
    node_exists f c = false ->
    icns_fails f tool c "missing"
| icns_tool_failed (rc : Z) (out err : string) (entries : Iconset) :
    extracts f (icns_args tool c) c rc out err entries ->
    rc <> 0 ->
    icns_fails f tool c (reported out err)
| icns_no_png (out err : string) (entries : Iconset) :
    extracts f (icns_args tool c) c 0 out err entries ->
    Forall (fun name => readable entries name = false) (glob_png entries) ->
    icns_fails f tool c "no PNG images in extracted iconset"
| icns_alpha_empty (out err : string) (entries : Iconset) (largest : string)
    (opened : ImageFile) (rgba : Image RGBA) :
    extracts f (icns_args tool c) c 0 out err entries ->
    select_names entries (glob_png entries) None (-1) = Some largest ->
    open_entry entries largest = Ok opened ->
    rgba_of opened = Ok rgba ->
    getbbox (getchannel_A rgba) = None ->
    icns_fails f tool c "extracted alpha mask is empty".

Definition icns_passes (f : gmap Path Node) (tool : string) (c : Path)
    (alpha : Image Z) : Prop :=
  exists out err entries largest opened rgba,
    extracts f (icns_args tool c) c 0 out err entries
    /\ select_names entries (glob_png entries) None (-1) = Some largest
    /\ open_entry entries largest = Ok opened
    /\ rgba_of opened = Ok rgba
    /\ getbbox (getchannel_A rgba) <> None
    /\ alpha = getchannel_A rgba.

Inductive icns_aborts (f : gmap Path Node) (tool : string) (c : Path)
  : Exn -> Prop :=
| icns_undecodable_text (e : Exn) :
    node_exists f c = true ->
    captured (iconutil (icns_args tool c) (f !! c)) = Raise e ->
    icns_aborts f tool c e
| icns_png_truncated (out err : string) (entries : Iconset) (largest : string)
    (opened : ImageFile) (e : Exn) :
    extracts f (icns_args tool c) c 0 out err entries ->
    select_names entries (glob_png entries) None (-1) = Some largest ->
    open_entry entries largest = Ok opened ->
    rgba_of opened = Raise e ->
    icns_aborts f tool c e.

(** The candidates probed, in order, among the events of a run. *)
Fixpoint probes (evs : list Event) : list Path :=
  match evs with
  | EvExists p :: evs' => p :: probes evs'
  | _ :: evs' => probes evs'
  | [] => []
  end.

(** The events of a candidate loop: for each candidate the probe and, if
    the candidate is there, a temporary directory made, the run of
    [iconutil] and the removal of that directory, before anything else. *)
Fixpoint scoped (evs : list Event) : bool :=
  match evs with
  | [] => true
  | EvExists _ :: EvMkdtemp made :: EvRun _ :: EvCleanup removed :: evs' =>
      (made =? removed)%nat && scoped evs'
  | EvExists _ :: evs' => scoped evs'
  | _ => false
  end.

End Candidates.

(** ** The steps of [build_icons_from_source], one at a time *)

Section Steps.

Context {imaging : Imaging} {host : Host}.

(** How far a call has come, and what it has in hand. *)
Inductive Progress : Type :=
| Started
| RendererDirMade
| DesktopDirMade
| RendererCopied
| DesktopCopied
| MasterOpened (opened : ImageFile)
| MasterConverted (source : Image RGBA)
| MaskLoaded (source : Image RGBA) (standard : Image Z * Path * Path)
| Composited (icon : Image RGBA) (container_source rounded_shape_source : Path)
| PngSaved (icon : Image RGBA) (container_source rounded_shape_source : Path)
| IcoSaved (icon : Image RGBA) (container_source rounded_shape_source : Path)
| IcnsSaved (container_source rounded_shape_source : Path).

(** The statement that comes next (lines 242 to 255); after the last one
    nothing is left to do. *)
Definition next_step (source_path : Path) (at_ : Progress) : M Progress :=
  match at_ with
  | Started =>
      mkdir_parents (parent RENDERER_ICON_PATH);;; ret RendererDirMade
  | RendererDirMade =>
      mkdir_parents (parent DESKTOP_ICON_PNG_PATH);;; ret DesktopDirMade
  | DesktopDirMade =>
      copyfile source_path RENDERER_ICON_PATH;;; ret RendererCopied
  | RendererCopied =>
      copyfile source_path DESKTOP_SOURCE_COPY_PATH;;; ret DesktopCopied
  | DesktopCopied =>
      opened <- Image_open source_path;; ret (MasterOpened opened)
  | MasterOpened opened =>
      source <- convert_RGBA opened;; ret (MasterConverted source)
  | MasterConverted source =>
      standard <- load_macos_standard_mask;; ret (MaskLoaded source standard)
  | MaskLoaded source (standard_mask, container_source, rounded_shape_source) =>
      icon <- lift (build_desktop_icon_with_mask source standard_mask);;
      ret (Composited icon container_source rounded_shape_source)
  | Composited icon container_source rounded_shape_source =>
      save_bytes DESKTOP_ICON_PNG_PATH "PNG" (encode_png icon);;;
      ret (PngSaved icon container_source rounded_shape_source)
  | PngSaved icon container_source rounded_shape_source =>
      save_bytes DESKTOP_ICON_ICO_PATH "ICO" (encode_ico icon ICO_SIZES);;;
      ret (IcoSaved icon container_source rounded_shape_source)
  | IcoSaved icon container_source rounded_shape_source =>
      save_bytes DESKTOP_ICON_ICNS_PATH "ICNS" (encode_icns icon);;;
      ret (IcnsSaved container_source rounded_shape_source)
  | IcnsSaved container_source rounded_shape_source =>
      ret (IcnsSaved container_source rounded_shape_source)
  end.

(** A call on [w] comes to [at_] with the machine in state [W]: every
    step before has returned. *)
Inductive reaches (source_path : Path) (w : World) : Progress -> World -> Prop :=
| reaches_start : reaches source_path w Started w
| reaches_next (at_ next : Progress) (w1 w2 : World) :
    reaches source_path w at_ w1 ->
    next_step source_path at_ w1 = (Ok next, w2) ->
    reaches source_path w next w2.

(** [n] steps from [at_] on. *)
Fixpoint steps (n : nat) (source_path : Path) (at_ : Progress) : M Progress :=
  match n with
  | O => ret at_
  | S n' => next <- next_step source_path at_;; steps n' source_path next
  end.

(** The number of steps that lead to [at_]. *)
Definition rank (at_ : Progress) : nat :=
  match at_ with
  | Started => 0
  | RendererDirMade => 1
  | DesktopDirMade => 2
  | RendererCopied => 3
  | DesktopCopied => 4
  | MasterOpened _ => 5
  | MasterConverted _ => 6
  | MaskLoaded _ _ => 7
  | Composited _ _ _ => 8
  | PngSaved _ _ _ => 9
  | IcoSaved _ _ _ => 10
  | IcnsSaved _ _ => 11
  end.

End Steps.

(** ** More sample machines *)

Module MoreSamples.

Import Byte Sample.

(** [mac] while an iconset of four entries is extracted: a 4 x 4 PNG, two
    8 x 8 PNGs and a file that is not a PNG. *)
Definition mac_extracted : World :=
  set_tmp {[ 0%nat := [ ("a.png"%string, [x06]); ("b.png"%string, [x03]);
                        ("c.png"%string, [x04]); ("notes.txt"%string, [x03]) ] ]}
          (set_next_tmp 1 mac).

(** A box that starts beyond the canvas, and one that starts left of it. *)
Definition far_box : BBox := (2000, 0, 2010, 10).
Definition left_box : BBox := (-8, 0, 8, 16).

(** A no-break space (U+00A0) and an em space (U+2003), in UTF-8. *)
Definition wide_blanks : string :=
  string_of_list_ascii (map ascii_of_N [194; 160; 226; 128; 131]%N).

Definition calendar_car : Path := system_app "Calendar.app" "Assets.car".
Definition music_car : Path := system_app "Music.app" "Assets.car".
Definition photos_car : Path := system_app "Photos.app" "Assets.car".
Definition music_icns : Path := system_app "Music.app" "AppIcon.icns".
Definition photos_icns : Path := system_app "Photos.app" "AppIcon.icns".
Definition preview_icns : Path := system_app "Preview.app" "AppIcon.icns".

(** No candidate is of use, each for a reason of its own: [iconutil]
    fails on the first archive of each list, the second is missing, the
    third holds no PNG of the expected name (no PNG at all, in the shape
    list), the fourth a blank image (only a PNG that cannot be opened, in
    the shape list), the fifth a blank image. *)
Definition mac_nothing_usable : World :=
  machine "darwin"
    [ (app_store_car, File [x00]); (calendar_car, File [x01]);
      (music_car, File [x01; x02]); (photos_car, File [x01; x02]);
      (app_store_icns, File [x00]); (music_icns, File [x01]);
      (photos_icns, File [x01; x00]); (preview_icns, File [x01; x02]) ].

(** The only archive of each list holds a PNG that cannot be decoded:
    one that is not an image, one that is cut short. *)
Definition mac_undecodable_png : World :=
  machine "darwin"
    [ (app_store_car, File [x01; x00]); (app_store_icns, File [x01; x05]) ].

(** What [iconutil] writes when it cannot read an archive, and what it
    extracts from an archive that holds a blank image. *)
Definition cannot_read : string := "  cannot read archive " +:+ nl.

Definition blank_entries : Iconset := [("icon_512x512@2x.png"%string, [x02])].

Definition blank_file : ImageFile := mkImageFile (1024, 1024)%N (Some blank_art).

Definition good_file : ImageFile := mkImageFile (1024, 1024)%N (Some container_art).

(** The messages of the two loaders on [mac_nothing_usable]. *)
Definition nothing_usable_car_message : string :=
  "[branding] failed to extract macOS container bbox from native Assets.car files."
    +:+ nl +:+
  "  - /System/Applications/App Store.app/Contents/Resources/Assets.car: cannot read archive"
    +:+ nl +:+
  "  - /System/Applications/Notes.app/Contents/Resources/Assets.car: missing"
    +:+ nl +:+
  "  - /System/Applications/Calendar.app/Contents/Resources/Assets.car: missing icon_512x512@2x.png"
    +:+ nl +:+
  "  - /System/Applications/Music.app/Contents/Resources/Assets.car: extracted alpha mask is empty"
    +:+ nl +:+
  "  - /System/Applications/Photos.app/Contents/Resources/Assets.car: extracted alpha mask is empty".

Definition nothing_usable_icns_message : string :=
  "[branding] failed to extract macOS rounded icon shape from native AppIcon.icns files."
    +:+ nl +:+
  "  - /System/Applications/App Store.app/Contents/Resources/AppIcon.icns: cannot read archive"
    +:+ nl +:+
  "  - /System/Applications/Notes.app/Contents/Resources/AppIcon.icns: missing"
    +:+ nl +:+
  "  - /System/Applications/Music.app/Contents/Resources/AppIcon.icns: no PNG images in extracted iconset"
    +:+ nl +:+
  "  - /System/Applications/Photos.app/Contents/Resources/AppIcon.icns: no PNG images in extracted iconset"
    +:+ nl +:+
  "  - /System/Applications/Preview.app/Contents/Resources/AppIcon.icns: extracted alpha mask is empty".

(** A directory sits where the renderer icon is to be copied. *)
Definition mac_renderer_blocked : World :=
  machine "darwin"
    [ (app_store_car, File [x01; x01]); (app_store_icns, File [x01; x03]);
      (RENDERER_ICON_PATH, Dir) ].

(** [iconutil] fails on the first archive with a message that the codec
    of the locale cannot decode; the second archive is good. *)
Definition mac_undecodable_text : World :=
  machine "darwin"
    [ (app_store_car, File [x02]); (notes_car, File [x01; x01]);
      (app_store_icns, File [x02]); (notes_icns, File [x01; x03]) ].

End MoreSamples.

(** * Theorems *)

(** ** One candidate: extraction leaves the persistent files alone *)

Lemma extraction_only_refl (w : World) : extraction_only w w.
Proof.
  repeat split. exists []. split; [ by rewrite app_nil_r | constructor ].
Qed.

Lemma extraction_only_trans (w1 w2 w3 : World) :
  extraction_only w1 w2 -> extraction_only w2 w3 -> extraction_only w1 w3.
Proof.
  intros (Hp & Hw & Hg & Hf & Hs & evs & He & Hq)
         (Hp' & Hw' & Hg' & Hf' & Hs' & evs' & He' & Hq').
  repeat split; try congruence.
  exists (evs ++ evs'). split.
  - rewrite He', He. by rewrite app_assoc.
  - by apply Forall_app.
Qed.

Lemma extraction_only_log (e : Event) (w W : World) :
  is_extraction e = true -> extraction_only w W -> extraction_only w (log e W).
Proof.
  intros Hx (Hp & Hw & Hg & Hf & Hs & evs & He & Hq).
  repeat split; simpl; try assumption.
  exists (evs ++ [e]). split.
  - rewrite He. by rewrite app_assoc.
  - apply Forall_app. split; [ assumption | by constructor ].
Qed.

Lemma extraction_only_set_tmp (t : gmap nat Iconset) (w W : World) :
  extraction_only w W -> extraction_only w (set_tmp t W).
Proof. intros H. exact H. Qed.

Lemma extraction_only_set_next_tmp (n : nat) (w W : World) :
  extraction_only w W -> extraction_only w (set_next_tmp n W).
Proof. intros H. exact H. Qed.

Lemma bind_Ok {A B : Type} (m : M A) (k : A -> M B) (w : World) (a : A) (w' : World) :
  m w = (Ok a, w') -> bind m k w = k a w'.
Proof. intros H. unfold bind. by rewrite H. Qed.

Lemma bind_Raise {A B : Type} (m : M A) (k : A -> M B) (w : World) (e : Exn) (w' : World) :
  m w = (Raise e, w') -> bind m k w = (Raise e, w').
Proof. intros H. unfold bind. by rewrite H. Qed.

Section Candidate.
Context {imaging : Imaging} {host : Host}.

Lemma container_body_spec (c : Path) (d : nat) (errs : list string) (w : World) :
  container_body c d errs w =
    (match container_check c (entries_of w d) with
     | Found b => Ok (errs, Some (b, c))
     | Failed m => Ok (errs ++ [m], None)
     | Aborted e => Raise e
     end, w).
Proof.
  unfold container_body, container_check, container_mask, bind, iconset_exists,
    iconset_open, convert_RGBA, lift, ret.
  destruct (entry_exists (entries_of w d) ICONSET_SOURCE_PNG_NAME); simpl; [ | reflexivity ].
  destruct (open_entry (entries_of w d) ICONSET_SOURCE_PNG_NAME) as [opened | e]; [ | reflexivity ].
  destruct (rgba_of opened) as [rgba | e]; [ | reflexivity ].
  destruct (getbbox _); reflexivity.
Qed.

Lemma open_entry_raise (entries : Iconset) (name : string) (e : Exn) :
  open_entry entries name = Raise e -> exists m, e = OSError m.
Proof.
  unfold open_entry, decode.
  destruct (entry_lookup entries name) as [b | ].
  - destruct (image_open b); intros H; inversion H; eauto.
  - intros H; inversion H; eauto.
Qed.

Lemma select_loop_spec (d : nat) (names : list string) :
  forall (lp : option string) (la : Z) (w : World),
    select_loop d names lp la w
    = (Ok (select_names (entries_of w d) names lp la), w).
Proof.
  induction names as [ | n names IH]; intros lp la w; [ reflexivity | ].
  simpl. unfold bind, try, iconset_open.
  destruct (open_entry (entries_of w d) n) as [f | e] eqn:Hopen.
  - unfold area_of. destruct (file_size f) as [wd ht]. simpl.
    destruct (la <? Z.of_N wd * Z.of_N ht); apply IH.
  - destruct (open_entry_raise _ _ _ Hopen) as [m ->]. apply IH.
Qed.

Lemma select_largest_icon_png_spec (d : nat) (w : World) :
  select_largest_icon_png d w
  = (Ok (select_names (entries_of w d) (glob_png (entries_of w d)) None (-1)), w).
Proof.
  unfold select_largest_icon_png, bind, iconset_glob_png.
  apply select_loop_spec.
Qed.

Lemma shape_body_spec (c : Path) (d : nat) (errs : list string) (w : World) :
  shape_body c d errs w =
    (match shape_check c (entries_of w d) with
     | Found a => Ok (errs, Some (a, c))
     | Failed m => Ok (errs ++ [m], None)
     | Aborted e => Raise e
     end, w).
Proof.
  unfold shape_body, shape_check, bind.
  rewrite select_largest_icon_png_spec.
  destruct (select_names _ _ _ _) as [largest | ]; [ | reflexivity ].
  unfold iconset_open, convert_RGBA, lift, ret.
  destruct (open_entry (entries_of w d) largest) as [opened | e]; [ | reflexivity ].
  destruct (rgba_of opened) as [rgba | e]; [ | reflexivity ].
  destruct (getbbox _); reflexivity.
Qed.

Lemma captured_raise (r : ToolRun) (e : Exn) :
  captured r = Raise e -> exists m, e = ValueError m.
Proof.
  unfold captured.
  destruct (decode_text (tool_stdout r)); [ | intros H; inversion H; eauto ].
  destruct (decode_text (tool_stderr r)); [ discriminate | ].
  intros H; inversion H; eauto.
Qed.

Lemma after_run_entries argv r w :
  entries_of (after_run argv r w) (next_tmp w) = produced r.
Proof.
  unfold entries_of, after_run. simpl. by rewrite lookup_insert_eq.
Qed.

Lemma after_run_extraction_only argv r w W :
  extraction_only W w -> extraction_only W (after_run argv r w).
Proof.
  intros H. unfold after_run.
  apply extraction_only_log; [ reflexivity | ].
  apply extraction_only_set_tmp.
  apply extraction_only_log; [ reflexivity | ].
  by apply extraction_only_set_next_tmp, extraction_only_set_tmp.
Qed.

Lemma extract_car_spec (tool : string) (c : Path) (w : World) :
  let r := iconutil (car_args tool c) (fs w !! c) in
  let argv := car_args tool c ++ [str_iconset_dir w car_prefix (next_tmp w)] in
  extract_iconset_from_assets_car tool c w
  = match captured r with
    | Ok (out, err) =>
        if returncode r =? 0
        then (Ok (next_tmp w, next_tmp w), after_run argv r w)
        else (Raise (CalledProcessError out err),
              after_cleanup (next_tmp w) (after_run argv r w))
    | Raise e => (Raise e, after_cleanup (next_tmp w) (after_run argv r w))
    end.
Proof.
  unfold extract_iconset_from_assets_car, bind, try, TemporaryDirectory, get_world,
    subprocess_run, finalize, raise, ret, after_cleanup, after_run, car_args.
  simpl.
  destruct (captured _) as [[out err] | e]; [ | reflexivity ].
  destruct (returncode _ =? 0); reflexivity.
Qed.

Lemma extract_icns_spec (tool : string) (c : Path) (w : World) :
  let r := iconutil (icns_args tool c) (fs w !! c) in
  let argv := icns_args tool c ++ [str_iconset_dir w icns_prefix (next_tmp w)] in
  extract_iconset_from_icns tool c w
  = match captured r with
    | Ok (out, err) =>
        if returncode r =? 0
        then (Ok (next_tmp w, next_tmp w), after_run argv r w)
        else (Raise (CalledProcessError out err),
              after_cleanup (next_tmp w) (after_run argv r w))
    | Raise e => (Raise e, after_cleanup (next_tmp w) (after_run argv r w))
    end.
Proof.
  unfold extract_iconset_from_icns, bind, try, TemporaryDirectory, get_world,
    subprocess_run, finalize, raise, ret, after_cleanup, after_run, icns_args.
  simpl.
  destruct (captured _) as [[out err] | e]; [ | reflexivity ].
  destruct (returncode _ =? 0); reflexivity.
Qed.

Lemma container_loop_step (tool : string) (c : Path) (w : World) :
  exists W,
    extraction_only w W
    /\ forall rest errs,
        container_loop tool (c :: rest) errs w
        = match car_outcome (fs w) tool c with
          | Found b => (Ok (b, c), W)
          | Failed m => container_loop tool rest (errs ++ [m]) W
          | Aborted e => (Raise e, W)
          end.
Proof.
  unfold car_outcome, tool_outcome.
  pose (w1 := log (EvExists c) w).
  assert (Hprobe : path_exists c w = (Ok (node_exists (fs w) c), w1)) by reflexivity.
  assert (Hw1 : extraction_only w w1)
    by (apply extraction_only_log; [ reflexivity | apply extraction_only_refl ]).
  destruct (node_exists (fs w) c) eqn:Hex; cbn [negb]; cbv zeta.
  - pose (argv := car_args tool c ++ [str_iconset_dir w1 car_prefix (next_tmp w1)]).
    set (r := iconutil (car_args tool c) (fs w !! c)).
    assert (Hw2 : extraction_only w (after_run argv r w1))
      by (by apply after_run_extraction_only).
    pose proof (extract_car_spec tool c w1) as Hx. cbv zeta in Hx.
    change (fs w1) with (fs w) in Hx. fold r argv in Hx.
    exists (after_cleanup (next_tmp w1) (after_run argv r w1)). split.
    { apply extraction_only_log; [ reflexivity | ]. by apply extraction_only_set_tmp. }
    intros rest errs. cbn [container_loop].
    rewrite (bind_Ok _ _ _ _ _ Hprobe). cbn [negb].
    unfold bind at 1. unfold try at 1. rewrite Hx.
    destruct (captured r) as [[out err] | e] eqn:Hcap;
      [ | by destruct (captured_raise _ _ Hcap) as [m ->] ].
    destruct (returncode r =? 0) eqn:Hrc; [ | reflexivity ].
    unfold bind, finally. rewrite container_body_spec, after_run_entries.
    unfold cleanup, ret.
    destruct (container_check c (produced r)); reflexivity.
  - exists w1. split; [ assumption | ].
    intros rest errs. cbn [container_loop].
    rewrite (bind_Ok _ _ _ _ _ Hprobe). reflexivity.
Qed.

Lemma shape_loop_step (tool : string) (c : Path) (w : World) :
  exists W,
    extraction_only w W
    /\ forall rest errs,
        shape_loop tool (c :: rest) errs w
        = match icns_outcome (fs w) tool c with
          | Found a => (Ok (a, c), W)
          | Failed m => shape_loop tool rest (errs ++ [m]) W
          | Aborted e => (Raise e, W)
          end.
Proof.
  unfold icns_outcome, tool_outcome.
  pose (w1 := log (EvExists c) w).
  assert (Hprobe : path_exists c w = (Ok (node_exists (fs w) c), w1)) by reflexivity.
  assert (Hw1 : extraction_only w w1)
    by (apply extraction_only_log; [ reflexivity | apply extraction_only_refl ]).
  destruct (node_exists (fs w) c) eqn:Hex; cbn [negb]; cbv zeta.
  - pose (argv := icns_args tool c ++ [str_iconset_dir w1 icns_prefix (next_tmp w1)]).
    set (r := iconutil (icns_args tool c) (fs w !! c)).
    assert (Hw2 : extraction_only w (after_run argv r w1))
      by (by apply after_run_extraction_only).
    pose proof (extract_icns_spec tool c w1) as Hx. cbv zeta in Hx.
    change (fs w1) with (fs w) in Hx. fold r argv in Hx.
    exists (after_cleanup (next_tmp w1) (after_run argv r w1)). split.
    { apply extraction_only_log; [ reflexivity | ]. by apply extraction_only_set_tmp. }
    intros rest errs. cbn [shape_loop].
    rewrite (bind_Ok _ _ _ _ _ Hprobe). cbn [negb].
    unfold bind at 1. unfold try at 1. rewrite Hx.
    destruct (captured r) as [[out err] | e] eqn:Hcap;
      [ | by destruct (captured_raise _ _ Hcap) as [m ->] ].
    destruct (returncode r =? 0) eqn:Hrc; [ | reflexivity ].
    unfold bind, finally. rewrite shape_body_spec, after_run_entries.
    unfold cleanup, ret.
    destruct (shape_check c (produced r)); reflexivity.
  - exists w1. split; [ assumption | ].
    intros rest errs. cbn [shape_loop].
    rewrite (bind_Ok _ _ _ _ _ Hprobe). reflexivity.
Qed.

Lemma tool_outcome_local {A : Type} (f1 f2 : gmap Path Node) (args : list string)
    (c : Path) (check : Iconset -> Outcome A) :
  f1 !! c = f2 !! c -> tool_outcome f1 args c check = tool_outcome f2 args c check.
Proof.
  intros H. unfold tool_outcome, node_exists. rewrite H. reflexivity.
Qed.

End Candidate.

(** ** The candidate loop, in general

    Both loops try their candidates in order, thread the diagnostics and
    stop at the first candidate that is found or aborts. *)
Section Loop.

Context {A : Type}.
Variable loop : list Path -> list string -> M (A * Path).
Variable outcome : gmap Path Node -> Path -> Outcome A.
Variable header : string.

Hypothesis loop_nil : forall errs w,
  loop [] errs w = (Raise (RuntimeError (header +:+ format_errors errs)), w).

Hypothesis loop_step : forall c w,
  exists W,
    extraction_only w W
    /\ forall rest errs,
        loop (c :: rest) errs w
        = match outcome (fs w) c with
          | Found a => (Ok (a, c), W)
          | Failed m => loop rest (errs ++ [m]) W
          | Aborted e => (Raise e, W)
          end.

Hypothesis outcome_local : forall f1 f2 c,
  f1 !! c = f2 !! c -> outcome f1 c = outcome f2 c.

Lemma loop_extraction_only (cands : list Path) :
  forall errs w, extraction_only w (snd (loop cands errs w)).
Proof.
  induction cands as [ | c cands IH]; intros errs w.
  - rewrite loop_nil. apply extraction_only_refl.
  - destruct (loop_step c w) as (W & HW & Hstep). rewrite Hstep.
    destruct (outcome (fs w) c); simpl; try assumption.
    eapply extraction_only_trans; [ exact HW | apply IH ].
Qed.

Lemma loop_all_failed (cands : list Path) :
  forall msgs errs w,
    Forall2 (fun c m => outcome (fs w) c = Failed m) cands msgs ->
    exists W,
      extraction_only w W
      /\ loop cands errs w
         = (Raise (RuntimeError (header +:+ format_errors (errs ++ msgs))), W).
Proof.
  induction cands as [ | c cands IH]; intros msgs errs w Hall.
  - inversion Hall; subst. exists w. split; [ apply extraction_only_refl | ].
    rewrite loop_nil. by rewrite app_nil_r.
  - inversion Hall as [ | ? m ? msgs' Hc Hrest ]; subst.
    destruct (loop_step c w) as (W & HW & Hstep).
    destruct (IH msgs' (errs ++ [m]) W) as (W' & HW' & Hloop).
    { destruct HW as (_ & _ & _ & Hfs & _). by rewrite Hfs. }
    exists W'. split; [ by eapply extraction_only_trans | ].
    rewrite Hstep, Hc, Hloop. by rewrite <- app_assoc.
Qed.

Lemma loop_first_decisive (pre : list Path) :
  forall msgs errs w c,
    Forall2 (fun c m => outcome (fs w) c = Failed m) pre msgs ->
    exists W,
      extraction_only w W
      /\ forall post,
          loop (pre ++ c :: post) errs w
          = match outcome (fs w) c with
            | Found a => (Ok (a, c), W)
            | Failed m => loop post (errs ++ msgs ++ [m]) W
            | Aborted e => (Raise e, W)
            end.
Proof.
  induction pre as [ | p pre IH]; intros msgs errs w c Hall.
  - inversion Hall; subst. destruct (loop_step c w) as (W & HW & Hstep).
    exists W. split; [ assumption | ]. intros post. simpl. apply Hstep.
  - inversion Hall as [ | ? m ? msgs' Hp Hrest ]; subst.
    destruct (loop_step p w) as (W & HW & Hstep).
    assert (Hfs : fs W = fs w) by (by destruct HW as (_ & _ & _ & Hfs & _)).
    destruct (IH msgs' (errs ++ [m]) W c) as (W' & HW' & Hloop).
    { by rewrite Hfs. }
    exists W'. split; [ by eapply extraction_only_trans | ].
    intros post. simpl. rewrite Hstep, Hp, Hloop, Hfs.
    destruct (outcome (fs w) c); try reflexivity.
    by rewrite <- app_assoc.
Qed.

Lemma loop_agree (cands : list Path) :
  forall errs w1 w2,
    Forall (fun c => fs w1 !! c = fs w2 !! c) cands ->
    fst (loop cands errs w1) = fst (loop cands errs w2).
Proof.
  induction cands as [ | c cands IH]; intros errs w1 w2 Hall.
  - by rewrite !loop_nil.
  - inversion Hall as [ | ? ? Hc Hrest ]; subst.
    destruct (loop_step c w1) as (W1 & HW1 & Hstep1).
    destruct (loop_step c w2) as (W2 & HW2 & Hstep2).
    rewrite Hstep1, Hstep2, (outcome_local _ _ _ Hc).
    destruct (outcome (fs w2) c); try reflexivity.
    apply IH.
    destruct HW1 as (_ & _ & _ & Hf1 & _), HW2 as (_ & _ & _ & Hf2 & _).
    by rewrite Hf1, Hf2.
Qed.

End Loop.

Section CandidateLoops.
Context {imaging : Imaging} {host : Host}.

Lemma container_loop_nil (tool : string) (errs : list string) (w : World) :
  container_loop tool [] errs w
  = (Raise (RuntimeError (container_header +:+ format_errors errs)), w).
Proof. reflexivity. Qed.

Lemma shape_loop_nil (tool : string) (errs : list string) (w : World) :
  shape_loop tool [] errs w
  = (Raise (RuntimeError (shape_header +:+ format_errors errs)), w).
Proof. reflexivity. Qed.

Lemma tool_outcome_names_candidate {A : Type} (f : gmap Path Node)
    (args : list string) (c : Path) (check : Iconset -> Outcome A) (m : string) :
  (forall entries m', check entries = Failed m' ->
                      exists reason, m' = str_path c +:+ ": " +:+ reason) ->
  tool_outcome f args c check = Failed m ->
  exists reason, m = str_path c +:+ ": " +:+ reason.
Proof.
  intros Hcheck. unfold tool_outcome.
  destruct (node_exists f c); cbn [negb]; cbv zeta.
  - destruct (captured _) as [[out err] | e]; [ | discriminate ].
    destruct (returncode _ =? 0).
    + apply Hcheck.
    + intros H; inversion H; eauto.
  - intros H; inversion H. by exists "missing"%string.
Qed.

Lemma car_outcome_names_candidate (f : gmap Path Node) (tool : string)
    (c : Path) (m : string) :
  car_outcome f tool c = Failed m ->
  exists reason, m = str_path c +:+ ": " +:+ reason.
Proof.
  apply tool_outcome_names_candidate. intros entries m'.
  unfold container_check.
  destruct (entry_exists entries ICONSET_SOURCE_PNG_NAME); cbn [negb].
  - destruct (open_entry _ _); [ | discriminate ].
    destruct (rgba_of _); [ | discriminate ].
    destruct (getbbox _); [ discriminate | ].
    intros H; inversion H. by exists "extracted alpha mask is empty"%string.
  - intros H; inversion H. by exists ("missing " +:+ ICONSET_SOURCE_PNG_NAME).
Qed.

Lemma icns_outcome_names_candidate (f : gmap Path Node) (tool : string)
    (c : Path) (m : string) :
  icns_outcome f tool c = Failed m ->
  exists reason, m = str_path c +:+ ": " +:+ reason.
Proof.
  apply tool_outcome_names_candidate. intros entries m'.
  unfold shape_check.
  destruct (select_names _ _ _ _).
  - destruct (open_entry _ _); [ | discriminate ].
    destruct (rgba_of _); [ | discriminate ].
    destruct (getbbox _); [ discriminate | ].
    intros H; inversion H. by exists "extracted alpha mask is empty"%string.
  - intros H; inversion H. by exists "no PNG images in extracted iconset"%string.
Qed.

(** The generic loop lemmas, at the two loops of the script. *)

Lemma container_all_failed (tool : string) (cands : list Path) (msgs errs : list string)
    (w : World) :
  Forall2 (fun c m => car_outcome (fs w) tool c = Failed m) cands msgs ->
  exists W,
    extraction_only w W
    /\ container_loop tool cands errs w
       = (Raise (RuntimeError (container_header +:+ format_errors (errs ++ msgs))), W).
Proof.
  apply (loop_all_failed (container_loop tool) (fun f c => car_outcome f tool c)
           container_header (container_loop_nil tool) (container_loop_step tool)).
Qed.

Lemma shape_all_failed (tool : string) (cands : list Path) (msgs errs : list string)
    (w : World) :
  Forall2 (fun c m => icns_outcome (fs w) tool c = Failed m) cands msgs ->
  exists W,
    extraction_only w W
    /\ shape_loop tool cands errs w
       = (Raise (RuntimeError (shape_header +:+ format_errors (errs ++ msgs))), W).
Proof.
  apply (loop_all_failed (shape_loop tool) (fun f c => icns_outcome f tool c)
           shape_header (shape_loop_nil tool) (shape_loop_step tool)).
Qed.

Lemma container_first_decisive (tool : string) (pre : list Path)
    (msgs errs : list string) (w : World) (c : Path) :
  Forall2 (fun c m => car_outcome (fs w) tool c = Failed m) pre msgs ->
  exists W,
    extraction_only w W
    /\ forall post,
        container_loop tool (pre ++ c :: post) errs w
        = match car_outcome (fs w) tool c with
          | Found a => (Ok (a, c), W)
          | Failed m => container_loop tool post (errs ++ msgs ++ [m]) W
          | Aborted e => (Raise e, W)
          end.
Proof.
  apply (loop_first_decisive (container_loop tool) (fun f c => car_outcome f tool c)
           (container_loop_step tool)).
Qed.

Lemma shape_first_decisive (tool : string) (pre : list Path)
    (msgs errs : list string) (w : World) (c : Path) :
  Forall2 (fun c m => icns_outcome (fs w) tool c = Failed m) pre msgs ->
  exists W,
    extraction_only w W
    /\ forall post,
        shape_loop tool (pre ++ c :: post) errs w
        = match icns_outcome (fs w) tool c with
          | Found a => (Ok (a, c), W)
          | Failed m => shape_loop tool post (errs ++ msgs ++ [m]) W
          | Aborted e => (Raise e, W)
          end.
Proof.
  apply (loop_first_decisive (shape_loop tool) (fun f c => icns_outcome f tool c)
           (shape_loop_step tool)).
Qed.

Lemma container_extraction_only (tool : string) (cands : list Path)
    (errs : list string) (w : World) :
  extraction_only w (snd (container_loop tool cands errs w)).
Proof.
  apply (loop_extraction_only (container_loop tool) (fun f c => car_outcome f tool c)
           container_header (container_loop_nil tool) (container_loop_step tool)).
Qed.

Lemma shape_extraction_only (tool : string) (cands : list Path)
    (errs : list string) (w : World) :
  extraction_only w (snd (shape_loop tool cands errs w)).
Proof.
  apply (loop_extraction_only (shape_loop tool) (fun f c => icns_outcome f tool c)
           shape_header (shape_loop_nil tool) (shape_loop_step tool)).
Qed.


End CandidateLoops.

(** ** Directories and files *)

(** Two paths below [ROOT_DIR] with different tails are different. *)
Ltac path_neq :=
  let H := fresh "H" in
  intros H; apply app_inv_head in H; discriminate H.

(** The same, for a path that is one of a list of such paths. *)
Ltac path_not_in :=
  let H := fresh "H" in
  simpl; intros H;
  repeat (destruct H as [H | H]; [ apply app_inv_head in H; discriminate H | ]);
  destruct H.

Lemma ancestors_and_self_prefix (p q : Path) :
  In q (ancestors_and_self p) -> q `prefix_of` p.
Proof.
  unfold ancestors_and_self. rewrite in_map_iff.
  intros (n & <- & _). exists (drop n p). by rewrite take_drop.
Qed.

Lemma make_dirs_frame (ps : list Path) :
  forall f f' q, make_dirs ps f = Ok f' -> ~ In q ps -> f' !! q = f !! q.
Proof.
  induction ps as [ | p ps IH]; intros f f' q Hmk Hq; simpl in Hmk.
  - by inversion Hmk.
  - assert (Hne : p <> q) by (intros ->; apply Hq; by left).
    assert (Hq' : ~ In q ps) by (intros Hin; apply Hq; by right).
    destruct (f !! p) as [[b | ] | ] eqn:Hp; [ discriminate | by apply IH | ].
    rewrite (IH _ _ _ Hmk Hq'). by apply lookup_insert_ne.
Qed.

Lemma make_dirs_keeps (ps : list Path) :
  forall f f' q n, make_dirs ps f = Ok f' -> f !! q = Some n -> f' !! q = Some n.
Proof.
  induction ps as [ | p ps IH]; intros f f' q n Hmk Hq; simpl in Hmk.
  - inversion Hmk; by subst.
  - destruct (f !! p) as [[b | ] | ] eqn:Hp; [ discriminate | by eapply IH | ].
    eapply IH; [ exact Hmk | ].
    rewrite lookup_insert_ne; [ assumption | ]. intros ->. congruence.
Qed.

Lemma make_dirs_raises (ps : list Path) :
  forall f e, make_dirs ps f = Raise e -> exists m, e = OSError m.
Proof.
  induction ps as [ | p ps IH]; intros f e Hmk; simpl in Hmk; [ discriminate | ].
  destruct (f !! p) as [[b | ] | ]; [ inversion Hmk; eauto | by eapply IH | by eapply IH ].
Qed.

Lemma make_dirs_made (ps : list Path) :
  forall f f' q, make_dirs ps f = Ok f' -> In q ps -> f' !! q = Some Dir.
Proof.
  induction ps as [ | p ps IH]; intros f f' q Hmk Hq; simpl in Hmk; [ destruct Hq | ].
  destruct (f !! p) as [[b | ] | ] eqn:Hp; [ discriminate | | ].
  - destruct Hq as [<- | Hq]; [ by eapply make_dirs_keeps | by eapply IH ].
  - destruct Hq as [<- | Hq]; [ | by eapply IH ].
    eapply make_dirs_keeps; [ exact Hmk | apply lookup_insert_eq ].
Qed.

Lemma write_file_Ok (p : Path) (b : bytes) (f f' : gmap Path Node) :
  write_file p b f = Ok f' -> f' = <[p := File b]> f.
Proof.
  unfold write_file. destruct (_ || _); [ discriminate | ].
  destruct (f !! p) as [[? | ] | ]; intros H; by inversion H.
Qed.

Lemma write_file_raises (p : Path) (b : bytes) (f : gmap Path Node) (e : Exn) :
  write_file p b f = Raise e -> exists m, e = OSError m.
Proof.
  unfold write_file. destruct (_ || _); [ intros H; inversion H; eauto | ].
  destruct (f !! p) as [[? | ] | ]; intros H; inversion H; eauto.
Qed.

(** What each primitive can do. *)

Lemma mkdir_parents_cases (p : Path) (w : World) :
  (exists f, make_dirs (ancestors_and_self p) (fs w) = Ok f
             /\ mkdir_parents p w = (Ok tt, set_fs f (log (EvMkdir p) w)))
  \/ (exists m, mkdir_parents p w = (Raise (OSError m), log (EvMkdir p) w)).
Proof.
  unfold mkdir_parents.
  destruct (make_dirs _ _) as [f | e] eqn:Hmk.
  - left. eauto.
  - right. destruct (make_dirs_raises _ _ _ Hmk) as [m ->]. eauto.
Qed.

Lemma copyfile_cases (src dst : Path) (w : World) :
  (exists b, src <> dst /\ fs w !! src = Some (File b)
             /\ copyfile src dst w
                = (Ok tt, set_fs (<[dst := File b]> (fs w)) (log (EvCopy src dst) w)))
  \/ (exists m, copyfile src dst w = (Raise (OSError m), log (EvCopy src dst) w)).
Proof.
  unfold copyfile, path_eqb. case_bool_decide as Heq; [ right; eauto | ].
  unfold read_file. destruct (fs w !! src) as [[b | ] | ] eqn:Hsrc; [ | right; eauto .. ].
  destruct (write_file dst b (fs w)) as [f | e] eqn:Hwr.
  - left. exists b. rewrite (write_file_Ok _ _ _ _ Hwr). eauto.
  - right. destruct (write_file_raises _ _ _ _ Hwr) as [m ->]. eauto.
Qed.

Lemma save_bytes_cases (p : Path) (fmt : string) (b : bytes) (w : World) :
  save_bytes p fmt b w = (Ok tt, set_fs (<[p := File b]> (fs w)) (log (EvSave p fmt) w))
  \/ (exists m, save_bytes p fmt b w = (Raise (OSError m), log (EvSave p fmt) w)).
Proof.
  unfold save_bytes.
  destruct (write_file p b (fs w)) as [f | e] eqn:Hwr.
  - left. by rewrite (write_file_Ok _ _ _ _ Hwr).
  - right. destruct (write_file_raises _ _ _ _ Hwr) as [m ->]. eauto.
Qed.

Section Opening.
Context {imaging : Imaging} {host : Host}.

Lemma Image_open_cases (p : Path) (w : World) :
  (exists b file, fs w !! p = Some (File b) /\ image_open b = Some file
                  /\ Image_open p w = (Ok file, log (EvOpen p) w))
  \/ (exists m, Image_open p w = (Raise (OSError m), log (EvOpen p) w)).
Proof.
  unfold Image_open, read_file, decode.
  destruct (fs w !! p) as [[b | ] | ]; [ | right; eauto .. ].
  destruct (image_open b) as [file | ] eqn:Hopen; [ left; eauto | right; eauto ].
Qed.

Lemma convert_RGBA_cases (file : ImageFile) (w : World) :
  (exists im, file_rgba file = Some im /\ convert_RGBA file w = (Ok im, w))
  \/ (exists m, convert_RGBA file w = (Raise (OSError m), w)).
Proof.
  unfold convert_RGBA, lift, rgba_of.
  destruct (file_rgba file); [ left; eauto | right; eauto ].
Qed.

End Opening.

(** ** Before the mask stage: directories, copies, the master image *)

Section Prologue.
Context {imaging : Imaging} {host : Host}.

Lemma build_icons_from_source_split (p : Path) (w : World) :
  build_icons_from_source p w
  = bind (build_icons_prologue p)
         (fun source => bind load_macos_standard_mask (build_icons_epilogue source)) w.
Proof.
  unfold build_icons_from_source, build_icons_prologue, build_icons_epilogue, bind.
  destruct (mkdir_parents _ w) as [[[] | ?] w1]; [ | reflexivity ].
  destruct (mkdir_parents _ w1) as [[[] | ?] w2]; [ | reflexivity ].
  destruct (copyfile _ _ w2) as [[[] | ?] w3]; [ | reflexivity ].
  destruct (copyfile _ _ w3) as [[[] | ?] w4]; [ | reflexivity ].
  destruct (Image_open _ w4) as [[opened | ?] w5]; [ | reflexivity ].
  destruct (convert_RGBA opened w5) as [[source | ?] w6]; [ | reflexivity ].
  destruct (load_macos_standard_mask w6) as [[[[mask cs] rs] | ?] w7]; reflexivity.
Qed.

(** The paths. *)

Lemma parent_renderer :
  parent RENDERER_ICON_PATH = ROOT_DIR ++ ["src"; "renderer"; "public"; "branding"]%string.
Proof. unfold parent, RENDERER_ICON_PATH. by rewrite removelast_app. Qed.

Lemma parent_desktop :
  parent DESKTOP_ICON_PNG_PATH = ROOT_DIR ++ ["public"; "branding"]%string.
Proof. unfold parent, DESKTOP_ICON_PNG_PATH. by rewrite removelast_app. Qed.

Lemma not_made_by_mkdir (tail : list string) (q : Path) :
  q = ROOT_DIR ++ tail ->
  ~ tail `prefix_of` ["src"; "renderer"; "public"; "branding"]%string ->
  ~ tail `prefix_of` ["public"; "branding"]%string ->
  ~ In q (ancestors_and_self (parent RENDERER_ICON_PATH))
  /\ ~ In q (ancestors_and_self (parent DESKTOP_ICON_PNG_PATH)).
Proof.
  intros -> H1 H2. rewrite parent_renderer, parent_desktop.
  split; intros Hin%ancestors_and_self_prefix; [ apply H1 | apply H2 ];
    by eapply prefix_app_inv.
Qed.

Lemma output_is_file (q : Path) :
  In q OUTPUT_PATHS ->
  ~ In q (ancestors_and_self (parent RENDERER_ICON_PATH))
  /\ ~ In q (ancestors_and_self (parent DESKTOP_ICON_PNG_PATH)).
Proof.
  intros Hq. simpl in Hq.
  destruct Hq as [<- | [<- | [<- | [<- | [<- | []]]]]];
    (eapply not_made_by_mkdir; [ reflexivity | | ]);
    intros [k Hk]; discriminate Hk.
Qed.

Lemma outputs_distinct : NoDup OUTPUT_PATHS.
Proof.
  unfold OUTPUT_PATHS, RENDERER_ICON_PATH, DESKTOP_SOURCE_COPY_PATH,
    DESKTOP_ICON_PNG_PATH, DESKTOP_ICON_ICO_PATH, DESKTOP_ICON_ICNS_PATH.
  repeat constructor; rewrite ?not_elem_of_cons; repeat split;
    try (path_neq); by apply not_elem_of_nil.
Qed.

Lemma prologue_only_refl (w : World) : prologue_only w w.
Proof.
  repeat split; try done. exists []. split; [ by rewrite app_nil_r | constructor ].
Qed.

Lemma prologue_only_log (e : Event) (w W : World) :
  is_prologue e = true -> prologue_only w W -> prologue_only w (log e W).
Proof.
  intros He (Hp & Hw & Ht & Hn & (evs & Hev & Hall) & Hfr & Hkeep).
  repeat split; try done.
  exists (evs ++ [e]). split.
  - simpl. rewrite Hev. by rewrite app_assoc.
  - apply Forall_app. split; [ assumption | by constructor ].
Qed.

Lemma prologue_only_mkdir (p : Path) (f : gmap Path Node) (w W : World) :
  p = parent RENDERER_ICON_PATH \/ p = parent DESKTOP_ICON_PNG_PATH ->
  make_dirs (ancestors_and_self p) (fs W) = Ok f ->
  prologue_only w W -> prologue_only w (set_fs f W).
Proof.
  intros Hp Hmk (Hpl & Hw & Ht & Hn & Hev & Hfr & Hkeep).
  repeat split; try done.
  - intros q H1 H2 H3 H4. simpl. rewrite <- (Hfr q H1 H2 H3 H4).
    eapply make_dirs_frame; [ exact Hmk | ]. by destruct Hp as [-> | ->].
  - intros q n Hq H3 H4. simpl.
    eapply make_dirs_keeps; [ exact Hmk | ]. by apply Hkeep.
Qed.

Lemma prologue_only_copy (dst : Path) (b : bytes) (w W : World) :
  dst = RENDERER_ICON_PATH \/ dst = DESKTOP_SOURCE_COPY_PATH ->
  prologue_only w W -> prologue_only w (set_fs (<[dst := File b]> (fs W)) W).
Proof.
  intros Hdst (Hpl & Hw & Ht & Hn & Hev & Hfr & Hkeep).
  repeat split; try done.
  - intros q H1 H2 H3 H4. simpl. rewrite <- (Hfr q H1 H2 H3 H4).
    apply lookup_insert_ne. by destruct Hdst as [-> | ->].
  - intros q n Hq H3 H4. simpl. rewrite lookup_insert_ne.
    + by apply Hkeep.
    + by destruct Hdst as [-> | ->].
Qed.

Lemma renderer_is_not_copy : RENDERER_ICON_PATH <> DESKTOP_SOURCE_COPY_PATH.
Proof. path_neq. Qed.

(** A step of the prologue raised: the prologue stops there. *)
Ltac prologue_stops :=
  eexists _, _; split; [ reflexivity | ];
  split; [ by apply prologue_only_log | eauto ].

Lemma prologue_run (p : Path) (w : World) :
  exists r W,
    build_icons_prologue p w = (r, W)
    /\ prologue_only w W
    /\ match r with
       | Ok source =>
           exists b file,
             fs w !! p = Some (File b)
             /\ image_open b = Some file
             /\ file_rgba file = Some source
             /\ fs W !! RENDERER_ICON_PATH = Some (File b)
             /\ fs W !! DESKTOP_SOURCE_COPY_PATH = Some (File b)
             /\ events W = events w ++ prologue_events p
             /\ (forall q,
                    In q (ancestors_and_self (parent RENDERER_ICON_PATH)
                            ++ ancestors_and_self (parent DESKTOP_ICON_PNG_PATH)) ->
                    fs W !! q = Some Dir)
       | Raise e => exists m, e = OSError m
       end.
Proof.
  unfold build_icons_prologue.
  pose proof (prologue_only_refl w) as H0.
  (* the first directory *)
  destruct (mkdir_parents_cases (parent RENDERER_ICON_PATH) w)
    as [(f1 & Hf1 & E1) | (m & E1)];
    [ rewrite (bind_Ok _ _ _ _ _ E1) | rewrite (bind_Raise _ _ _ _ _ E1) ].
  2: prologue_stops.
  set (w1 := set_fs f1 (log (EvMkdir (parent RENDERER_ICON_PATH)) w)).
  assert (H1 : prologue_only w w1).
  { eapply prologue_only_mkdir; [ by left | exact Hf1 | by apply prologue_only_log ]. }
  (* the second directory *)
  destruct (mkdir_parents_cases (parent DESKTOP_ICON_PNG_PATH) w1)
    as [(f2 & Hf2 & E2) | (m & E2)];
    [ rewrite (bind_Ok _ _ _ _ _ E2) | rewrite (bind_Raise _ _ _ _ _ E2) ].
  2: prologue_stops.
  set (w2 := set_fs f2 (log (EvMkdir (parent DESKTOP_ICON_PNG_PATH)) w1)).
  assert (H2 : prologue_only w w2).
  { eapply prologue_only_mkdir; [ by right | exact Hf2 | by apply prologue_only_log ]. }
  (* the first copy *)
  destruct (copyfile_cases p RENDERER_ICON_PATH w2)
    as [(b & Hne1 & Hb & E3) | (m & E3)];
    [ rewrite (bind_Ok _ _ _ _ _ E3) | rewrite (bind_Raise _ _ _ _ _ E3) ].
  2: prologue_stops.
  set (w3 := set_fs (<[RENDERER_ICON_PATH := File b]> (fs w2))
                    (log (EvCopy p RENDERER_ICON_PATH) w2)).
  assert (H3 : prologue_only w w3).
  { apply (prologue_only_copy RENDERER_ICON_PATH b w
             (log (EvCopy p RENDERER_ICON_PATH) w2)); [ by left | ].
    by apply prologue_only_log. }
  (* the second copy *)
  destruct (copyfile_cases p DESKTOP_SOURCE_COPY_PATH w3)
    as [(b' & Hne2 & Hb' & E4) | (m & E4)];
    [ rewrite (bind_Ok _ _ _ _ _ E4) | rewrite (bind_Raise _ _ _ _ _ E4) ].
  2: prologue_stops.
  assert (b' = b) as ->.
  { simpl in Hb'. rewrite lookup_insert_ne in Hb' by done. simpl in Hb. congruence. }
  set (w4 := set_fs (<[DESKTOP_SOURCE_COPY_PATH := File b]> (fs w3))
                    (log (EvCopy p DESKTOP_SOURCE_COPY_PATH) w3)).
  assert (H4 : prologue_only w w4).
  { apply (prologue_only_copy DESKTOP_SOURCE_COPY_PATH b w
             (log (EvCopy p DESKTOP_SOURCE_COPY_PATH) w3)); [ by right | ].
    by apply prologue_only_log. }
  (* the master image *)
  destruct (Image_open_cases p w4)
    as [(b'' & file & Hb'' & Hfile & E5) | (m & E5)];
    [ rewrite (bind_Ok _ _ _ _ _ E5) | rewrite (bind_Raise _ _ _ _ _ E5) ].
  2: prologue_stops.
  assert (b'' = b) as ->.
  { simpl in Hb''. rewrite !lookup_insert_ne in Hb'' by done. simpl in Hb. congruence. }
  set (w5 := log (EvOpen p) w4).
  assert (H5 : prologue_only w w5) by (by apply prologue_only_log).
  destruct (convert_RGBA_cases file w5) as [(source & Hsrc & E6) | (m & E6)];
    rewrite E6; eexists _, _; (split; [ reflexivity | ]); (split; [ assumption | ]);
    [ | eauto ].
  exists b, file.
  assert (Hw : fs w !! p = Some (File b)).
  { simpl in Hb.
    destruct (fs w !! p) as [n | ] eqn:Hp.
    - destruct H2 as (_ & _ & _ & _ & _ & _ & Hkeep).
      pose proof (Hkeep p n Hp Hne1 Hne2) as Hk. simpl in Hk. congruence.
    - exfalso.
      assert (Hdir : f2 !! p = Some Dir -> False) by (intros Hd; congruence).
      destruct (decide (p ∈ ancestors_and_self (parent DESKTOP_ICON_PNG_PATH)))
        as [Hin%list_elem_of_In | Hnin]; [ | rewrite list_elem_of_In in Hnin ].
      + apply Hdir. eapply make_dirs_made; eauto.
      + rewrite (make_dirs_frame _ _ _ _ Hf2 Hnin) in Hb. simpl in Hb.
        destruct (decide (p ∈ ancestors_and_self (parent RENDERER_ICON_PATH)))
          as [Hin'%list_elem_of_In | Hnin']; [ | rewrite list_elem_of_In in Hnin' ].
        * rewrite (make_dirs_made _ _ _ _ Hf1 Hin') in Hb. discriminate.
        * rewrite (make_dirs_frame _ _ _ _ Hf1 Hnin') in Hb. congruence. }
  repeat split; try assumption.
  - simpl. rewrite lookup_insert_ne by (apply not_eq_sym, renderer_is_not_copy).
    apply lookup_insert_eq.
  - simpl. apply lookup_insert_eq.
  - simpl. unfold prologue_events. by rewrite <- !app_assoc.
  - intros q Hq. simpl.
    assert (Hout : forall o, In o OUTPUT_PATHS -> q <> o).
    { intros o Ho ->. destruct (output_is_file _ Ho) as [Ha Hb0].
      apply in_app_or in Hq. tauto. }
    rewrite !lookup_insert_ne
      by (apply not_eq_sym, Hout; simpl; tauto).
    apply in_app_or in Hq. destruct Hq as [Hq | Hq].
    + eapply make_dirs_keeps; [ exact Hf2 | ]. eapply make_dirs_made; eauto.
    + eapply make_dirs_made; eauto.
Qed.

End Prologue.

(** ** The mask stage and what follows it *)

Section MaskStage.
Context {imaging : Imaging} {host : Host}.

Lemma load_macos_standard_mask_extraction_only (w : World) :
  extraction_only w (snd (load_macos_standard_mask w)).
Proof.
  unfold load_macos_standard_mask, bind, get_world, raise, lift, ret.
  destruct (negb _); [ apply extraction_only_refl | ].
  destruct (which_iconutil w) as [tool | ]; [ | apply extraction_only_refl ].
  pose proof (container_extraction_only tool MACOS_ICON_CAR_CANDIDATES [] w) as H1.
  unfold load_macos_container_bbox.
  destruct (container_loop tool MACOS_ICON_CAR_CANDIDATES [] w)
    as [[[bbox cs] | e] w1]; [ | exact H1 ].
  pose proof (shape_extraction_only tool MACOS_ICON_ICNS_CANDIDATES [] w1) as H2.
  unfold load_macos_rounded_shape_mask.
  destruct (shape_loop tool MACOS_ICON_ICNS_CANDIDATES [] w1)
    as [[[alpha rs] | e] w2]; simpl in *; [ | by eapply extraction_only_trans ].
  destruct (reshape_mask_to_bbox alpha bbox); by eapply extraction_only_trans.
Qed.

Lemma load_macos_standard_mask_off_macos (w : World) :
  platform w <> "darwin"%string ->
  load_macos_standard_mask w = (Raise (RuntimeError requires_macos), w).
Proof.
  intros Hp. unfold load_macos_standard_mask, bind, get_world.
  apply String.eqb_neq in Hp. by rewrite Hp.
Qed.

Lemma build_desktop_icon_with_mask_raises (source : Image RGBA) (mask : Image Z)
    (e : Exn) :
  build_desktop_icon_with_mask source mask = Raise e -> is_RuntimeError e = false.
Proof.
  unfold build_desktop_icon_with_mask, paste_masked.
  destruct (negb _); intros H; by inversion H.
Qed.

Lemma epilogue_run (source : Image RGBA) (mask : Image Z) (cs rs : Path) (w : World) :
  exists r W,
    build_icons_epilogue source (mask, cs, rs) w = (r, W)
    /\ match r with
       | Ok v =>
           v = (cs, rs)
           /\ exists icon,
               build_desktop_icon_with_mask source mask = Ok icon
               /\ fs W = with_icons icon (fs w)
               /\ events W = events w ++ save_events
               /\ platform W = platform w
               /\ which_iconutil W = which_iconutil w
       | Raise e => is_RuntimeError e = false
       end.
Proof.
  unfold build_icons_epilogue.
  destruct (build_desktop_icon_with_mask source mask) as [icon | e] eqn:Hicon.
  2: { rewrite (bind_Raise _ _ w e w) by reflexivity.
       eexists _, _. split; [ reflexivity | ].
       by eapply build_desktop_icon_with_mask_raises. }
  rewrite (bind_Ok _ _ w icon w) by reflexivity.
  destruct (save_bytes_cases DESKTOP_ICON_PNG_PATH "PNG" (encode_png icon) w)
    as [E1 | (m & E1)];
    [ rewrite (bind_Ok _ _ _ _ _ E1) | rewrite (bind_Raise _ _ _ _ _ E1);
      by (eexists _, _; split; [ reflexivity | reflexivity ]) ].
  match goal with |- context [ bind _ _ ?w1 ] => set (W1 := w1) end.
  destruct (save_bytes_cases DESKTOP_ICON_ICO_PATH "ICO" (encode_ico icon ICO_SIZES) W1)
    as [E2 | (m & E2)];
    [ rewrite (bind_Ok _ _ _ _ _ E2) | rewrite (bind_Raise _ _ _ _ _ E2);
      by (eexists _, _; split; [ reflexivity | reflexivity ]) ].
  match goal with |- context [ bind _ _ ?w2 ] => set (W2 := w2) end.
  destruct (save_bytes_cases DESKTOP_ICON_ICNS_PATH "ICNS" (encode_icns icon) W2)
    as [E3 | (m & E3)];
    [ rewrite (bind_Ok _ _ _ _ _ E3) | rewrite (bind_Raise _ _ _ _ _ E3);
      by (eexists _, _; split; [ reflexivity | reflexivity ]) ].
  eexists _, _. split; [ reflexivity | ]. split; [ reflexivity | ].
  exists icon. repeat split. simpl. unfold save_events. by rewrite <- !app_assoc.
Qed.

Lemma composited_untouched (w W : World) :
  prologue_only w W ->
  Forall (fun q => fs W !! q = fs w !! q) COMPOSITED_PATHS.
Proof.
  intros (_ & _ & _ & _ & _ & Hfr & _).
  apply List.Forall_forall. intros q Hq.
  assert (Hout : In q OUTPUT_PATHS) by (simpl in Hq |- *; tauto).
  destruct (output_is_file q Hout) as [H1 H2].
  apply Hfr; try assumption; intros ->; simpl in Hq;
    destruct Hq as [H3 | [H3 | [H3 | []]]]; apply app_inv_head in H3; discriminate.
Qed.

(** A run that ends in a [RuntimeError] ended in the mask extraction. *)
Lemma build_icons_RuntimeError (p : Path) (w w' : World) (m : string) :
  build_icons_from_source p w = (Raise (RuntimeError m), w') ->
  exists b evs,
    fs w !! p = Some (File b)
    /\ fs w' !! RENDERER_ICON_PATH = Some (File b)
    /\ fs w' !! DESKTOP_SOURCE_COPY_PATH = Some (File b)
    /\ Forall (fun q => fs w' !! q = fs w !! q) COMPOSITED_PATHS
    /\ events w' = events w ++ prologue_events p ++ evs
    /\ Forall (fun e => is_extraction e = true) evs.
Proof.
  rewrite build_icons_from_source_split.
  destruct (prologue_run p w) as (r & w1 & Epro & Hpro & Hr).
  destruct r as [source | e].
  2: { rewrite (bind_Raise _ _ _ _ _ Epro). destruct Hr as [m' ->]. discriminate. }
  rewrite (bind_Ok _ _ _ _ _ Epro).
  destruct Hr as (b & file & Hb & Hfile & Hsrc & Hren & Hcopy & Hev & Hdirs).
  pose proof (load_macos_standard_mask_extraction_only w1) as Hmask.
  destruct (load_macos_standard_mask w1) as [[[[mask cs] rs] | e] w2] eqn:Emask;
    simpl in Hmask.
  - rewrite (bind_Ok _ _ _ _ _ Emask).
    destruct (epilogue_run source mask cs rs w2) as (r & W & Eepi & Hepi).
    rewrite Eepi. intros H; inversion H; subst. discriminate Hepi.
  - rewrite (bind_Raise _ _ _ _ _ Emask). intros H; inversion H; subst.
    destruct Hmask as (_ & _ & _ & Hfs & _ & evs & Hevs & Hq).
    exists b, evs. rewrite Hfs. repeat split; try assumption.
    + by apply composited_untouched.
    + rewrite Hevs, Hev. by rewrite <- app_assoc.
Qed.

End MaskStage.

(** ** Whole runs *)

Section Runs.
Context {imaging : Imaging} {host : Host}.

(** A run that returns went through every stage. *)
Lemma build_icons_success (p : Path) (w w' : World) (v : Path * Path) :
  build_icons_from_source p w = (Ok v, w') ->
  exists b file source w1 w2 mask icon,
    fs w !! p = Some (File b)
    /\ image_open b = Some file
    /\ file_rgba file = Some source
    /\ prologue_only w w1
    /\ fs w1 !! RENDERER_ICON_PATH = Some (File b)
    /\ fs w1 !! DESKTOP_SOURCE_COPY_PATH = Some (File b)
    /\ (forall q,
           In q (ancestors_and_self (parent RENDERER_ICON_PATH)
                   ++ ancestors_and_self (parent DESKTOP_ICON_PNG_PATH)) ->
           fs w1 !! q = Some Dir)
    /\ load_macos_standard_mask w1 = (Ok (mask, fst v, snd v), w2)
    /\ build_desktop_icon_with_mask source mask = Ok icon
    /\ fs w' = with_icons icon (fs w1)
    /\ events w' = events w2 ++ save_events
    /\ platform w' = platform w
    /\ which_iconutil w' = which_iconutil w.
Proof.
  rewrite build_icons_from_source_split.
  destruct (prologue_run p w) as (r & w1 & Epro & Hpro & Hr).
  destruct r as [source | e].
  2: { rewrite (bind_Raise _ _ _ _ _ Epro). discriminate. }
  rewrite (bind_Ok _ _ _ _ _ Epro).
  destruct Hr as (b & file & Hb & Hfile & Hsrc & Hren & Hcopy & Hev & Hdirs).
  pose proof (load_macos_standard_mask_extraction_only w1) as Hmask.
  destruct (load_macos_standard_mask w1) as [[[[mask cs] rs] | e] w2] eqn:Emask;
    simpl in Hmask.
  2: { rewrite (bind_Raise _ _ _ _ _ Emask). discriminate. }
  rewrite (bind_Ok _ _ _ _ _ Emask).
  destruct (epilogue_run source mask cs rs w2) as (r & W & Eepi & Hepi).
  rewrite Eepi. intros H; inversion H; subst.
  destruct Hepi as (-> & icon & Hicon & Hfs & Hevs & Hpl & Hwh).
  destruct Hmask as (Hpl2 & Hwh2 & _ & Hfs2 & _).
  rewrite Hfs2 in Hfs.
  assert (Hpl1 : platform w1 = platform w) by (by destruct Hpro as (? & _)).
  assert (Hwh1 : which_iconutil w1 = which_iconutil w) by (by destruct Hpro as (_ & ? & _)).
  rewrite Hpl2, Hpl1 in Hpl. rewrite Hwh2, Hwh1 in Hwh.
  exists b, file, source, w1, w2, mask, icon.
  repeat (split; [ assumption | ]). assumption.
Qed.

Lemma main_cases (w : World) :
  (node_exists (fs w) SOURCE_ICON_PATH = false
   /\ main w = (Raise (SystemExit ("[branding] source icon missing: "
                                     +:+ str_path SOURCE_ICON_PATH)),
                log (EvExists SOURCE_ICON_PATH) w))
  \/ (node_exists (fs w) SOURCE_ICON_PATH = true
      /\ exists r W,
          build_icons_from_source SOURCE_ICON_PATH (at_build w) = (r, W)
          /\ match r with
             | Ok _ => exists W', main w = (Ok tt, W')
                                  /\ fs W' = fs W /\ events W' = events W
                                  /\ platform W' = platform W
                                  /\ which_iconutil W' = which_iconutil W
             | Raise e => main w = (Raise e, W)
             end).
Proof.
  unfold main.
  assert (Hprobe : path_exists SOURCE_ICON_PATH w
                   = (Ok (node_exists (fs w) SOURCE_ICON_PATH),
                      log (EvExists SOURCE_ICON_PATH) w)) by reflexivity.
  rewrite (bind_Ok _ _ _ _ _ Hprobe).
  destruct (node_exists (fs w) SOURCE_ICON_PATH); cbn [negb]; [ right | left; done ].
  split; [ reflexivity | ].
  rewrite (bind_Ok (print _) _ _ tt (at_build w)) by reflexivity.
  destruct (build_icons_from_source SOURCE_ICON_PATH (at_build w))
    as [[[cs rs] | e] W] eqn:Ebuild.
  - exists (Ok (cs, rs)), W. split; [ reflexivity | ].
    rewrite (bind_Ok _ _ _ _ _ Ebuild).
    unfold bind, print. eexists. split; [ reflexivity | ]. repeat split; reflexivity.
  - exists (Raise e), W. split; [ reflexivity | ].
    by rewrite (bind_Raise _ _ _ _ _ Ebuild).
Qed.

End Runs.

(** ** Reshape, compositing, copies, platform *)

Section Claims.
Context {imaging : Imaging} {host : Host}.

Lemma getpixel_in_range {P : Type} (im : Image P) (x y : Z) (v : P) :
  0 <= x < Z.of_N (width im) -> 0 <= y < Z.of_N (height im) ->
  getpixel im x y = Ok v -> px im x y = v.
Proof.
  intros Hx Hy. unfold getpixel.
  destruct (x <? 0) eqn:Ex; [ lia | ]. destruct (y <? 0) eqn:Ey; [ lia | ].
  destruct (_ || _); intros H; by inversion H.
Qed.

(** C1, amended.  A mask that [reshape_mask_to_bbox] returns is a full
    canvas whose pixel at the top-left corner [(target_x0, target_y0)] of
    the target box is 0: [getpixel] there gives 0, and for a corner inside
    the canvas that is the pixel itself.  If the pixel of the pasted mask
    there is not 0, the function raises the corner error instead of
    returning.  In a run that ends with that error none of the three
    composited files (PNG, ICO, ICNS) has been written: no save has
    happened and their content is what it was.  (The two copies of the
    master file have been written by then.) *)
Theorem reshape_corner_transparent_or_raises :
  (forall (alpha m : Image Z) (x0 y0 x1 y1 : Z),
      reshape_mask_to_bbox alpha (x0, y0, x1, y1) = Ok m ->
      getpixel m x0 y0 = Ok 0
      /\ size m = (ICON_CANVAS_SIZE, ICON_CANVAS_SIZE)
      /\ (0 <= x0 < 1024 -> 0 <= y0 < 1024 -> px m x0 y0 = 0))
  /\ (forall (alpha : Image Z) (sb : BBox) (x0 y0 x1 y1 v : Z),
      getbbox alpha = Some sb ->
      0 < x1 - x0 -> 0 < y1 - y0 ->
      getpixel (pasted_shape alpha sb (x0, y0, x1, y1)) x0 y0 = Ok v ->
      v <> 0 ->
      reshape_mask_to_bbox alpha (x0, y0, x1, y1)
      = Raise (RuntimeError corner_not_transparent))
  /\ (forall (p : Path) (w w' : World),
      build_icons_from_source p w
      = (Raise (RuntimeError corner_not_transparent), w') ->
      Forall (fun q => fs w' !! q = fs w !! q) COMPOSITED_PATHS
      /\ exists evs, events w' = events w ++ evs
                     /\ Forall (fun e => is_save e = false) evs).
Proof.
  split; [ | split ].
  - intros alpha m x0 y0 x1 y1. unfold reshape_mask_to_bbox.
    destruct (getbbox alpha) as [sb | ]; [ | discriminate ].
    destruct (_ || _); [ discriminate | ].
    destruct (getpixel _ x0 y0) as [v | e] eqn:Hpix; [ | discriminate ].
    destruct (v =? 0) eqn:Hv; [ | discriminate ]. cbn [negb].
    intros H; inversion H; subst m. apply Z.eqb_eq in Hv. subst v.
    split; [ assumption | ]. split; [ reflexivity | ].
    intros Hx Hy. by apply getpixel_in_range in Hpix.
  - intros alpha sb x0 y0 x1 y1 v Hbb Hw Hh Hpix Hv. unfold reshape_mask_to_bbox.
    rewrite Hbb.
    destruct (x1 - x0 <=? 0) eqn:E1; [ lia | ].
    destruct (y1 - y0 <=? 0) eqn:E2; [ lia | ]. cbn [orb].
    unfold pasted_shape in Hpix. rewrite Hpix.
    apply Z.eqb_neq in Hv. by rewrite Hv.
  - intros p w w' Hrun.
    destruct (build_icons_RuntimeError _ _ _ _ Hrun)
      as (b & evs & _ & _ & _ & Hcomp & Hev & Hx).
    split; [ assumption | ].
    exists (prologue_events p ++ evs). split; [ assumption | ].
    apply Forall_app. split.
    + repeat constructor.
    + eapply Forall_impl; [ exact Hx | ]. intros [] He; done.
Qed.

(** C3.  Whatever the size of the source image, an icon returned by
    [build_desktop_icon_with_mask] is an RGBA image of exactly
    1024 x 1024; and with a mask of the canvas size, as
    [reshape_mask_to_bbox] makes them, the function does return. *)
Theorem composited_icon_has_canvas_size (source : Image RGBA) (mask : Image Z) :
  (forall icon,
      build_desktop_icon_with_mask source mask = Ok icon ->
      size icon = (ICON_CANVAS_SIZE, ICON_CANVAS_SIZE) /\ mode icon = "RGBA"%string)
  /\ (size mask = (ICON_CANVAS_SIZE, ICON_CANVAS_SIZE) ->
      exists icon, build_desktop_icon_with_mask source mask = Ok icon).
Proof.
  unfold build_desktop_icon_with_mask, paste_masked. split.
  - intros icon. destruct (negb _); [ discriminate | ].
    intros H; inversion H. by split.
  - intros Hm. rewrite Hm. cbn. eauto.
Qed.

(** C4.  After [build_icons_from_source] has returned, the renderer icon
    path and the desktop source-copy path hold exactly the bytes that the
    source path held when it was called, whatever the decoder and the
    encoders of the imaging library do; after a run of [main] that
    returns, that is the content of the master file, which is itself
    unchanged. *)
Theorem source_copies_are_the_master_bytes :
  (forall (p : Path) (w w' : World) (v : Path * Path),
      build_icons_from_source p w = (Ok v, w') ->
      exists b, fs w !! p = Some (File b)
                /\ fs w' !! RENDERER_ICON_PATH = Some (File b)
                /\ fs w' !! DESKTOP_SOURCE_COPY_PATH = Some (File b))
  /\ (forall (w w' : World),
      main w = (Ok tt, w') ->
      exists b, fs w !! SOURCE_ICON_PATH = Some (File b)
                /\ fs w' !! SOURCE_ICON_PATH = Some (File b)
                /\ fs w' !! RENDERER_ICON_PATH = Some (File b)
                /\ fs w' !! DESKTOP_SOURCE_COPY_PATH = Some (File b)).
Proof.
  assert (Hcopies : forall icon f q,
             q = RENDERER_ICON_PATH \/ q = DESKTOP_SOURCE_COPY_PATH
             \/ q = SOURCE_ICON_PATH ->
             with_icons icon f !! q = f !! q).
  { intros icon f q Hq. unfold with_icons.
    rewrite !lookup_insert_ne; [ reflexivity | | | ];
      destruct Hq as [-> | [-> | ->]]; path_neq. }
  split.
  - intros p w w' v Hrun.
    destruct (build_icons_success _ _ _ _ Hrun)
      as (b & file & source & w1 & w2 & mask & icon
          & Hb & _ & _ & _ & Hren & Hcopy & _ & _ & _ & Hfs & _).
    exists b. rewrite Hfs, !Hcopies by tauto. done.
  - intros w w' Hmain.
    destruct (main_cases w) as [(_ & E) | (_ & r & W & Ebuild & Hr)];
      [ rewrite E in Hmain; discriminate | ].
    destruct r as [v | e]; [ | rewrite Hr in Hmain; discriminate ].
    destruct Hr as (W' & Emain & HfsW & _).
    rewrite Emain in Hmain. inversion Hmain; subst W'.
    destruct (build_icons_success _ _ _ _ Ebuild)
      as (b & file & source & w1 & w2 & mask & icon
          & Hb & _ & _ & Hpro & Hren & Hcopy & _ & _ & _ & Hfs & _).
    simpl in Hb. exists b. rewrite HfsW, Hfs, !Hcopies by tauto.
    repeat split; try assumption.
    destruct Hpro as (_ & _ & _ & _ & _ & _ & Hkeep).
    apply Hkeep; [ exact Hb | | ]; path_neq.
Qed.

(** C8.  When [sys.platform] is not [darwin], [load_macos_standard_mask]
    raises the [RuntimeError] "requires macOS" at once, leaving the
    machine exactly as it was: no candidate probed, no temporary directory
    made, no tool run.  A call of [build_icons_from_source] on such a
    machine ends in that error (or earlier, in an [OSError] of the copy
    stage); it writes none of the composited files, makes no temporary
    directory, and records no extraction or save event. *)
Theorem off_macos_mask_stage_fails_at_once (w : World) :
  platform w <> "darwin"%string ->
  load_macos_standard_mask w = (Raise (RuntimeError requires_macos), w)
  /\ (forall (p : Path) (r : Result (Path * Path)) (w' : World),
        build_icons_from_source p w = (r, w') ->
        (r = Raise (RuntimeError requires_macos) \/ exists m, r = Raise (OSError m))
        /\ Forall (fun q => fs w' !! q = fs w !! q) COMPOSITED_PATHS
        /\ tmp w' = tmp w
        /\ exists evs, events w' = events w ++ evs
                       /\ Forall (fun e => is_extraction e = false
                                           /\ is_save e = false) evs).
Proof.
  intros Hp. split; [ by apply load_macos_standard_mask_off_macos | ].
  intros p r w'. rewrite build_icons_from_source_split.
  destruct (prologue_run p w) as (r1 & w1 & Epro & Hpro & Hr).
  assert (Hquiet : exists evs, events w1 = events w ++ evs
                     /\ Forall (fun e => is_extraction e = false
                                         /\ is_save e = false) evs).
  { destruct Hpro as (_ & _ & _ & _ & (evs & Hev & Hall) & _).
    exists evs. split; [ assumption | ].
    eapply Forall_impl; [ exact Hall | ]. intros [] He; done. }
  assert (Htmp : tmp w1 = tmp w) by (by destruct Hpro as (_ & _ & Ht & _)).
  destruct r1 as [source | e].
  - rewrite (bind_Ok _ _ _ _ _ Epro).
    assert (Hp1 : platform w1 <> "darwin"%string)
      by (destruct Hpro as (-> & _); exact Hp).
    rewrite (bind_Raise _ _ _ _ _ (load_macos_standard_mask_off_macos w1 Hp1)).
    intros H; inversion H; subst.
    split; [ by left | ]. split; [ by apply composited_untouched | ]. by split.
  - rewrite (bind_Raise _ _ _ _ _ Epro). destruct Hr as [m ->].
    intros H; inversion H; subst.
    split; [ right; eauto | ]. split; [ by apply composited_untouched | ]. by split.
Qed.

(** The failures of the mask stage that the script raises itself are
    [RuntimeError]s. *)
Lemma mask_stage_failures (w : World) :
  (platform w <> "darwin"%string ->
   fst (load_macos_standard_mask w) = Raise (RuntimeError requires_macos))
  /\ (platform w = "darwin"%string -> which_iconutil w = None ->
      fst (load_macos_standard_mask w)
      = Raise (RuntimeError
          "[branding] iconutil is missing, cannot extract macOS standard icon mask."))
  /\ (forall tool msgs,
        platform w = "darwin"%string -> which_iconutil w = Some tool ->
        Forall2 (fun c m => car_outcome (fs w) tool c = Failed m)
                MACOS_ICON_CAR_CANDIDATES msgs ->
        fst (load_macos_standard_mask w)
        = Raise (RuntimeError (container_header +:+ format_errors msgs)))
  /\ (forall tool bbox cs W1 msgs,
        platform w = "darwin"%string -> which_iconutil w = Some tool ->
        load_macos_container_bbox tool w = (Ok (bbox, cs), W1) ->
        Forall2 (fun c m => icns_outcome (fs w) tool c = Failed m)
                MACOS_ICON_ICNS_CANDIDATES msgs ->
        fst (load_macos_standard_mask w)
        = Raise (RuntimeError (shape_header +:+ format_errors msgs)))
  /\ (forall tool bbox cs W1 alpha rs W2,
        platform w = "darwin"%string -> which_iconutil w = Some tool ->
        load_macos_container_bbox tool w = (Ok (bbox, cs), W1) ->
        load_macos_rounded_shape_mask tool W1 = (Ok (alpha, rs), W2) ->
        reshape_mask_to_bbox alpha bbox = Raise (RuntimeError corner_not_transparent) ->
        fst (load_macos_standard_mask w)
        = Raise (RuntimeError corner_not_transparent)).
Proof.
  assert (Hmac : platform w = "darwin"%string ->
                 load_macos_standard_mask w
                 = match which_iconutil w with
                   | None =>
                       raise (RuntimeError
         "[branding] iconutil is missing, cannot extract macOS standard icon mask.") w
                   | Some iconutil_path =>
                       (container <- load_macos_container_bbox iconutil_path;;
                        let '(container_bbox, container_source) := container in
                        rounded <- load_macos_rounded_shape_mask iconutil_path;;
                        let '(rounded_shape_alpha, rounded_shape_source) := rounded in
                        mask <- lift (reshape_mask_to_bbox rounded_shape_alpha
                                                          container_bbox);;
                        ret (mask, container_source, rounded_shape_source)) w
                   end).
  { intros Hp. unfold load_macos_standard_mask, bind at 1, get_world.
    rewrite Hp. cbn. by destruct (which_iconutil w). }
  split; [ | split; [ | split; [ | split ] ] ].
  - intros Hp. by rewrite load_macos_standard_mask_off_macos.
  - intros Hp Hw. rewrite (Hmac Hp), Hw. reflexivity.
  - intros tool msgs Hp Hw Hall. rewrite (Hmac Hp), Hw.
    destruct (container_all_failed tool _ msgs [] w Hall) as (W & _ & Hrun).
    unfold load_macos_container_bbox. by rewrite (bind_Raise _ _ _ _ _ Hrun).
  - intros tool bbox cs W1 msgs Hp Hw Hcar Hall. rewrite (Hmac Hp), Hw.
    rewrite (bind_Ok _ _ _ _ _ Hcar).
    pose proof (container_extraction_only tool MACOS_ICON_CAR_CANDIDATES [] w) as HW1.
    unfold load_macos_container_bbox in Hcar. rewrite Hcar in HW1. simpl in HW1.
    destruct HW1 as (_ & _ & _ & Hfs & _). rewrite <- Hfs in Hall.
    destruct (shape_all_failed tool _ msgs [] W1 Hall) as (W & _ & Hrun).
    unfold load_macos_rounded_shape_mask. by rewrite (bind_Raise _ _ _ _ _ Hrun).
  - intros tool bbox cs W1 alpha rs W2 Hp Hw Hcar Hshape Hcorner.
    rewrite (Hmac Hp), Hw.
    rewrite (bind_Ok _ _ _ _ _ Hcar), (bind_Ok _ _ _ _ _ Hshape).
    unfold bind, lift. by rewrite Hcorner.
Qed.

(** C10.  A call of [build_icons_from_source] that ends in a
    [RuntimeError] has by then written both copies of the master file,
    with its bytes; the three composited files hold what they held
    before; and the events of the call are the two [mkdir], the two
    copies and the opening of the master file, in that order, followed by
    events of the mask extraction only: the copies precede the platform
    check and every extraction.  The fatal failures of the mask stage
    are such [RuntimeError]s: another platform than macOS, [iconutil]
    missing, either candidate list exhausted, the corner not
    transparent. *)
Theorem copies_precede_mask_extraction :
  (forall (p : Path) (w w' : World) (m : string),
      build_icons_from_source p w = (Raise (RuntimeError m), w') ->
      exists b evs,
        fs w !! p = Some (File b)
        /\ fs w' !! RENDERER_ICON_PATH = Some (File b)
        /\ fs w' !! DESKTOP_SOURCE_COPY_PATH = Some (File b)
        /\ Forall (fun q => fs w' !! q = fs w !! q) COMPOSITED_PATHS
        /\ events w' = events w ++ prologue_events p ++ evs
        /\ Forall (fun e => is_extraction e = true) evs)
  /\ (forall (w : World),
        (platform w <> "darwin"%string ->
         fst (load_macos_standard_mask w) = Raise (RuntimeError requires_macos))
        /\ (platform w = "darwin"%string -> which_iconutil w = None ->
            exists m, fst (load_macos_standard_mask w) = Raise (RuntimeError m))
        /\ (forall tool msgs,
              platform w = "darwin"%string -> which_iconutil w = Some tool ->
              Forall2 (fun c m => car_outcome (fs w) tool c = Failed m)
                      MACOS_ICON_CAR_CANDIDATES msgs ->
              exists m, fst (load_macos_standard_mask w) = Raise (RuntimeError m))
        /\ (forall tool bbox cs W1 msgs,
              platform w = "darwin"%string -> which_iconutil w = Some tool ->
              load_macos_container_bbox tool w = (Ok (bbox, cs), W1) ->
              Forall2 (fun c m => icns_outcome (fs w) tool c = Failed m)
                      MACOS_ICON_ICNS_CANDIDATES msgs ->
              exists m, fst (load_macos_standard_mask w) = Raise (RuntimeError m))
        /\ (forall tool bbox cs W1 alpha rs W2,
              platform w = "darwin"%string -> which_iconutil w = Some tool ->
              load_macos_container_bbox tool w = (Ok (bbox, cs), W1) ->
              load_macos_rounded_shape_mask tool W1 = (Ok (alpha, rs), W2) ->
              reshape_mask_to_bbox alpha bbox
              = Raise (RuntimeError corner_not_transparent) ->
              exists m, fst (load_macos_standard_mask w) = Raise (RuntimeError m))).
Proof.
  split; [ exact build_icons_RuntimeError | ].
  intros w. destruct (mask_stage_failures w) as (H1 & H2 & H3 & H4 & H5).
  split; [ exact H1 | ].
  split; [ intros Hp Hw; eexists; by apply H2 | ].
  split; [ intros tool msgs Hp Hw Hall; eexists; by eapply H3 | ].
  split.
  - intros tool bbox cs W1 msgs Hp Hw Hcar Hall. eexists. by eapply H4.
  - intros tool bbox cs W1 alpha rs W2 Hp Hw Hcar Hshape Hcorner.
    eexists. by eapply H5.
Qed.

End Claims.

(** ** The largest PNG and the empty mask *)

Section Selection.
Context {imaging : Imaging} {host : Host}.

Lemma area_of_nonneg (f : ImageFile) : 0 <= area_of f.
Proof. unfold area_of. lia. Qed.

Lemma select_names_max (entries : Iconset) (names : list string) :
  forall lp la,
    best_so_far entries lp la ->
    match select_names entries names lp la with
    | None => lp = None /\ forall q, In q names -> readable entries q = false
    | Some p =>
        (Some p = lp \/ In p names)
        /\ exists f, open_entry entries p = Ok f
                     /\ la <= area_of f
                     /\ forall q fq, In q names -> open_entry entries q = Ok fq ->
                                     area_of fq <= area_of f
    end.
Proof.
  induction names as [ | n names IH]; intros lp la Hbest; simpl.
  - destruct lp as [p | ]; [ | by split ].
    destruct Hbest as (f & Hf & Ha). split; [ by left | ].
    exists f. split; [ assumption | ]. split; [ lia | ]. intros q fq [].
  - destruct (open_entry entries n) as [fn | e] eqn:Hn.
    + destruct (la <? area_of fn) eqn:Hlt.
      * apply Z.ltb_lt in Hlt.
        specialize (IH (Some n) (area_of fn)). simpl in IH.
        specialize (IH (ex_intro _ fn (conj Hn eq_refl))).
        destruct (select_names entries names (Some n) (area_of fn)) as [p | ].
        -- destruct IH as (Hp & f & Hf & Hle & Hmax).
           split.
           { right. destruct Hp as [Hp | Hp]; [ left; congruence | by right ]. }
           exists f. split; [ assumption | ]. split; [ lia | ].
           intros q fq [<- | Hq] Hq'; [ | by eapply Hmax ].
           rewrite Hn in Hq'. inversion Hq'; subst. assumption.
        -- destruct IH as [IH _]. discriminate IH.
      * apply Z.ltb_ge in Hlt. specialize (IH lp la Hbest).
        destruct (select_names entries names lp la) as [p | ].
        -- destruct IH as (Hp & f & Hf & Hle & Hmax).
           split; [ destruct Hp; [ by left | right; by right ] | ].
           exists f. split; [ assumption | ]. split; [ assumption | ].
           intros q fq [<- | Hq] Hq'; [ | by eapply Hmax ].
           rewrite Hn in Hq'. inversion Hq'; subst. lia.
        -- destruct IH as [-> _]. simpl in Hbest. subst la.
           pose proof (area_of_nonneg fn). lia.
    + specialize (IH lp la Hbest).
      destruct (select_names entries names lp la) as [p | ].
      * destruct IH as (Hp & f & Hf & Hle & Hmax).
        split; [ destruct Hp; [ by left | right; by right ] | ].
        exists f. split; [ assumption | ]. split; [ assumption | ].
        intros q fq [<- | Hq] Hq'; [ congruence | by eapply Hmax ].
      * destruct IH as [Hlp Hall]. split; [ assumption | ].
        intros q [<- | Hq]; [ unfold readable; by rewrite Hn | by apply Hall ].
Qed.

Lemma open_entry_exists (entries : Iconset) (name : string) (f : ImageFile) :
  open_entry entries name = Ok f -> entry_exists entries name = true.
Proof.
  unfold open_entry, entry_exists.
  by destruct (entry_lookup entries name).
Qed.

Lemma iconset_open_Ok (d : nat) (name : string) (w : World) (f : ImageFile) :
  iconset_open d name w = (Ok f, w) <-> open_entry (entries_of w d) name = Ok f.
Proof.
  unfold iconset_open. split; intros H; [ by inversion H | by rewrite H ].
Qed.


End Selection.

(** ** What is reported and what is not *)

Section Reporting.
Context {imaging : Imaging} {host : Host}.

Lemma select_names_skips_unreadable (entries : Iconset) (names : list string) :
  forall lp la,
    select_names entries names lp la
    = select_names entries (List.filter (readable entries) names) lp la.
Proof.
  induction names as [ | n names IH]; intros lp la; [ reflexivity | ].
  simpl. unfold readable at 1.
  destruct (open_entry entries n) as [f | e] eqn:Hn; simpl.
  - rewrite Hn. destruct (la <? area_of f); apply IH.
  - apply IH.
Qed.


End Reporting.

(** ** Machines that agree on the inputs *)

Section Agreement.
Context {imaging : Imaging} {host : Host}.

Lemma car_outcome_local (tool : string) (f1 f2 : gmap Path Node) (c : Path) :
  f1 !! c = f2 !! c -> car_outcome f1 tool c = car_outcome f2 tool c.
Proof. apply tool_outcome_local. Qed.

Lemma icns_outcome_local (tool : string) (f1 f2 : gmap Path Node) (c : Path) :
  f1 !! c = f2 !! c -> icns_outcome f1 tool c = icns_outcome f2 tool c.
Proof. apply tool_outcome_local. Qed.

Lemma load_macos_standard_mask_agree (w1 w2 : World) :
  platform w1 = platform w2 ->
  which_iconutil w1 = which_iconutil w2 ->
  Forall (fun c => fs w1 !! c = fs w2 !! c)
         (MACOS_ICON_CAR_CANDIDATES ++ MACOS_ICON_ICNS_CANDIDATES) ->
  fst (load_macos_standard_mask w1) = fst (load_macos_standard_mask w2).
Proof.
  intros Hp Hw Hall. apply Forall_app in Hall. destruct Hall as [Hcar Hicns].
  unfold load_macos_standard_mask, bind, get_world. rewrite Hp, Hw.
  destruct (negb _); [ reflexivity | ].
  destruct (which_iconutil w2) as [tool | ]; [ | reflexivity ].
  unfold load_macos_container_bbox, load_macos_rounded_shape_mask.
  pose proof (loop_agree (container_loop tool) (fun f c => car_outcome f tool c)
                container_header (container_loop_nil tool) (container_loop_step tool)
                (car_outcome_local tool) _ [] w1 w2 Hcar) as Hc.
  pose proof (container_extraction_only tool MACOS_ICON_CAR_CANDIDATES [] w1) as H1.
  pose proof (container_extraction_only tool MACOS_ICON_CAR_CANDIDATES [] w2) as H2.
  destruct (container_loop tool MACOS_ICON_CAR_CANDIDATES [] w1) as [r1 W1].
  destruct (container_loop tool MACOS_ICON_CAR_CANDIDATES [] w2) as [r2 W2].
  simpl in Hc, H1, H2. subst r2.
  destruct r1 as [[bbox cs] | e]; [ | reflexivity ].
  assert (Hicns' : Forall (fun c => fs W1 !! c = fs W2 !! c) MACOS_ICON_ICNS_CANDIDATES).
  { destruct H1 as (_ & _ & _ & -> & _), H2 as (_ & _ & _ & -> & _). exact Hicns. }
  pose proof (loop_agree (shape_loop tool) (fun f c => icns_outcome f tool c)
                shape_header (shape_loop_nil tool) (shape_loop_step tool)
                (icns_outcome_local tool) _ [] W1 W2 Hicns') as Hs.
  destruct (shape_loop tool MACOS_ICON_ICNS_CANDIDATES [] W1) as [s1 V1].
  destruct (shape_loop tool MACOS_ICON_ICNS_CANDIDATES [] W2) as [s2 V2].
  simpl in Hs. subst s2.
  destruct s1 as [[alpha rs] | e]; [ | reflexivity ].
  unfold lift, ret. destruct (reshape_mask_to_bbox alpha bbox); reflexivity.
Qed.

Lemma candidate_is_not_output (c : Path) :
  In c (MACOS_ICON_CAR_CANDIDATES ++ MACOS_ICON_ICNS_CANDIDATES) ->
  ~ In c OUTPUT_PATHS.
Proof.
  intros Hc Ho.
  assert (Hlast : last c = Some "Assets.car"%string \/ last c = Some "AppIcon.icns"%string).
  { simpl in Hc.
    repeat (destruct Hc as [<- | Hc]; [ (by left) || (by right) | ]). destruct Hc. }
  assert (Hout : last c = Some "app-icon.png"%string
                 \/ last c = Some "app-icon-desktop.png"%string
                 \/ last c = Some "icon.ico"%string \/ last c = Some "icon.icns"%string).
  { simpl in Ho.
    destruct Ho as [<- | [<- | [<- | [<- | [<- | []]]]]];
      [ left | left | right; left | right; right; left | right; right; right ];
      unfold RENDERER_ICON_PATH, DESKTOP_SOURCE_COPY_PATH, DESKTOP_ICON_PNG_PATH,
        DESKTOP_ICON_ICO_PATH, DESKTOP_ICON_ICNS_PATH;
      by rewrite last_app. }
  destruct Hlast as [Hl | Hl]; rewrite Hl in Hout;
    destruct Hout as [H | [H | [H | H]]]; discriminate H.
Qed.

Lemma with_icons_composited (icon : Image RGBA) (f : gmap Path Node) :
  with_icons icon f !! DESKTOP_ICON_PNG_PATH = Some (File (encode_png icon))
  /\ with_icons icon f !! DESKTOP_ICON_ICO_PATH
     = Some (File (encode_ico icon ICO_SIZES))
  /\ with_icons icon f !! DESKTOP_ICON_ICNS_PATH = Some (File (encode_icns icon)).
Proof.
  unfold with_icons. repeat split.
  - rewrite !lookup_insert_ne by (path_neq).
    apply lookup_insert_eq.
  - rewrite lookup_insert_ne by (path_neq).
    apply lookup_insert_eq.
  - apply lookup_insert_eq.
Qed.

Lemma with_icons_other (icon : Image RGBA) (f : gmap Path Node) (q : Path) :
  ~ In q COMPOSITED_PATHS -> with_icons icon f !! q = f !! q.
Proof.
  intros Hq. unfold with_icons.
  rewrite !lookup_insert_ne; [ reflexivity | | | ]; intros <-; apply Hq; simpl; tauto.
Qed.

(** The result and the five files of a run that returns, from its inputs. *)
Lemma main_success (w w' : World) :
  main w = (Ok tt, w') ->
  exists b file source w1 mask cs rs icon,
    fs w !! SOURCE_ICON_PATH = Some (File b)
    /\ image_open b = Some file
    /\ file_rgba file = Some source
    /\ prologue_only (at_build w) w1
    /\ (forall q,
           In q (ancestors_and_self (parent RENDERER_ICON_PATH)
                   ++ ancestors_and_self (parent DESKTOP_ICON_PNG_PATH)) ->
           fs w1 !! q = Some Dir)
    /\ fs w1 !! RENDERER_ICON_PATH = Some (File b)
    /\ fs w1 !! DESKTOP_SOURCE_COPY_PATH = Some (File b)
    /\ fst (load_macos_standard_mask w1) = Ok (mask, cs, rs)
    /\ build_desktop_icon_with_mask source mask = Ok icon
    /\ fs w' = with_icons icon (fs w1)
    /\ platform w' = platform w
    /\ which_iconutil w' = which_iconutil w.
Proof.
  intros Hmain.
  destruct (main_cases w) as [(_ & E) | (_ & r & W & Ebuild & Hr)];
    [ rewrite E in Hmain; discriminate | ].
  destruct r as [v | e]; [ | rewrite Hr in Hmain; discriminate ].
  destruct Hr as (W' & Emain & HfsW & _ & HplW & HwhW).
  rewrite Emain in Hmain. inversion Hmain; subst W'.
  destruct (build_icons_success _ _ _ _ Ebuild)
    as (b & file & source & w1 & w2 & mask & icon
        & Hb & Hfile & Hsrc & Hpro & Hren & Hcopy & Hdirs & Hmask & Hicon & Hfs
        & _ & Hpl & Hwh).
  exists b, file, source, w1, mask, (fst v), (snd v), icon.
  rewrite HfsW, Hmask, HplW, HwhW. simpl in Hb, Hpl, Hwh.
  repeat (split; [ assumption || reflexivity | ]). assumption.
Qed.

Lemma prologue_keeps_agreement (w1 w2 W1 W2 : World) (c : Path) :
  prologue_only w1 W1 -> prologue_only w2 W2 ->
  (forall q,
      In q (ancestors_and_self (parent RENDERER_ICON_PATH)
              ++ ancestors_and_self (parent DESKTOP_ICON_PNG_PATH)) ->
      fs W1 !! q = Some Dir /\ fs W2 !! q = Some Dir) ->
  ~ In c OUTPUT_PATHS ->
  fs w1 !! c = fs w2 !! c -> fs W1 !! c = fs W2 !! c.
Proof.
  intros (_ & _ & _ & _ & _ & Hfr1 & _) (_ & _ & _ & _ & _ & Hfr2 & _) Hdirs Hout Hc.
  destruct (decide (c ∈ ancestors_and_self (parent RENDERER_ICON_PATH)
                       ++ ancestors_and_self (parent DESKTOP_ICON_PNG_PATH)))
    as [Hin%list_elem_of_In | Hnin].
  - destruct (Hdirs c Hin) as [-> ->]. reflexivity.
  - rewrite list_elem_of_In in Hnin.
    assert (H1 : ~ In c (ancestors_and_self (parent RENDERER_ICON_PATH)))
      by (intros H; apply Hnin, in_or_app; by left).
    assert (H2 : ~ In c (ancestors_and_self (parent DESKTOP_ICON_PNG_PATH)))
      by (intros H; apply Hnin, in_or_app; by right).
    assert (H3 : c <> RENDERER_ICON_PATH) by (intros ->; apply Hout; simpl; tauto).
    assert (H4 : c <> DESKTOP_SOURCE_COPY_PATH) by (intros ->; apply Hout; simpl; tauto).
    rewrite (Hfr1 c H1 H2 H3 H4), (Hfr2 c H1 H2 H3 H4). exact Hc.
Qed.

End Agreement.

(** ** Running twice *)

Lemma make_dirs_noop (ps : list Path) (f : gmap Path Node) :
  (forall p, In p ps -> f !! p = Some Dir) -> make_dirs ps f = Ok f.
Proof.
  induction ps as [ | p ps IH]; intros Hall; [ reflexivity | ].
  simpl. rewrite (Hall p) by (by left). apply IH. intros q Hq. apply Hall. by right.
Qed.

Lemma mkdir_parents_noop (p : Path) (w : World) :
  (forall q, In q (ancestors_and_self p) -> fs w !! q = Some Dir) ->
  exists W, mkdir_parents p w = (Ok tt, W) /\ same_disk w W.
Proof.
  intros Hall. unfold mkdir_parents. rewrite (make_dirs_noop _ _ Hall).
  eexists. split; [ reflexivity | ]. by repeat split.
Qed.

Lemma write_file_same (p : Path) (b : bytes) (f : gmap Path Node) :
  f !! parent p = Some Dir -> f !! p = Some (File b) -> write_file p b f = Ok f.
Proof.
  intros Hdir Hp. unfold write_file, is_dir. rewrite Hdir, Hp.
  destruct p as [ | n p ].
  - simpl in Hdir. congruence.
  - destruct (parent (n :: p)); simpl; by rewrite insert_id.
Qed.

Lemma copyfile_noop (src dst : Path) (b : bytes) (w : World) :
  src <> dst -> fs w !! src = Some (File b) -> fs w !! dst = Some (File b) ->
  fs w !! parent dst = Some Dir ->
  exists W, copyfile src dst w = (Ok tt, W) /\ same_disk w W.
Proof.
  intros Hne Hsrc Hdst Hdir. unfold copyfile, path_eqb, read_file.
  rewrite bool_decide_eq_false_2 by done.
  rewrite Hsrc, (write_file_same _ _ _ Hdir Hdst).
  eexists. split; [ reflexivity | ]. by repeat split.
Qed.

Lemma save_bytes_noop (p : Path) (fmt : string) (b : bytes) (w : World) :
  fs w !! p = Some (File b) -> fs w !! parent p = Some Dir ->
  exists W, save_bytes p fmt b w = (Ok tt, W) /\ same_disk w W.
Proof.
  intros Hp Hdir. unfold save_bytes. rewrite (write_file_same _ _ _ Hdir Hp).
  eexists. split; [ reflexivity | ]. by repeat split.
Qed.

Lemma same_disk_trans (w1 w2 w3 : World) :
  same_disk w1 w2 -> same_disk w2 w3 -> same_disk w1 w3.
Proof. intros (? & ? & ?) (? & ? & ?). repeat split; congruence. Qed.

Lemma ancestors_and_self_last (p : Path) : p <> [] -> In p (ancestors_and_self p).
Proof.
  intros Hp. unfold ancestors_and_self. apply in_map_iff.
  exists (length p). split; [ apply firstn_all | ].
  apply in_seq. destruct p; [ done | simpl; lia ].
Qed.

Section Determinism.
Context {imaging : Imaging} {host : Host}.

(** Run again on files that are already those of a finished run. *)
Lemma build_icons_again (p : Path) (w : World) (b : bytes) (file : ImageFile)
    (source : Image RGBA) (mask : Image Z) (cs rs : Path) (icon : Image RGBA) :
  (forall q,
      In q (ancestors_and_self (parent RENDERER_ICON_PATH)
              ++ ancestors_and_self (parent DESKTOP_ICON_PNG_PATH)) ->
      fs w !! q = Some Dir) ->
  p <> RENDERER_ICON_PATH -> p <> DESKTOP_SOURCE_COPY_PATH ->
  fs w !! p = Some (File b) ->
  fs w !! RENDERER_ICON_PATH = Some (File b) ->
  fs w !! DESKTOP_SOURCE_COPY_PATH = Some (File b) ->
  image_open b = Some file ->
  file_rgba file = Some source ->
  (forall W, same_disk w W -> fst (load_macos_standard_mask W) = Ok (mask, cs, rs)) ->
  build_desktop_icon_with_mask source mask = Ok icon ->
  fs w !! DESKTOP_ICON_PNG_PATH = Some (File (encode_png icon)) ->
  fs w !! DESKTOP_ICON_ICO_PATH = Some (File (encode_ico icon ICO_SIZES)) ->
  fs w !! DESKTOP_ICON_ICNS_PATH = Some (File (encode_icns icon)) ->
  exists W, build_icons_from_source p w = (Ok (cs, rs), W) /\ same_disk w W.
Proof.
  intros Hdirs Hne1 Hne2 Hp Hren Hcopy Hfile Hsrc Hmask Hicon Hpng Hico Hicns.
  assert (Hd1 : fs w !! parent RENDERER_ICON_PATH = Some Dir).
  { apply Hdirs, in_or_app. left. apply ancestors_and_self_last.
    rewrite parent_renderer. by destruct ROOT_DIR. }
  assert (Hd2 : fs w !! parent DESKTOP_ICON_PNG_PATH = Some Dir).
  { apply Hdirs, in_or_app. right. apply ancestors_and_self_last.
    rewrite parent_desktop. by destruct ROOT_DIR. }
  assert (Hpar : parent DESKTOP_SOURCE_COPY_PATH = parent DESKTOP_ICON_PNG_PATH
                 /\ parent DESKTOP_ICON_ICO_PATH = parent DESKTOP_ICON_PNG_PATH
                 /\ parent DESKTOP_ICON_ICNS_PATH = parent DESKTOP_ICON_PNG_PATH).
  { unfold parent, DESKTOP_SOURCE_COPY_PATH, DESKTOP_ICON_PNG_PATH,
      DESKTOP_ICON_ICO_PATH, DESKTOP_ICON_ICNS_PATH.
    by rewrite !removelast_app. }
  destruct Hpar as (Hpar1 & Hpar2 & Hpar3).
  assert (Hpro : exists W, build_icons_prologue p w = (Ok source, W) /\ same_disk w W).
  { unfold build_icons_prologue.
    destruct (mkdir_parents_noop (parent RENDERER_ICON_PATH) w) as (w1 & E1 & S1).
    { intros q Hq. apply Hdirs, in_or_app. by left. }
    rewrite (bind_Ok _ _ _ _ _ E1).
    assert (F1 : fs w1 = fs w) by (by destruct S1).
    destruct (mkdir_parents_noop (parent DESKTOP_ICON_PNG_PATH) w1) as (w2 & E2 & S2).
    { intros q Hq. rewrite F1. apply Hdirs, in_or_app. by right. }
    rewrite (bind_Ok _ _ _ _ _ E2).
    pose proof (same_disk_trans _ _ _ S1 S2) as S12.
    assert (F2 : fs w2 = fs w) by (by destruct S12).
    destruct (copyfile_noop p RENDERER_ICON_PATH b w2) as (w3 & E3 & S3);
      rewrite ?F2; try assumption.
    rewrite (bind_Ok _ _ _ _ _ E3).
    pose proof (same_disk_trans _ _ _ S12 S3) as S13.
    assert (F3 : fs w3 = fs w) by (by destruct S13).
    destruct (copyfile_noop p DESKTOP_SOURCE_COPY_PATH b w3) as (w4 & E4 & S4);
      rewrite ?F3, ?Hpar1; try assumption.
    rewrite (bind_Ok _ _ _ _ _ E4).
    pose proof (same_disk_trans _ _ _ S13 S4) as S14.
    assert (F4 : fs w4 = fs w) by (by destruct S14).
    assert (E5 : Image_open p w4 = (Ok file, log (EvOpen p) w4)).
    { unfold Image_open, read_file, decode. by rewrite F4, Hp, Hfile. }
    rewrite (bind_Ok _ _ _ _ _ E5).
    unfold convert_RGBA, lift, rgba_of. rewrite Hsrc.
    eexists. split; [ reflexivity | ].
    destruct S14 as (? & ? & ?). by repeat split. }
  destruct Hpro as (w5 & Epro & S5).
  rewrite build_icons_from_source_split, (bind_Ok _ _ _ _ _ Epro).
  pose proof (Hmask w5 S5) as Hm.
  pose proof (load_macos_standard_mask_extraction_only w5) as Hx.
  destruct (load_macos_standard_mask w5) as [r w6] eqn:Emask. simpl in Hm, Hx. subst r.
  rewrite (bind_Ok _ _ _ _ _ Emask).
  assert (S6 : same_disk w w6).
  { destruct S5 as (? & ? & ?), Hx as (? & ? & _ & ? & _). repeat split; congruence. }
  assert (F6 : fs w6 = fs w) by (by destruct S6).
  unfold build_icons_epilogue.
  rewrite (bind_Ok (lift _) _ w6 icon w6) by (unfold lift; by rewrite Hicon).
  destruct (save_bytes_noop DESKTOP_ICON_PNG_PATH "PNG" (encode_png icon) w6)
    as (w7 & E7 & S7); rewrite ?F6; try assumption.
  rewrite (bind_Ok _ _ _ _ _ E7).
  pose proof (same_disk_trans _ _ _ S6 S7) as S67.
  assert (F7 : fs w7 = fs w) by (by destruct S67).
  destruct (save_bytes_noop DESKTOP_ICON_ICO_PATH "ICO" (encode_ico icon ICO_SIZES) w7)
    as (w8 & E8 & S8); rewrite ?F7, ?Hpar2; try assumption.
  rewrite (bind_Ok _ _ _ _ _ E8).
  pose proof (same_disk_trans _ _ _ S67 S8) as S68.
  assert (F8 : fs w8 = fs w) by (by destruct S68).
  destruct (save_bytes_noop DESKTOP_ICON_ICNS_PATH "ICNS" (encode_icns icon) w8)
    as (w9 & E9 & S9); rewrite ?F8, ?Hpar3; try assumption.
  rewrite (bind_Ok _ _ _ _ _ E9).
  exists w9. split; [ reflexivity | ]. by eapply same_disk_trans.
Qed.

Lemma source_is_not_output : ~ In SOURCE_ICON_PATH OUTPUT_PATHS.
Proof.
  path_not_in.
Qed.

Lemma not_output_not_composited (q : Path) :
  ~ In q OUTPUT_PATHS -> ~ In q COMPOSITED_PATHS.
Proof. simpl. tauto. Qed.

(** C9.  Two runs of [main] that return, on machines with the same
    platform, the same [iconutil], the same master file and the same
    candidate files, end with the same bytes in each of the five output
    files, whatever else differs between the machines (earlier outputs,
    temporary directories, events).  And after a run that returns, a
    second run returns too and leaves every persistent file as the first
    run left it. *)
Theorem runs_are_deterministic_and_idempotent :
  (forall w1 w2 w1' w2' : World,
      same_inputs w1 w2 ->
      main w1 = (Ok tt, w1') -> main w2 = (Ok tt, w2') ->
      Forall (fun q => fs w1' !! q = fs w2' !! q) OUTPUT_PATHS)
  /\ (forall w w' : World,
        main w = (Ok tt, w') ->
        exists w'', main w' = (Ok tt, w'') /\ fs w'' = fs w').
Proof.
  split.
  - intros w1 w2 w1' w2' (Hp & Hw & Hsrc & Hcands) M1 M2.
    destruct (main_success _ _ M1)
      as (b1 & file1 & source1 & u1 & mask1 & cs1 & rs1 & icon1
          & Hb1 & Hf1 & Hs1 & Hpro1 & Hdirs1 & Hren1 & Hcopy1 & Hm1 & Hi1 & Hfs1 & _).
    destruct (main_success _ _ M2)
      as (b2 & file2 & source2 & u2 & mask2 & cs2 & rs2 & icon2
          & Hb2 & Hf2 & Hs2 & Hpro2 & Hdirs2 & Hren2 & Hcopy2 & Hm2 & Hi2 & Hfs2 & _).
    assert (b2 = b1) as -> by congruence.
    assert (file2 = file1) as -> by congruence.
    assert (source2 = source1) as -> by congruence.
    assert (Hagree : fst (load_macos_standard_mask u1) = fst (load_macos_standard_mask u2)).
    { apply load_macos_standard_mask_agree.
      - destruct Hpro1 as (-> & _), Hpro2 as (-> & _). exact Hp.
      - destruct Hpro1 as (_ & -> & _), Hpro2 as (_ & -> & _). exact Hw.
      - apply List.Forall_forall. intros c Hc.
        apply (prologue_keeps_agreement (at_build w1) (at_build w2)); try assumption.
        + intros q Hq. split; [ by apply Hdirs1 | by apply Hdirs2 ].
        + by apply candidate_is_not_output.
        + rewrite List.Forall_forall in Hcands. by apply Hcands. }
    rewrite Hm1, Hm2 in Hagree. inversion Hagree; subst.
    assert (icon2 = icon1) as -> by congruence.
    rewrite Hfs1, Hfs2.
    destruct (with_icons_composited icon1 (fs u1)) as (P1 & P2 & P3).
    destruct (with_icons_composited icon1 (fs u2)) as (Q1 & Q2 & Q3).
    assert (Hother : forall f q,
               q = RENDERER_ICON_PATH \/ q = DESKTOP_SOURCE_COPY_PATH ->
               with_icons icon1 f !! q = f !! q).
    { intros f q Hq. apply with_icons_other. simpl.
      destruct Hq as [-> | ->]; path_not_in. }
    repeat constructor.
    + rewrite !Hother by tauto. congruence.
    + rewrite !Hother by tauto. congruence.
    + congruence.
    + congruence.
    + congruence.
  - intros w w' M.
    destruct (main_success _ _ M)
      as (b & file & source & u & mask & cs & rs & icon
          & Hb & Hf & Hs & Hpro & Hdirs & Hren & Hcopy & Hm & Hi & Hfs & Hpl & Hwh).
    destruct (with_icons_composited icon (fs u)) as (P1 & P2 & P3).
    assert (Hkeep : forall q, ~ In q COMPOSITED_PATHS -> fs w' !! q = fs u !! q).
    { intros q Hq. rewrite Hfs. by apply with_icons_other. }
    assert (Hsrc' : fs w' !! SOURCE_ICON_PATH = Some (File b)).
    { rewrite Hkeep by (apply not_output_not_composited, source_is_not_output).
      destruct Hpro as (_ & _ & _ & _ & _ & _ & Hk).
      apply Hk; [ exact Hb | | ]; path_neq. }
    destruct (build_icons_again SOURCE_ICON_PATH (at_build w') b file source
                mask cs rs icon) as (W & Ebuild & SW); try assumption.
    + intros q Hq. simpl. rewrite Hkeep; [ by apply Hdirs | ].
      intros Hc. assert (Ho : In q OUTPUT_PATHS) by (simpl in Hc |- *; tauto).
      destruct (output_is_file q Ho) as [H1 H2]. apply in_app_or in Hq. tauto.
    + path_neq.
    + path_neq.
    + simpl. rewrite Hkeep; [ exact Hren | ].
      path_not_in.
    + simpl. rewrite Hkeep; [ exact Hcopy | ].
      path_not_in.
    + intros V (Vf & Vp & Vw). rewrite <- Hm.
      apply load_macos_standard_mask_agree.
      * rewrite Vp. simpl. rewrite Hpl. by destruct Hpro as (-> & _).
      * rewrite Vw. simpl. rewrite Hwh. by destruct Hpro as (_ & -> & _).
      * apply List.Forall_forall. intros c Hc. rewrite Vf. simpl.
        apply Hkeep, not_output_not_composited. by apply candidate_is_not_output.
    + simpl. by rewrite Hfs.
    + simpl. by rewrite Hfs.
    + simpl. by rewrite Hfs.
    + destruct (main_cases w') as [(Hno & _) | (_ & r & W' & Ebuild' & Hr)].
      * exfalso. unfold node_exists in Hno. rewrite Hsrc' in Hno.
        unfold SOURCE_ICON_PATH in Hno. by destruct ROOT_DIR.
      * rewrite Ebuild in Ebuild'. inversion Ebuild'; subst.
        destruct Hr as (W'' & Emain & HfsW & _).
        exists W''. split; [ exact Emain | ].
        destruct SW as (SWf & _). rewrite HfsW, SWf. reflexivity.
Qed.

End Determinism.

(** ** The theorems on the sample machines *)

Lemma pair_of_fst {A B : Type} (x : A * B) (a : A) : fst x = a -> x = (a, snd x).
Proof. intros <-. by destruct x. Qed.

Section Samples.
Import Sample.

(** The rounded shape passes the corner check, the square one does not,
    and the run on [mac_square] stops before the composited files. *)
Lemma reshape_corner_witness :
  (exists m, reshape_mask_to_bbox (getchannel_A rounded_art) sample_box = Ok m
             /\ getpixel m 16 16 = Ok 0)
  /\ reshape_mask_to_bbox (getchannel_A square_art) sample_box
     = Raise (RuntimeError corner_not_transparent)
  /\ Forall (fun q => fs (snd (build_icons_from_source SOURCE_ICON_PATH mac_square)) !! q
                      = fs mac_square !! q) COMPOSITED_PATHS.
Proof.
  split; [ | split ].
  - destruct (reshape_mask_to_bbox (getchannel_A rounded_art) sample_box)
      as [m | e] eqn:E.
    + exists m. split; [ reflexivity | ].
      apply (proj1 reshape_corner_transparent_or_raises _ _ _ _ _ _ E).
    + assert (H : returned (reshape_mask_to_bbox (getchannel_A rounded_art) sample_box)
                  = true) by (vm_compute; reflexivity).
      rewrite E in H. discriminate H.
  - apply (proj1 (proj2 reshape_corner_transparent_or_raises)
             (getchannel_A square_art) (0, 0, 8, 8) 16 16 1008 1008 255).
    + vm_compute. reflexivity.
    + lia.
    + lia.
    + vm_compute. reflexivity.
    + lia.
  - apply (proj2 (proj2 reshape_corner_transparent_or_raises)
             SOURCE_ICON_PATH mac_square
             (snd (build_icons_from_source SOURCE_ICON_PATH mac_square))).
    apply pair_of_fst. vm_compute. reflexivity.
Defined.

(** On [mac_square] the corner check fails after both copies of the
    master file were written: neither existed before the run. *)
Lemma corner_failure_after_copies_written :
  fst (main mac_square) = Raise (RuntimeError corner_not_transparent)
  /\ fs mac_square !! RENDERER_ICON_PATH = None
  /\ fs mac_square !! DESKTOP_SOURCE_COPY_PATH = None
  /\ fs (snd (main mac_square)) !! RENDERER_ICON_PATH = Some (File master)
  /\ fs (snd (main mac_square)) !! DESKTOP_SOURCE_COPY_PATH = Some (File master).
Proof. split_and!; vm_compute; reflexivity. Qed.


(** A 4 x 4 source composited through a full-canvas mask. *)
Lemma canvas_size_witness :
  size opaque_mask = (ICON_CANVAS_SIZE, ICON_CANVAS_SIZE)
  /\ exists icon, build_desktop_icon_with_mask small_art opaque_mask = Ok icon
                  /\ size icon = (1024, 1024)%N
                  /\ mode icon = "RGBA"%string.
Proof.
  split; [ reflexivity | ].
  destruct (proj2 (composited_icon_has_canvas_size small_art opaque_mask) eq_refl)
    as [icon Hicon].
  exists icon. split; [ exact Hicon | ].
  apply (proj1 (composited_icon_has_canvas_size small_art opaque_mask) icon Hicon).
Defined.

(** The run on [mac]. *)
Lemma source_copies_witness :
  (exists b,
      fs mac !! SOURCE_ICON_PATH = Some (File b)
      /\ fs (snd (build_icons_from_source SOURCE_ICON_PATH mac)) !! RENDERER_ICON_PATH
         = Some (File b)
      /\ fs (snd (build_icons_from_source SOURCE_ICON_PATH mac))
           !! DESKTOP_SOURCE_COPY_PATH = Some (File b))
  /\ exists b, fs mac !! SOURCE_ICON_PATH = Some (File b)
               /\ fs (snd (main mac)) !! SOURCE_ICON_PATH = Some (File b)
               /\ fs (snd (main mac)) !! RENDERER_ICON_PATH = Some (File b)
               /\ fs (snd (main mac)) !! DESKTOP_SOURCE_COPY_PATH = Some (File b).
Proof.
  split.
  - apply (proj1 source_copies_are_the_master_bytes SOURCE_ICON_PATH mac
             (snd (build_icons_from_source SOURCE_ICON_PATH mac))
             (app_store_car, app_store_icns)).
    apply pair_of_fst. vm_compute. reflexivity.
  - apply (proj2 source_copies_are_the_master_bytes mac (snd (main mac))).
    apply pair_of_fst. vm_compute. reflexivity.
Defined.


(** The first PNG of the iconset cannot be opened; the run succeeds and
    its output does not mention the file. *)
Lemma unreadable_png_goes_unreported :
  let entries :=
    produced (iconutil (icns_args tool app_store_icns)
                       (fs mac_unreadable_png !! app_store_icns)) in
  In "icon_512x512@2x.png"%string (glob_png entries)
  /\ open_entry entries "icon_512x512@2x.png"
     = Raise (OSError "cannot identify image file")
  /\ fst (main mac_unreadable_png) = Ok tt
  /\ stdout (snd (main mac_unreadable_png))
     = [ "[branding] using source icon: /repo/branding/source/app-icon.png";
         "[branding] updated renderer icon: /repo/src/renderer/public/branding/app-icon.png";
         "[branding] updated desktop source copy png: /repo/public/branding/app-icon.png";
         "[branding] updated desktop rounded icon png: /repo/public/branding/app-icon-desktop.png";
         "[branding] updated desktop icon ico: /repo/public/branding/icon.ico";
         "[branding] updated desktop icon icns: /repo/public/branding/icon.icns";
         "[branding] macOS container bbox source: /System/Applications/App Store.app/Contents/Resources/Assets.car";
         "[branding] macOS rounded-shape source: /System/Applications/App Store.app/Contents/Resources/AppIcon.icns"
       ]%string.
Proof. cbv zeta. split_and!; vm_compute; try reflexivity. by left. Qed.



(** On Linux. *)
Lemma off_macos_witness :
  platform linux <> "darwin"%string
  /\ load_macos_standard_mask linux = (Raise (RuntimeError requires_macos), linux)
  /\ fst (build_icons_from_source SOURCE_ICON_PATH linux)
     = Raise (RuntimeError requires_macos)
  /\ Forall (fun q => fs (snd (build_icons_from_source SOURCE_ICON_PATH linux)) !! q
                      = fs linux !! q) COMPOSITED_PATHS
  /\ tmp (snd (build_icons_from_source SOURCE_ICON_PATH linux)) = tmp linux.
Proof.
  assert (H : platform linux <> "darwin"%string) by (vm_compute; discriminate).
  split; [ exact H | ].
  split; [ apply (proj1 (off_macos_mask_stage_fails_at_once linux H)) | ].
  split; [ vm_compute; reflexivity | ].
  destruct (proj2 (off_macos_mask_stage_fails_at_once linux H)
              SOURCE_ICON_PATH _ _
              (pair_of_fst (build_icons_from_source SOURCE_ICON_PATH linux) _ eq_refl))
    as (_ & Hcomp & Htmp & _).
  split; assumption.
Defined.

(** [mac] and [mac_stale] have the same inputs and end with the same
    five files; running again on the result of [mac] changes no file. *)
Lemma determinism_witness :
  same_inputs mac mac_stale
  /\ Forall (fun q => fs (snd (main mac)) !! q = fs (snd (main mac_stale)) !! q)
            OUTPUT_PATHS
  /\ exists w'', main (snd (main mac)) = (Ok tt, w'')
                 /\ fs w'' = fs (snd (main mac)).
Proof.
  assert (H : same_inputs mac mac_stale).
  { split_and!; try (vm_compute; reflexivity).
    unfold MACOS_ICON_CAR_CANDIDATES, MACOS_ICON_ICNS_CANDIDATES. cbn [app].
    repeat (constructor; [ vm_compute; reflexivity | ]). constructor. }
  split; [ exact H | ]. split.
  - apply (proj1 runs_are_deterministic_and_idempotent mac mac_stale _ _ H);
      apply pair_of_fst; vm_compute; reflexivity.
  - apply (proj2 runs_are_deterministic_and_idempotent mac).
    apply pair_of_fst. vm_compute. reflexivity.
Defined.

(** On Linux the copies are written, then the mask stage fails. *)
Lemma copies_precede_witness :
  exists b evs,
    fs linux !! SOURCE_ICON_PATH = Some (File b)
    /\ fs (snd (build_icons_from_source SOURCE_ICON_PATH linux)) !! RENDERER_ICON_PATH
       = Some (File b)
    /\ fs (snd (build_icons_from_source SOURCE_ICON_PATH linux))
         !! DESKTOP_SOURCE_COPY_PATH = Some (File b)
    /\ Forall (fun q => fs (snd (build_icons_from_source SOURCE_ICON_PATH linux)) !! q
                        = fs linux !! q) COMPOSITED_PATHS
    /\ events (snd (build_icons_from_source SOURCE_ICON_PATH linux))
       = events linux ++ prologue_events SOURCE_ICON_PATH ++ evs
    /\ Forall (fun e => is_extraction e = true) evs.
Proof.
  apply (proj1 copies_precede_mask_extraction SOURCE_ICON_PATH linux
           (snd (build_icons_from_source SOURCE_ICON_PATH linux)) requires_macos).
  apply pair_of_fst. vm_compute. reflexivity.
Defined.

End Samples.

(** * Further theorems *)

(** ** Relations kept along a computation *)

Section Preserves.

Variable R : World -> World -> Prop.
Hypothesis R_refl : forall w, R w w.
Hypothesis R_trans : forall w1 w2 w3, R w1 w2 -> R w2 w3 -> R w1 w3.

Lemma preserves_ret {A : Type} (a : A) : preserves R (ret a).
Proof. intros w. apply R_refl. Qed.

Lemma preserves_raise {A : Type} (e : Exn) : preserves R (@raise A e).
Proof. intros w. apply R_refl. Qed.

Lemma preserves_lift {A : Type} (r : Result A) : preserves R (lift r).
Proof. intros w. apply R_refl. Qed.

Lemma preserves_get_world : preserves R get_world.
Proof. intros w. apply R_refl. Qed.

Lemma preserves_bind {A B : Type} (m : M A) (k : A -> M B) :
  preserves R m -> (forall a, preserves R (k a)) -> preserves R (bind m k).
Proof.
  intros Hm Hk w. unfold bind. specialize (Hm w).
  destruct (m w) as [[a | e] w1]; simpl in Hm; [ | exact Hm ].
  eapply R_trans; [ exact Hm | apply Hk ].
Qed.

Lemma preserves_try {A : Type} (m : M A) : preserves R m -> preserves R (try m).
Proof.
  intros Hm w. unfold try. specialize (Hm w). by destruct (m w).
Qed.

Lemma preserves_finally {A : Type} (m : M A) (c : M unit) :
  preserves R m -> preserves R c -> preserves R (finally m c).
Proof.
  intros Hm Hc w. unfold finally. specialize (Hm w).
  destruct (m w) as [r w1]. simpl in Hm. specialize (Hc w1).
  destruct (c w1) as [[u | e] w2]; simpl in *; by eapply R_trans.
Qed.

End Preserves.

(** ** What a run leaves alone *)

Lemma make_dirs_only_dirs (ps : list Path) :
  forall f f' q,
    make_dirs ps f = Ok f' ->
    f' !! q = f !! q \/ (In q ps /\ f !! q = None /\ f' !! q = Some Dir).
Proof.
  induction ps as [ | p ps IH]; intros f f' q Hmk; simpl in Hmk.
  - inversion Hmk. by left.
  - destruct (f !! p) as [[b | ] | ] eqn:Hp; [ discriminate | | ].
    + destruct (IH _ _ q Hmk) as [H | (Hin & Hn & Hd)]; [ by left | ].
      right. split; [ by right | by split ].
    + destruct (decide (p = q)) as [-> | Hne].
      * right. split; [ by left | ]. split; [ assumption | ].
        eapply make_dirs_keeps; [ exact Hmk | apply lookup_insert_eq ].
      * destruct (IH _ _ q Hmk) as [H | (Hin & Hn & Hd)].
        -- left. rewrite H. by apply lookup_insert_ne.
        -- right. split; [ by right | ]. split; [ | assumption ].
           by rewrite lookup_insert_ne in Hn.
Qed.

Section Frame.

Context {imaging : Imaging} {host : Host}.

Lemma only_outputs_refl (w : World) : only_outputs w w.
Proof. intros q. by left. Qed.

Lemma only_outputs_trans (w1 w2 w3 : World) :
  only_outputs w1 w2 -> only_outputs w2 w3 -> only_outputs w1 w3.
Proof.
  intros H12 H23 q.
  destruct (H12 q) as [E1 | [O1 | (D1 & N1 & S1)]]; [ | right; by left | ].
  - destruct (H23 q) as [E2 | [O2 | (D2 & N2 & S2)]].
    + left. congruence.
    + right. by left.
    + right. right. split; [ assumption | ]. split; congruence.
  - destruct (H23 q) as [E2 | [O2 | (D2 & N2 & S2)]].
    + right. right. split; [ assumption | ]. split; congruence.
    + right. by left.
    + congruence.
Qed.

Lemma only_outputs_same_fs (w W : World) : fs W = fs w -> only_outputs w W.
Proof. intros H q. left. by rewrite H. Qed.

Lemma only_outputs_mkdir (p : Path) :
  incl (ancestors_and_self p) OUTPUT_DIRS ->
  preserves only_outputs (mkdir_parents p).
Proof.
  intros Hp w. unfold mkdir_parents.
  destruct (make_dirs _ _) as [f | e] eqn:Hmk; simpl; [ | by apply only_outputs_same_fs ].
  intros q. destruct (make_dirs_only_dirs _ _ _ q Hmk) as [H | (Hin & Hn & Hd)].
  - by left.
  - right. right. split; [ by apply Hp | by split ].
Qed.

Lemma only_outputs_write (p : Path) (b : bytes) (w : World) (f : gmap Path Node) :
  In p OUTPUT_PATHS -> write_file p b (fs w) = Ok f ->
  forall W, fs W = f -> only_outputs w W.
Proof.
  intros Hp Hwr W HW q. rewrite HW, (write_file_Ok _ _ _ _ Hwr).
  destruct (decide (p = q)) as [<- | Hne]; [ right; by left | ].
  left. by apply lookup_insert_ne.
Qed.

Lemma only_outputs_copyfile (src dst : Path) :
  In dst OUTPUT_PATHS -> preserves only_outputs (copyfile src dst).
Proof.
  intros Hdst w. unfold copyfile.
  destruct (path_eqb src dst); [ by apply only_outputs_same_fs | ].
  destruct (read_file src (fs w)) as [b | e]; [ | by apply only_outputs_same_fs ].
  destruct (write_file dst b (fs w)) as [f | e] eqn:Hwr; [ | by apply only_outputs_same_fs ].
  by eapply only_outputs_write; [ | exact Hwr | ].
Qed.

Lemma only_outputs_save (p : Path) (fmt : string) (b : bytes) :
  In p OUTPUT_PATHS -> preserves only_outputs (save_bytes p fmt b).
Proof.
  intros Hp w. unfold save_bytes.
  destruct (write_file p b (fs w)) as [f | e] eqn:Hwr; [ | by apply only_outputs_same_fs ].
  by eapply only_outputs_write; [ | exact Hwr | ].
Qed.

Lemma only_outputs_Image_open (p : Path) : preserves only_outputs (Image_open p).
Proof.
  intros w. unfold Image_open.
  destruct (read_file p (fs w)); by apply only_outputs_same_fs.
Qed.

Lemma only_outputs_mask_stage : preserves only_outputs load_macos_standard_mask.
Proof.
  intros w. apply only_outputs_same_fs.
  by destruct (load_macos_standard_mask_extraction_only w) as (_ & _ & _ & H & _).
Qed.

Lemma only_outputs_build (p : Path) :
  preserves only_outputs (build_icons_from_source p).
Proof.
  pose proof only_outputs_refl as Hr. pose proof only_outputs_trans as Ht.
  unfold build_icons_from_source.
  apply preserves_bind; [ exact Ht | | intros _ ].
  { apply only_outputs_mkdir. intros q Hq. apply in_or_app. by left. }
  apply preserves_bind; [ exact Ht | | intros _ ].
  { apply only_outputs_mkdir. intros q Hq. apply in_or_app. by right. }
  apply preserves_bind; [ exact Ht | | intros _ ].
  { apply only_outputs_copyfile. simpl. tauto. }
  apply preserves_bind; [ exact Ht | | intros _ ].
  { apply only_outputs_copyfile. simpl. tauto. }
  apply preserves_bind; [ exact Ht | apply only_outputs_Image_open | intros opened ].
  apply preserves_bind; [ exact Ht | by apply preserves_lift | intros source ].
  apply preserves_bind; [ exact Ht | apply only_outputs_mask_stage | ].
  intros [[mask cs] rs].
  apply preserves_bind; [ exact Ht | by apply preserves_lift | intros icon ].
  apply preserves_bind; [ exact Ht | | intros _ ].
  { apply only_outputs_save. simpl. tauto. }
  apply preserves_bind; [ exact Ht | | intros _ ].
  { apply only_outputs_save. simpl. tauto. }
  apply preserves_bind; [ exact Ht | | intros _ ].
  { apply only_outputs_save. simpl. tauto. }
  by apply preserves_ret.
Qed.

Lemma only_outputs_main : preserves only_outputs main.
Proof.
  pose proof only_outputs_refl as Hr. pose proof only_outputs_trans as Ht.
  assert (Hprint : forall line, preserves only_outputs (print line))
    by (intros line w; by apply only_outputs_same_fs).
  unfold main.
  apply preserves_bind; [ exact Ht | | intros present ].
  { intros w. by apply only_outputs_same_fs. }
  destruct (negb present); [ by apply preserves_raise | ].
  apply preserves_bind; [ exact Ht | apply Hprint | intros _ ].
  apply preserves_bind; [ exact Ht | apply only_outputs_build | intros [cs rs] ].
  repeat (apply preserves_bind; [ exact Ht | apply Hprint | intros _ ]).
  apply Hprint.
Qed.

(** X1.  A run touches nothing but its outputs.  Whatever [main] or
    [build_icons_from_source] does, and however it ends, a path that is
    not one of the five output files keeps the node it had; a path that
    held nothing still holds nothing, unless it is one of the output
    directories, which the run may have created. *)
Theorem run_changes_only_its_outputs (w : World) (q : Path) :
  ~ In q OUTPUT_PATHS ->
  (forall n, fs w !! q = Some n -> fs (snd (main w)) !! q = Some n)
  /\ (fs w !! q = None ->
      fs (snd (main w)) !! q = None
      \/ (In q OUTPUT_DIRS /\ fs (snd (main w)) !! q = Some Dir))
  /\ (forall p n, fs w !! q = Some n ->
                  fs (snd (build_icons_from_source p w)) !! q = Some n)
  /\ (forall p, fs w !! q = None ->
                fs (snd (build_icons_from_source p w)) !! q = None
                \/ (In q OUTPUT_DIRS
                    /\ fs (snd (build_icons_from_source p w)) !! q = Some Dir)).
Proof.
  intros Hq.
  assert (Hgen : forall W, only_outputs w W ->
            (forall n, fs w !! q = Some n -> fs W !! q = Some n)
            /\ (fs w !! q = None ->
                fs W !! q = None \/ (In q OUTPUT_DIRS /\ fs W !! q = Some Dir))).
  { intros W HW. destruct (HW q) as [E | [O | (D & N & S)]]; [ | done | ].
    - split; [ intros n Hn; congruence | intros Hn; left; congruence ].
    - split; [ intros n Hn; congruence | intros _; right; by split ]. }
  destruct (Hgen _ (only_outputs_main w)) as [H1 H2].
  split; [ exact H1 | ]. split; [ exact H2 | ].
  split; intros p; [ intros n | ]; apply (Hgen _ (only_outputs_build p w)).
Qed.

End Frame.

(** ** From the result of a loop back to the candidates *)

Section LoopInversion.

Context {A : Type}.
Variable loop : list Path -> list string -> M (A * Path).
Variable outcome : gmap Path Node -> Path -> Outcome A.
Variable header : string.

Hypothesis loop_nil : forall errs w,
  loop [] errs w = (Raise (RuntimeError (header +:+ format_errors errs)), w).

Hypothesis loop_step : forall c w,
  exists W,
    extraction_only w W
    /\ forall rest errs,
        loop (c :: rest) errs w
        = match outcome (fs w) c with
          | Found a => (Ok (a, c), W)
          | Failed m => loop rest (errs ++ [m]) W
          | Aborted e => (Raise e, W)
          end.

Lemma loop_inversion (cands : list Path) :
  forall errs w,
    (exists msgs,
        Forall2 (fun c m => outcome (fs w) c = Failed m) cands msgs
        /\ fst (loop cands errs w)
           = Raise (RuntimeError (header +:+ format_errors (errs ++ msgs))))
    \/ (exists pre c post msgs,
           cands = pre ++ c :: post
           /\ Forall2 (fun c m => outcome (fs w) c = Failed m) pre msgs
           /\ match outcome (fs w) c with
              | Found a => fst (loop cands errs w) = Ok (a, c)
              | Failed _ => False
              | Aborted e => fst (loop cands errs w) = Raise e
              end).
Proof.
  induction cands as [ | c cands IH]; intros errs w.
  - left. exists []. split; [ constructor | ].
    by rewrite loop_nil, app_nil_r.
  - destruct (loop_step c w) as (W & HW & Hstep).
    assert (Hfs : fs W = fs w) by (by destruct HW as (_ & _ & _ & Hfs & _)).
    destruct (outcome (fs w) c) as [a | m | e] eqn:Hc.
    + right. exists [], c, cands, []. split; [ reflexivity | ].
      split; [ constructor | ]. by rewrite Hc, Hstep.
    + destruct (IH (errs ++ [m]) W)
        as [(msgs & Hall & Hrun) | (pre & d & post & msgs & -> & Hall & Hd)];
        rewrite Hfs in *.
      * left. exists (m :: msgs). split; [ by constructor | ].
        rewrite Hstep, Hrun. by rewrite <- app_assoc.
      * right. exists (c :: pre), d, post, (m :: msgs).
        split; [ reflexivity | ]. split; [ by constructor | ].
        by rewrite Hstep.
    + right. exists [], c, cands, []. split; [ reflexivity | ].
      split; [ constructor | ]. by rewrite Hc, Hstep.
Qed.

Lemma loop_returns_first_found (cands : list Path) (errs : list string)
    (w : World) (a : A) (c : Path) :
  fst (loop cands errs w) = Ok (a, c) ->
  exists pre post msgs,
    cands = pre ++ c :: post
    /\ Forall2 (fun c m => outcome (fs w) c = Failed m) pre msgs
    /\ outcome (fs w) c = Found a.
Proof.
  intros Hrun.
  destruct (loop_inversion cands errs w)
    as [(msgs & _ & Hr) | (pre & d & post & msgs & Hc & Hall & Hd)];
    [ congruence | ].
  destruct (outcome (fs w) d) as [b | m | e] eqn:Ed; [ | done | congruence ].
  rewrite Hrun in Hd. inversion Hd; subst b d.
  by exists pre, post, msgs.
Qed.

Lemma loop_raises_exhausted_or_aborted (cands : list Path) (errs : list string)
    (w : World) (e : Exn) :
  fst (loop cands errs w) = Raise e ->
  (exists msgs,
      Forall2 (fun c m => outcome (fs w) c = Failed m) cands msgs
      /\ e = RuntimeError (header +:+ format_errors (errs ++ msgs)))
  \/ (exists pre c post msgs,
         cands = pre ++ c :: post
         /\ Forall2 (fun c m => outcome (fs w) c = Failed m) pre msgs
         /\ outcome (fs w) c = Aborted e).
Proof.
  intros Hrun.
  destruct (loop_inversion cands errs w)
    as [(msgs & Hall & Hr) | (pre & d & post & msgs & Hc & Hall & Hd)].
  - left. exists msgs. split; [ assumption | congruence ].
  - right. exists pre, d, post, msgs. split; [ assumption | ].
    split; [ assumption | ].
    destruct (outcome (fs w) d) as [b | m | e'] eqn:Ed; [ congruence | done | ].
    congruence.
Qed.

End LoopInversion.

Section Loaders.

Context {imaging : Imaging} {host : Host}.

Lemma container_returns_first_found (tool : string) (cands : list Path)
    (errs : list string) (w : World) (bbox : BBox) (c : Path) :
  fst (container_loop tool cands errs w) = Ok (bbox, c) ->
  exists pre post msgs,
    cands = pre ++ c :: post
    /\ Forall2 (fun p m => car_outcome (fs w) tool p = Failed m) pre msgs
    /\ car_outcome (fs w) tool c = Found bbox.
Proof.
  apply (loop_returns_first_found (container_loop tool)
           (fun f c => car_outcome f tool c) container_header
           (container_loop_nil tool) (container_loop_step tool)).
Qed.

Lemma shape_returns_first_found (tool : string) (cands : list Path)
    (errs : list string) (w : World) (alpha : Image Z) (c : Path) :
  fst (shape_loop tool cands errs w) = Ok (alpha, c) ->
  exists pre post msgs,
    cands = pre ++ c :: post
    /\ Forall2 (fun p m => icns_outcome (fs w) tool p = Failed m) pre msgs
    /\ icns_outcome (fs w) tool c = Found alpha.
Proof.
  apply (loop_returns_first_found (shape_loop tool)
           (fun f c => icns_outcome f tool c) shape_header
           (shape_loop_nil tool) (shape_loop_step tool)).
Qed.

Lemma container_raises (tool : string) (cands : list Path)
    (errs : list string) (w : World) (e : Exn) :
  fst (container_loop tool cands errs w) = Raise e ->
  (exists msgs,
      Forall2 (fun c m => car_outcome (fs w) tool c = Failed m) cands msgs
      /\ e = RuntimeError (container_header +:+ format_errors (errs ++ msgs)))
  \/ (exists pre c post msgs,
         cands = pre ++ c :: post
         /\ Forall2 (fun c m => car_outcome (fs w) tool c = Failed m) pre msgs
         /\ car_outcome (fs w) tool c = Aborted e).
Proof.
  apply (loop_raises_exhausted_or_aborted (container_loop tool)
           (fun f c => car_outcome f tool c) container_header
           (container_loop_nil tool) (container_loop_step tool)).
Qed.

Lemma shape_raises (tool : string) (cands : list Path)
    (errs : list string) (w : World) (e : Exn) :
  fst (shape_loop tool cands errs w) = Raise e ->
  (exists msgs,
      Forall2 (fun c m => icns_outcome (fs w) tool c = Failed m) cands msgs
      /\ e = RuntimeError (shape_header +:+ format_errors (errs ++ msgs)))
  \/ (exists pre c post msgs,
         cands = pre ++ c :: post
         /\ Forall2 (fun c m => icns_outcome (fs w) tool c = Failed m) pre msgs
         /\ icns_outcome (fs w) tool c = Aborted e).
Proof.
  apply (loop_raises_exhausted_or_aborted (shape_loop tool)
           (fun f c => icns_outcome f tool c) shape_header
           (shape_loop_nil tool) (shape_loop_step tool)).
Qed.

(** X4.  From the result of a loader back to the candidates.  A loader
    that returns [(value, c)] found [c] in its list, every candidate
    before [c] failed with a diagnostic, and the value is the one
    extracted from [c].  A loader that raises has either seen every
    candidate fail, and raises the summary of their diagnostics, or met
    an exception at the first candidate that did not fail, and raises
    that exception. *)
Theorem loader_result_names_first_decisive_candidate (tool : string) (w : World) :
  (forall bbox c,
      fst (load_macos_container_bbox tool w) = Ok (bbox, c) ->
      exists pre post msgs,
        MACOS_ICON_CAR_CANDIDATES = pre ++ c :: post
        /\ Forall2 (fun p m => car_outcome (fs w) tool p = Failed m) pre msgs
        /\ car_outcome (fs w) tool c = Found bbox)
  /\ (forall alpha c,
      fst (load_macos_rounded_shape_mask tool w) = Ok (alpha, c) ->
      exists pre post msgs,
        MACOS_ICON_ICNS_CANDIDATES = pre ++ c :: post
        /\ Forall2 (fun p m => icns_outcome (fs w) tool p = Failed m) pre msgs
        /\ icns_outcome (fs w) tool c = Found alpha)
  /\ (forall e,
      fst (load_macos_container_bbox tool w) = Raise e ->
      (exists msgs,
          Forall2 (fun c m => car_outcome (fs w) tool c = Failed m)
                  MACOS_ICON_CAR_CANDIDATES msgs
          /\ e = RuntimeError (container_header +:+ format_errors msgs))
      \/ (exists pre c post msgs,
             MACOS_ICON_CAR_CANDIDATES = pre ++ c :: post
             /\ Forall2 (fun p m => car_outcome (fs w) tool p = Failed m) pre msgs
             /\ car_outcome (fs w) tool c = Aborted e))
  /\ (forall e,
      fst (load_macos_rounded_shape_mask tool w) = Raise e ->
      (exists msgs,
          Forall2 (fun c m => icns_outcome (fs w) tool c = Failed m)
                  MACOS_ICON_ICNS_CANDIDATES msgs
          /\ e = RuntimeError (shape_header +:+ format_errors msgs))
      \/ (exists pre c post msgs,
             MACOS_ICON_ICNS_CANDIDATES = pre ++ c :: post
             /\ Forall2 (fun p m => icns_outcome (fs w) tool p = Failed m) pre msgs
             /\ icns_outcome (fs w) tool c = Aborted e)).
Proof.
  split; [ | split; [ | split ] ].
  - intros bbox c. apply container_returns_first_found.
  - intros alpha c. apply shape_returns_first_found.
  - intros e. apply (container_raises tool MACOS_ICON_CAR_CANDIDATES []).
  - intros e. apply (shape_raises tool MACOS_ICON_ICNS_CANDIDATES []).
Qed.

End Loaders.

(** ** The box of the non-zero pixels *)

Lemma count_from_bounds (n : nat) :
  forall start x, In x (count_from n start) -> start <= x < start + Z.of_nat n.
Proof.
  induction n as [ | n IH]; intros start x Hx; simpl in Hx; [ done | ].
  destruct Hx as [<- | Hx]; [ lia | ]. apply IH in Hx. lia.
Qed.

Lemma range_bounds (n : N) (x : Z) : In x (range n) -> 0 <= x < Z.of_N n.
Proof.
  intros Hx. apply count_from_bounds in Hx. lia.
Qed.

Lemma filter_count_from_head (f : Z -> bool) (n : nat) :
  forall start x0 rest,
    List.filter f (count_from n start) = x0 :: rest ->
    forall x, In x rest -> x0 < x.
Proof.
  induction n as [ | n IH]; intros start x0 rest Hf x Hx; simpl in Hf; [ done | ].
  destruct (f start).
  - inversion Hf; subst.
    apply filter_In in Hx as [Hx _]. apply count_from_bounds in Hx. lia.
  - by eapply IH.
Qed.

Lemma last_cons_cases {A : Type} (l : list A) (a : A) :
  List.last (a :: l) a = a \/ In (List.last (a :: l) a) l.
Proof.
  revert a. induction l as [ | b l IH]; intros a; [ by left | ].
  right. change (List.last (a :: b :: l) a) with (List.last (b :: l) a).
  destruct l as [ | c l]; [ by left | ].
  change (List.last (b :: c :: l) a) with (List.last (c :: l) a).
  destruct (IH b) as [H | H].
  - change (List.last (b :: c :: l) b) with (List.last (c :: l) b) in H.
    right.
    assert (E : forall d, List.last (c :: l) d = List.last (c :: l) b).
    { intros d. clear. revert c. induction l as [ | x l IHl]; intros c; [ done | ].
      change (List.last (c :: x :: l) d) with (List.last (x :: l) d).
      change (List.last (c :: x :: l) b) with (List.last (x :: l) b).
      apply IHl. }
    rewrite (E a).
    clear -l. revert c. induction l as [ | x l IHl]; intros c; [ by left | ].
    right. change (List.last (c :: x :: l) b) with (List.last (x :: l) b). apply IHl.
  - right.
    assert (E : forall d, List.last (c :: l) d = List.last (c :: l) b).
    { intros d. clear. revert c. induction l as [ | x l IHl]; intros c; [ done | ].
      change (List.last (c :: x :: l) d) with (List.last (x :: l) d).
      change (List.last (c :: x :: l) b) with (List.last (x :: l) b).
      apply IHl. }
    rewrite (E a).
    clear -l. revert c. induction l as [ | x l IHl]; intros c; [ by left | ].
    right. change (List.last (c :: x :: l) b) with (List.last (x :: l) b). apply IHl.
Qed.

Lemma filter_range_span (f : Z -> bool) (n : N) (x0 : Z) (rest : list Z) :
  List.filter f (range n) = x0 :: rest ->
  0 <= x0 /\ x0 <= List.last (x0 :: rest) x0 < Z.of_N n.
Proof.
  intros Hf.
  assert (Hin : forall x, In x (x0 :: rest) -> 0 <= x < Z.of_N n).
  { intros x Hx. rewrite <- Hf in Hx. apply filter_In in Hx as [Hx _].
    by apply range_bounds. }
  pose proof (Hin x0 (or_introl eq_refl)) as H0.
  destruct (last_cons_cases rest x0) as [-> | Hl]; [ lia | ].
  pose proof (filter_count_from_head f _ _ _ _ Hf _ Hl).
  pose proof (Hin _ (or_intror Hl)). lia.
Qed.

(** A box that [getbbox] gives is not empty and lies in the image. *)
Lemma getbbox_inside (im : Image Z) (x0 y0 x1 y1 : Z) :
  getbbox im = Some (x0, y0, x1, y1) ->
  (0 <= x0 < x1 /\ x1 <= Z.of_N (width im))
  /\ (0 <= y0 < y1 /\ y1 <= Z.of_N (height im)).
Proof.
  unfold getbbox. cbv zeta.
  destruct (List.filter (col_nonzero im (range (height im))) (range (width im)))
    as [ | a xs] eqn:Hxs; [ discriminate | ].
  destruct (List.filter (row_nonzero im (range (width im))) (range (height im)))
    as [ | b ys] eqn:Hys; [ discriminate | ].
  intros H; inversion H; subst.
  apply filter_range_span in Hxs. apply filter_range_span in Hys.
  change (match xs with [] => x0 | _ :: _ => List.last xs x0 end)
    with (List.last (x0 :: xs) x0).
  change (match ys with [] => y0 | _ :: _ => List.last ys y0 end)
    with (List.last (y0 :: ys) y0).
  lia.
Qed.

Section MaskGeometry.

Context {imaging : Imaging} {host : Host}.

Lemma container_mask_size (rgba : Image RGBA) :
  size (container_mask rgba) = (ICON_CANVAS_SIZE, ICON_CANVAS_SIZE).
Proof.
  unfold container_mask. cbv zeta.
  destruct (size_eqb _ _) eqn:E; cbn [negb]; [ | reflexivity ].
  unfold size_eqb, size in E. cbn [fst snd getchannel_A width height] in E.
  apply andb_true_iff in E as [E1 E2]. apply N.eqb_eq in E1, E2.
  unfold size. cbn [getchannel_A width height]. by rewrite E1, E2.
Qed.

Lemma tool_outcome_Found {A : Type} (f : gmap Path Node) (args : list string)
    (c : Path) (check : Iconset -> Outcome A) (a : A) :
  tool_outcome f args c check = Found a ->
  node_exists f c = true
  /\ returncode (iconutil args (f !! c)) = 0
  /\ check (produced (iconutil args (f !! c))) = Found a.
Proof.
  unfold tool_outcome. destruct (node_exists f c); cbn [negb]; [ | discriminate ].
  cbv zeta. destruct (captured _) as [[out err] | e]; [ | discriminate ].
  destruct (returncode _ =? 0) eqn:E; [ | discriminate ].
  apply Z.eqb_eq in E. by intros H.
Qed.

Lemma tool_outcome_Aborted {A : Type} (f : gmap Path Node) (args : list string)
    (c : Path) (check : Iconset -> Outcome A) (e : Exn) :
  tool_outcome f args c check = Aborted e ->
  captured (iconutil args (f !! c)) = Raise e
  \/ check (produced (iconutil args (f !! c))) = Aborted e.
Proof.
  unfold tool_outcome. destruct (node_exists f c); cbn [negb]; [ | discriminate ].
  cbv zeta. destruct (captured _) as [[out err] | e']; [ | intros H; inversion H; by left ].
  destruct (returncode _ =? 0); [ by right | discriminate ].
Qed.

Lemma rgba_of_raise (file : ImageFile) (e : Exn) :
  rgba_of file = Raise e -> exists m, e = OSError m.
Proof.
  unfold rgba_of. destruct (file_rgba file); intros H; inversion H; eauto.
Qed.

Lemma container_check_Found (c : Path) (entries : Iconset) (bbox : BBox) :
  container_check c entries = Found bbox ->
  exists opened rgba,
    open_entry entries ICONSET_SOURCE_PNG_NAME = Ok opened
    /\ rgba_of opened = Ok rgba
    /\ getbbox (container_mask rgba) = Some bbox.
Proof.
  unfold container_check.
  destruct (entry_exists entries ICONSET_SOURCE_PNG_NAME); cbn [negb]; [ | discriminate ].
  destruct (open_entry _ _) as [opened | e] eqn:Ho; [ | discriminate ].
  destruct (rgba_of opened) as [rgba | e] eqn:Hr; [ | discriminate ].
  destruct (getbbox _) as [b | ] eqn:Hb; [ | discriminate ].
  intros H; inversion H; subst. by exists opened, rgba.
Qed.

Lemma container_check_Aborted (c : Path) (entries : Iconset) (e : Exn) :
  container_check c entries = Aborted e -> exists m, e = OSError m.
Proof.
  unfold container_check.
  destruct (entry_exists entries ICONSET_SOURCE_PNG_NAME); cbn [negb]; [ | discriminate ].
  destruct (open_entry _ _) as [opened | e'] eqn:Ho.
  - destruct (rgba_of opened) as [rgba | e'] eqn:Hr.
    + destruct (getbbox _); discriminate.
    + intros H; inversion H; subst. eapply rgba_of_raise; eassumption.
  - intros H; inversion H; subst. eapply open_entry_raise; eassumption.
Qed.

Lemma shape_check_Found (c : Path) (entries : Iconset) (alpha : Image Z) :
  shape_check c entries = Found alpha ->
  exists largest opened rgba sb,
    select_names entries (glob_png entries) None (-1) = Some largest
    /\ open_entry entries largest = Ok opened
    /\ rgba_of opened = Ok rgba
    /\ alpha = getchannel_A rgba
    /\ getbbox alpha = Some sb.
Proof.
  unfold shape_check.
  destruct (select_names _ _ _ _) as [largest | ] eqn:Hs; [ | discriminate ].
  destruct (open_entry _ _) as [opened | e] eqn:Ho; [ | discriminate ].
  destruct (rgba_of opened) as [rgba | e] eqn:Hr; [ | discriminate ].
  destruct (getbbox _) as [sb | ] eqn:Hb; [ | discriminate ].
  intros H; inversion H; subst. by exists largest, opened, rgba, sb.
Qed.

Lemma shape_check_Aborted (c : Path) (entries : Iconset) (e : Exn) :
  shape_check c entries = Aborted e -> exists m, e = OSError m.
Proof.
  unfold shape_check.
  destruct (select_names _ _ _ _) as [largest | ]; [ | discriminate ].
  destruct (open_entry _ _) as [opened | e'] eqn:Ho.
  - destruct (rgba_of opened) as [rgba | e'] eqn:Hr.
    + destruct (getbbox _); discriminate.
    + intros H; inversion H; subst. eapply rgba_of_raise; eassumption.
  - intros H; inversion H; subst. eapply open_entry_raise; eassumption.
Qed.

(** The box of a container that was found. *)
Lemma car_outcome_Found_box (f : gmap Path Node) (tool : string) (c : Path)
    (x0 y0 x1 y1 : Z) :
  car_outcome f tool c = Found (x0, y0, x1, y1) ->
  0 <= x0 < x1 /\ x1 <= 1024 /\ 0 <= y0 < y1 /\ y1 <= 1024.
Proof.
  intros H. apply tool_outcome_Found in H as (_ & _ & H).
  apply container_check_Found in H as (opened & rgba & _ & _ & Hb).
  apply getbbox_inside in Hb.
  pose proof (container_mask_size rgba) as Hs. unfold size in Hs.
  assert (Hw : Z.of_N (width (container_mask rgba)) = 1024)
    by (pose proof (f_equal fst Hs) as E; cbn [fst] in E; by rewrite E).
  assert (Hh : Z.of_N (height (container_mask rgba)) = 1024)
    by (pose proof (f_equal snd Hs) as E; cbn [snd] in E; by rewrite E).
  lia.
Qed.

Lemma icns_outcome_Found_alpha (f : gmap Path Node) (tool : string) (c : Path)
    (alpha : Image Z) :
  icns_outcome f tool c = Found alpha -> exists sb, getbbox alpha = Some sb.
Proof.
  intros H. apply tool_outcome_Found in H as (_ & _ & H).
  apply shape_check_Found in H as (? & ? & ? & sb & _ & _ & _ & _ & Hb). eauto.
Qed.

(** With a shape that is not empty and a box inside the canvas,
    [reshape_mask_to_bbox] has two ways to end. *)
Lemma reshape_inside_canvas (alpha : Image Z) (sb : BBox) (x0 y0 x1 y1 : Z) :
  getbbox alpha = Some sb ->
  0 <= x0 < x1 -> x0 < 1024 -> 0 <= y0 < y1 -> y0 < 1024 ->
  reshape_mask_to_bbox alpha (x0, y0, x1, y1)
  = if lanczos (crop alpha sb) (Z.to_N (x1 - x0)) (Z.to_N (y1 - y0)) 0 0 =? 0
    then Ok (pasted_shape alpha sb (x0, y0, x1, y1))
    else Raise (RuntimeError corner_not_transparent).
Proof.
  intros Hb Hx Hx' Hy Hy'. unfold reshape_mask_to_bbox. rewrite Hb.
  destruct (x1 - x0 <=? 0) eqn:E1; [ lia | ].
  destruct (y1 - y0 <=? 0) eqn:E2; [ lia | ]. cbn [orb].
  unfold pasted_shape.
  set (m := paste _ _ x0 y0).
  assert (Hpix : getpixel m x0 y0
                 = Ok (lanczos (crop alpha sb) (Z.to_N (x1 - x0)) (Z.to_N (y1 - y0)) 0 0)).
  { unfold getpixel. subst m. cbn [width height paste Image_new].
    change (Z.of_N ICON_CANVAS_SIZE) with 1024.
    replace (x0 <? 0) with false by lia. replace (y0 <? 0) with false by lia.
    replace (1024 <=? x0) with false by lia.
    replace (1024 <=? y0) with false by lia.
    cbn [orb]. f_equal. cbn [px resize width height paste Image_new].
    unfold in_region. rewrite !Z2N.id by lia.
    replace (x0 <=? x0) with true by lia.
    replace (x0 <? x0 + (x1 - x0)) with true by lia.
    replace (y0 <=? y0) with true by lia.
    replace (y0 <? y0 + (y1 - y0)) with true by lia.
    cbn [andb]. replace (x0 <? 0) with false by lia.
    replace (y0 <? 0) with false by lia. cbn [orb]. by rewrite !Z.sub_diag. }
  rewrite Hpix. by destruct (_ =? 0).
Qed.

Lemma pasted_shape_outside (alpha : Image Z) (sb : BBox) (x0 y0 x1 y1 x y : Z) :
  0 < x1 - x0 -> 0 < y1 - y0 ->
  ~ (x0 <= x < x1 /\ y0 <= y < y1) ->
  px (pasted_shape alpha sb (x0, y0, x1, y1)) x y = 0.
Proof.
  intros Hw Hh Hout. unfold pasted_shape. cbn [px paste Image_new resize width height].
  unfold in_region. rewrite !Z2N.id by lia.
  destruct (x0 <=? x) eqn:B1; [ | reflexivity ].
  destruct (x <? x0 + (x1 - x0)) eqn:B2; [ | reflexivity ].
  destruct (y0 <=? y) eqn:B3; [ | reflexivity ].
  destruct (y <? y0 + (y1 - y0)) eqn:B4; [ | reflexivity ].
  lia.
Qed.

Lemma pasted_shape_pixel (alpha : Image Z) (sb : BBox) (x0 y0 x1 y1 x y : Z) :
  0 < x1 - x0 -> 0 < y1 - y0 ->
  px (pasted_shape alpha sb (x0, y0, x1, y1)) x y
  = if (x0 <=? x) && (x <? x1) && (y0 <=? y) && (y <? y1)
    then lanczos (crop alpha sb) (Z.to_N (x1 - x0)) (Z.to_N (y1 - y0))
                 (x - x0) (y - y0)
    else 0.
Proof.
  intros Hw Hh. unfold pasted_shape.
  cbn [px paste Image_new resize width height]. unfold in_region.
  rewrite !Z2N.id by lia.
  replace (x0 + (x1 - x0)) with x1 by lia.
  replace (y0 + (y1 - y0)) with y1 by lia. reflexivity.
Qed.

Lemma pasted_shape_corner (alpha : Image Z) (sb : BBox) (x0 y0 x1 y1 : Z) :
  0 < x1 - x0 -> 0 < y1 - y0 ->
  px (pasted_shape alpha sb (x0, y0, x1, y1)) x0 y0
  = lanczos (crop alpha sb) (Z.to_N (x1 - x0)) (Z.to_N (y1 - y0)) 0 0.
Proof.
  intros Hw Hh. rewrite pasted_shape_pixel by assumption.
  replace (x0 <=? x0) with true by lia. replace (x0 <? x1) with true by lia.
  replace (y0 <=? y0) with true by lia. replace (y0 <? y1) with true by lia.
  cbn [andb]. by rewrite !Z.sub_diag.
Qed.

End MaskGeometry.

(** ** The exceptions of a computation *)

Section RaisesOnly.

Variable P : Exn -> Prop.

Lemma raises_only_ret {A : Type} (a : A) : raises_only P (ret a).
Proof. intros w e H. discriminate. Qed.

Lemma raises_only_bind_post {A B : Type} (Q : A -> Prop) (m : M A) (k : A -> M B) :
  raises_only P m ->
  (forall w a, fst (m w) = Ok a -> Q a) ->
  (forall a, Q a -> raises_only P (k a)) ->
  raises_only P (bind m k).
Proof.
  intros Hm HQ Hk w e. unfold bind.
  pose proof (Hm w) as Hm'. pose proof (HQ w) as HQ'.
  destruct (m w) as [[a | e'] w']; simpl in *.
  - apply (Hk a); by apply HQ'.
  - intros H; inversion H; subst. by apply Hm'.
Qed.

Lemma raises_only_bind {A B : Type} (m : M A) (k : A -> M B) :
  raises_only P m -> (forall a, raises_only P (k a)) -> raises_only P (bind m k).
Proof.
  intros Hm Hk.
  apply (raises_only_bind_post (fun _ => True)); [ assumption | done | ].
  intros a _. apply Hk.
Qed.

End RaisesOnly.

Section MaskStageOutcomes.

Context {imaging : Imaging} {host : Host}.

Lemma candidate_lists_member (pre post : list Path) (c : Path) (l : list Path) :
  l = pre ++ c :: post -> In c l.
Proof. intros ->. apply in_or_app. right. by left. Qed.

(** The ways the mask stage can end. *)
Lemma mask_stage_inversion (w : World) :
  (platform w <> "darwin"%string
   /\ fst (load_macos_standard_mask w) = Raise (RuntimeError requires_macos))
  \/ (platform w = "darwin"%string /\ which_iconutil w = None
      /\ fst (load_macos_standard_mask w) = Raise (RuntimeError iconutil_missing))
  \/ (exists tool,
        platform w = "darwin"%string /\ which_iconutil w = Some tool
        /\ ((exists e,
                fst (load_macos_container_bbox tool w) = Raise e
                /\ fst (load_macos_standard_mask w) = Raise e)
            \/ (exists bbox cs W1,
                   load_macos_container_bbox tool w = (Ok (bbox, cs), W1)
                   /\ fs W1 = fs w
                   /\ ((exists e,
                           fst (load_macos_rounded_shape_mask tool W1) = Raise e
                           /\ fst (load_macos_standard_mask w) = Raise e)
                       \/ (exists alpha rs,
                              fst (load_macos_rounded_shape_mask tool W1)
                              = Ok (alpha, rs)
                              /\ fst (load_macos_standard_mask w)
                                 = match reshape_mask_to_bbox alpha bbox with
                                   | Ok m => Ok (m, cs, rs)
                                   | Raise e => Raise e
                                   end))))).
Proof.
  unfold load_macos_standard_mask, bind, get_world, raise, lift, ret.
  destruct (String.eqb (platform w) "darwin") eqn:Hp; cbn [negb].
  2: { left. apply String.eqb_neq in Hp. by split. }
  apply String.eqb_eq in Hp. right.
  destruct (which_iconutil w) as [tool | ]; [ right | left; by split ].
  exists tool. split; [ assumption | ]. split; [ reflexivity | ].
  pose proof (container_extraction_only tool MACOS_ICON_CAR_CANDIDATES [] w) as H1.
  unfold load_macos_container_bbox in *.
  destruct (container_loop tool MACOS_ICON_CAR_CANDIDATES [] w)
    as [[[bbox cs] | e] W1]; [ right | left; by exists e ].
  exists bbox, cs, W1. split; [ reflexivity | ].
  split; [ by destruct H1 as (_ & _ & _ & H & _) | ].
  unfold load_macos_rounded_shape_mask.
  destruct (shape_loop tool MACOS_ICON_ICNS_CANDIDATES [] W1)
    as [[[alpha rs] | e] W2]; [ right | left; by exists e ].
  exists alpha, rs. split; [ reflexivity | ].
  by destruct (reshape_mask_to_bbox alpha bbox).
Qed.

(** What the mask stage has found when it comes to reshaping. *)
Lemma mask_stage_reshapes (w : World) (tool : string) (bbox : BBox) (cs : Path)
    (W1 : World) (alpha : Image Z) (rs : Path) :
  load_macos_container_bbox tool w = (Ok (bbox, cs), W1) ->
  fs W1 = fs w ->
  fst (load_macos_rounded_shape_mask tool W1) = Ok (alpha, rs) ->
  exists x0 y0 x1 y1 sb,
    bbox = (x0, y0, x1, y1)
    /\ In cs MACOS_ICON_CAR_CANDIDATES
    /\ In rs MACOS_ICON_ICNS_CANDIDATES
    /\ car_outcome (fs w) tool cs = Found bbox
    /\ icns_outcome (fs w) tool rs = Found alpha
    /\ (0 <= x0 < x1 /\ x1 <= 1024 /\ 0 <= y0 < y1 /\ y1 <= 1024)
    /\ getbbox alpha = Some sb
    /\ reshape_mask_to_bbox alpha bbox
       = if lanczos (crop alpha sb) (Z.to_N (x1 - x0)) (Z.to_N (y1 - y0)) 0 0 =? 0
         then Ok (pasted_shape alpha sb bbox)
         else Raise (RuntimeError corner_not_transparent).
Proof.
  intros Hc Hfs Hs.
  destruct (container_returns_first_found tool MACOS_ICON_CAR_CANDIDATES [] w bbox cs)
    as (pre & post & msgs & Hl & _ & Hfound); [ unfold load_macos_container_bbox in Hc; by rewrite Hc | ].
  destruct (shape_returns_first_found tool MACOS_ICON_ICNS_CANDIDATES [] W1 alpha rs Hs)
    as (pre' & post' & msgs' & Hl' & _ & Hfound').
  rewrite Hfs in Hfound'.
  destruct bbox as [[[x0 y0] x1] y1].
  pose proof (car_outcome_Found_box _ _ _ _ _ _ _ Hfound) as Hbox.
  destruct (icns_outcome_Found_alpha _ _ _ _ Hfound') as [sb Hsb].
  exists x0, y0, x1, y1, sb.
  split; [ reflexivity | ].
  split; [ by eapply candidate_lists_member | ].
  split; [ by eapply candidate_lists_member | ].
  split; [ assumption | ]. split; [ assumption | ]. split; [ assumption | ].
  split; [ assumption | ].
  apply reshape_inside_canvas; [ assumption | lia .. ].
Qed.

Lemma car_outcome_Aborted (f : gmap Path Node) (tool : string) (c : Path) (e : Exn) :
  car_outcome f tool c = Aborted e -> exists m, e = OSError m \/ e = ValueError m.
Proof.
  intros H. apply tool_outcome_Aborted in H. destruct H as [H | H].
  - destruct (captured_raise _ _ H) as [m ->]. eauto.
  - destruct (container_check_Aborted _ _ _ H) as [m ->]. eauto.
Qed.

Lemma icns_outcome_Aborted (f : gmap Path Node) (tool : string) (c : Path) (e : Exn) :
  icns_outcome f tool c = Aborted e -> exists m, e = OSError m \/ e = ValueError m.
Proof.
  intros H. apply tool_outcome_Aborted in H. destruct H as [H | H].
  - destruct (captured_raise _ _ H) as [m ->]. eauto.
  - destruct (shape_check_Aborted _ _ _ H) as [m ->]. eauto.
Qed.

(** The diagnostics of candidates that failed name them. *)
Lemma named_diagnostics (cands : list Path) (msgs : list string) :
  Forall2 (fun c m => exists reason, m = str_path c +:+ ": " +:+ reason) cands msgs ->
  exists reasons, length reasons = length cands /\ msgs = diagnostics cands reasons.
Proof.
  induction 1 as [ | c m cands msgs [reason ->] _ (reasons & Hlen & ->)].
  - by exists [].
  - exists (reason :: reasons). split; [ simpl; by rewrite Hlen | reflexivity ].
Qed.

Lemma mask_stage_raises : raises_only run_error load_macos_standard_mask.
Proof.
  intros w e Hrun. unfold run_error, mask_error.
  destruct (mask_stage_inversion w)
    as [(_ & E) | [(_ & _ & E) | (tool & _ & _ & [(e' & Hc & E) | H])]].
  - rewrite E in Hrun. inversion Hrun; subst. by left.
  - rewrite E in Hrun. inversion Hrun; subst. right. by left.
  - rewrite E in Hrun. inversion Hrun; subst e'.
    destruct (container_raises tool _ [] w e Hc)
      as [(msgs & Hall & ->) | (pre & c & post & msgs & _ & _ & Habort)].
    + right. right. left.
      destruct (named_diagnostics MACOS_ICON_CAR_CANDIDATES msgs)
        as (reasons & Hlen & ->).
      { eapply Forall2_impl; [ exact Hall | ].
        intros c m. apply car_outcome_names_candidate. }
      exists reasons. split; [ assumption | reflexivity ].
    + by destruct (car_outcome_Aborted _ _ _ _ Habort) as [m [-> | ->]].
  - destruct H as (bbox & cs & W1 & Hc & Hfs & [(e' & Hs & E) | (alpha & rs & Hs & E)]).
    + rewrite E in Hrun. inversion Hrun; subst e'.
      destruct (shape_raises tool _ [] W1 e Hs)
        as [(msgs & Hall & ->) | (pre & c & post & msgs & _ & _ & Habort)].
      * right. right. right. left.
        destruct (named_diagnostics MACOS_ICON_ICNS_CANDIDATES msgs)
          as (reasons & Hlen & ->).
        { eapply Forall2_impl; [ exact Hall | ].
          intros c m. apply icns_outcome_names_candidate. }
        exists reasons. split; [ assumption | reflexivity ].
      * by destruct (icns_outcome_Aborted _ _ _ _ Habort) as [m [-> | ->]].
    + destruct (mask_stage_reshapes w tool bbox cs W1 alpha rs Hc Hfs Hs)
        as (x0 & y0 & x1 & y1 & sb & -> & _ & _ & _ & _ & _ & _ & Hre).
      rewrite E, Hre in Hrun.
      destruct (_ =? 0); [ discriminate | ].
      inversion Hrun; subst. right. right. right. by right.
Qed.

Lemma mask_stage_returns (w : World) (mask : Image Z) (cs rs : Path) :
  fst (load_macos_standard_mask w) = Ok (mask, cs, rs) ->
  exists tool x0 y0 x1 y1 alpha sb,
    platform w = "darwin"%string
    /\ which_iconutil w = Some tool
    /\ In cs MACOS_ICON_CAR_CANDIDATES
    /\ In rs MACOS_ICON_ICNS_CANDIDATES
    /\ car_outcome (fs w) tool cs = Found (x0, y0, x1, y1)
    /\ icns_outcome (fs w) tool rs = Found alpha
    /\ (0 <= x0 < x1 /\ x1 <= 1024 /\ 0 <= y0 < y1 /\ y1 <= 1024)
    /\ getbbox alpha = Some sb
    /\ lanczos (crop alpha sb) (Z.to_N (x1 - x0)) (Z.to_N (y1 - y0)) 0 0 = 0
    /\ mask = pasted_shape alpha sb (x0, y0, x1, y1).
Proof.
  intros Hrun.
  destruct (mask_stage_inversion w)
    as [(_ & E) | [(_ & _ & E) | (tool & Hp & Hw & [(e' & Hc & E) | H])]];
    try (rewrite E in Hrun; discriminate).
  destruct H as (bbox & c & W1 & Hc & Hfs & [(e' & Hs & E) | (alpha & r & Hs & E)]);
    [ rewrite E in Hrun; discriminate | ].
  destruct (mask_stage_reshapes w tool bbox c W1 alpha r Hc Hfs Hs)
    as (x0 & y0 & x1 & y1 & sb & -> & Hin & Hin' & Hf & Hf' & Hbox & Hsb & Hre).
  rewrite E, Hre in Hrun.
  destruct (_ =? 0) eqn:Hz; [ | discriminate ].
  inversion Hrun; subst. apply Z.eqb_eq in Hz.
  exists tool, x0, y0, x1, y1, alpha, sb.
  repeat (split; [ assumption || reflexivity | ]). reflexivity.
Qed.

(** X5.  The mask the mask stage returns.  Both sources are candidates
    of their lists; the box found in the container lies inside the
    canvas and is not empty; the mask is a full canvas, 0 outside the
    box and at its top-left corner, and inside the box it is the shape,
    cropped to its own box and resampled to the size of the container
    box. *)
Theorem mask_stage_returns_canvas_mask_inside_container_box
    (w : World) (mask : Image Z) (cs rs : Path) :
  fst (load_macos_standard_mask w) = Ok (mask, cs, rs) ->
  exists tool x0 y0 x1 y1 alpha sb,
    which_iconutil w = Some tool
    /\ In cs MACOS_ICON_CAR_CANDIDATES
    /\ In rs MACOS_ICON_ICNS_CANDIDATES
    /\ car_outcome (fs w) tool cs = Found (x0, y0, x1, y1)
    /\ icns_outcome (fs w) tool rs = Found alpha
    /\ getbbox alpha = Some sb
    /\ (0 <= x0 < x1 /\ x1 <= 1024 /\ 0 <= y0 < y1 /\ y1 <= 1024)
    /\ size mask = (ICON_CANVAS_SIZE, ICON_CANVAS_SIZE)
    /\ px mask x0 y0 = 0
    /\ forall x y,
        px mask x y
        = if (x0 <=? x) && (x <? x1) && (y0 <=? y) && (y <? y1)
          then lanczos (crop alpha sb) (Z.to_N (x1 - x0)) (Z.to_N (y1 - y0))
                       (x - x0) (y - y0)
          else 0.
Proof.
  intros Hrun.
  destruct (mask_stage_returns w mask cs rs Hrun)
    as (tool & x0 & y0 & x1 & y1 & alpha & sb
        & _ & Hw & Hcs & Hrs & Hf & Hf' & Hbox & Hsb & Hz & ->).
  exists tool, x0, y0, x1, y1, alpha, sb.
  repeat (split; [ assumption || reflexivity | ]).
  split; [ | intros x y; apply pasted_shape_pixel; lia ].
  rewrite pasted_shape_corner by lia. exact Hz.
Qed.

End MaskStageOutcomes.

(** ** Whole runs: what is raised, what is printed, what is written *)

Section RunOutcomes.

Context {imaging : Imaging} {host : Host}.

Lemma mkdir_parents_raises (p : Path) : raises_only run_error (mkdir_parents p).
Proof.
  intros w e. destruct (mkdir_parents_cases p w) as [(f & _ & E) | (m & E)];
    rewrite E; intros H; inversion H. done.
Qed.

Lemma copyfile_raises (src dst : Path) : raises_only run_error (copyfile src dst).
Proof.
  intros w e. destruct (copyfile_cases src dst w) as [(b & _ & _ & E) | (m & E)];
    rewrite E; intros H; inversion H. done.
Qed.

Lemma save_bytes_raises (p : Path) (fmt : string) (b : bytes) :
  raises_only run_error (save_bytes p fmt b).
Proof.
  intros w e. destruct (save_bytes_cases p fmt b w) as [E | (m & E)];
    rewrite E; intros H; inversion H. done.
Qed.

Lemma Image_open_raises (p : Path) : raises_only run_error (Image_open p).
Proof.
  intros w e. destruct (Image_open_cases p w) as [(b & f & _ & _ & E) | (m & E)];
    rewrite E; intros H; inversion H. done.
Qed.

Lemma convert_RGBA_raises (file : ImageFile) : raises_only run_error (convert_RGBA file).
Proof.
  intros w e. destruct (convert_RGBA_cases file w) as [(im & _ & E) | (m & E)];
    rewrite E; intros H; inversion H. done.
Qed.

Lemma pasted_shape_size (alpha : Image Z) (sb box : BBox) :
  size (pasted_shape alpha sb box) = (ICON_CANVAS_SIZE, ICON_CANVAS_SIZE).
Proof. by destruct box as [[[x0 y0] x1] y1]. Qed.

Lemma build_desktop_icon_with_canvas_mask (source : Image RGBA) (mask : Image Z) :
  size mask = (ICON_CANVAS_SIZE, ICON_CANVAS_SIZE) ->
  exists icon,
    build_desktop_icon_with_mask source mask = Ok icon
    /\ size icon = (ICON_CANVAS_SIZE, ICON_CANVAS_SIZE).
Proof.
  intros Hm. unfold build_desktop_icon_with_mask, paste_masked.
  rewrite Hm. cbn. eauto.
Qed.

Lemma build_raises (p : Path) : raises_only run_error (build_icons_from_source p).
Proof.
  unfold build_icons_from_source.
  apply raises_only_bind; [ apply mkdir_parents_raises | intros _ ].
  apply raises_only_bind; [ apply mkdir_parents_raises | intros _ ].
  apply raises_only_bind; [ apply copyfile_raises | intros _ ].
  apply raises_only_bind; [ apply copyfile_raises | intros _ ].
  apply raises_only_bind; [ apply Image_open_raises | intros opened ].
  apply raises_only_bind; [ apply convert_RGBA_raises | intros source ].
  apply (raises_only_bind_post run_error
           (fun v => size (fst (fst v)) = (ICON_CANVAS_SIZE, ICON_CANVAS_SIZE)));
    [ apply mask_stage_raises | | ].
  { intros w [[mask cs] rs] Hrun.
    destruct (mask_stage_returns w mask cs rs Hrun)
      as (? & ? & ? & ? & ? & ? & ? & _ & _ & _ & _ & _ & _ & _ & _ & _ & ->).
    apply pasted_shape_size. }
  intros [[mask cs] rs] Hsize. cbn [fst] in Hsize.
  destruct (build_desktop_icon_with_canvas_mask source mask Hsize) as (icon & Hicon & _).
  rewrite Hicon.
  apply raises_only_bind; [ intros w e H; discriminate | intros icon' ].
  apply raises_only_bind; [ apply save_bytes_raises | intros _ ].
  apply raises_only_bind; [ apply save_bytes_raises | intros _ ].
  apply raises_only_bind; [ apply save_bytes_raises | intros _ ].
  apply raises_only_ret.
Qed.

(** X3.  The errors of the script's own.  A [RuntimeError] that leaves
    [build_icons_from_source] or [main] carries one of five messages:
    another platform, [iconutil] missing, either candidate list exhausted
    (the header, then one line for each candidate of the list, in order,
    with its path), the corner not transparent; so the "alpha is empty"
    and "invalid target bbox" errors of [reshape_mask_to_bbox] cannot
    occur in a run.  No [CalledProcessError] leaves them: both loops
    catch it.  [build_icons_from_source] never raises [SystemExit];
    [main] raises it exactly when the master file is missing, with the
    message that names the file. *)
Theorem run_raises_only_expected_errors (w : World) (e : Exn) :
  (forall p, fst (build_icons_from_source p w) = Raise e ->
     match e with
     | RuntimeError m => mask_error m
     | SystemExit _ | CalledProcessError _ _ => False
     | OSError _ | ValueError _ | IndexError _ => True
     end)
  /\ (fst (main w) = Raise e ->
      match e with
      | RuntimeError m =>
          node_exists (fs w) SOURCE_ICON_PATH = true /\ mask_error m
      | SystemExit m =>
          node_exists (fs w) SOURCE_ICON_PATH = false
          /\ m = "[branding] source icon missing: " +:+ str_path SOURCE_ICON_PATH
      | CalledProcessError _ _ => False
      | OSError _ | ValueError _ | IndexError _ =>
          node_exists (fs w) SOURCE_ICON_PATH = true
      end)
  /\ (node_exists (fs w) SOURCE_ICON_PATH = false ->
      fst (main w)
      = Raise (SystemExit ("[branding] source icon missing: "
                             +:+ str_path SOURCE_ICON_PATH))).
Proof.
  split; [ intros p; apply build_raises | ].
  destruct (main_cases w) as [(Hno & E) | (Hyes & r & W & Ebuild & Hr)].
  - rewrite E. split; [ | reflexivity ]. intros H; inversion H. by split.
  - split; [ | congruence ]. destruct r as [v | e'].
    + destruct Hr as (W' & E & _). rewrite E. discriminate.
    + rewrite Hr. intros H; inversion H; subst e'.
      assert (Herr : run_error e)
        by (apply (build_raises SOURCE_ICON_PATH (at_build w)); by rewrite Ebuild).
      destruct e; try done.
Qed.

Lemma same_stdout_refl (w : World) : same_stdout w w.
Proof. reflexivity. Qed.

Lemma same_stdout_trans (w1 w2 w3 : World) :
  same_stdout w1 w2 -> same_stdout w2 w3 -> same_stdout w1 w3.
Proof. unfold same_stdout. congruence. Qed.

Lemma build_keeps_stdout (p : Path) :
  preserves same_stdout (build_icons_from_source p).
Proof.
  pose proof same_stdout_refl as Hr. pose proof same_stdout_trans as Ht.
  assert (Hmk : forall q, preserves same_stdout (mkdir_parents q)).
  { intros q w. unfold mkdir_parents. by destruct (make_dirs _ _). }
  assert (Hcp : forall a b, preserves same_stdout (copyfile a b)).
  { intros a b w. unfold copyfile. destruct (path_eqb a b); [ done | ].
    destruct (read_file a (fs w)); [ | done ]. by destruct (write_file _ _ _). }
  assert (Hsv : forall a f b, preserves same_stdout (save_bytes a f b)).
  { intros a f b w. unfold save_bytes. by destruct (write_file _ _ _). }
  unfold build_icons_from_source.
  apply preserves_bind; [ exact Ht | apply Hmk | intros _ ].
  apply preserves_bind; [ exact Ht | apply Hmk | intros _ ].
  apply preserves_bind; [ exact Ht | apply Hcp | intros _ ].
  apply preserves_bind; [ exact Ht | apply Hcp | intros _ ].
  apply preserves_bind; [ exact Ht | | intros opened ].
  { intros w. unfold Image_open. by destruct (read_file _ _). }
  apply preserves_bind; [ exact Ht | by apply preserves_lift | intros source ].
  apply preserves_bind; [ exact Ht | | ].
  { intros w.
    by destruct (load_macos_standard_mask_extraction_only w) as (_ & _ & _ & _ & H & _). }
  intros [[mask cs] rs].
  apply preserves_bind; [ exact Ht | by apply preserves_lift | intros icon ].
  apply preserves_bind; [ exact Ht | apply Hsv | intros _ ].
  apply preserves_bind; [ exact Ht | apply Hsv | intros _ ].
  apply preserves_bind; [ exact Ht | apply Hsv | intros _ ].
  by apply preserves_ret.
Qed.

Lemma build_returns_candidates (p : Path) (w : World) (cs rs : Path) :
  fst (build_icons_from_source p w) = Ok (cs, rs) ->
  In cs MACOS_ICON_CAR_CANDIDATES /\ In rs MACOS_ICON_ICNS_CANDIDATES.
Proof.
  intros Hrun.
  destruct (build_icons_success p w (snd (build_icons_from_source p w)) (cs, rs))
    as (b & file & source & w1 & w2 & mask & icon & _ & _ & _ & _ & _ & _ & _
        & Hmask & _); [ by apply pair_of_fst | ].
  cbn [fst snd] in Hmask.
  destruct (mask_stage_returns w1 mask cs rs)
    as (? & ? & ? & ? & ? & ? & ? & _ & _ & H1 & H2 & _); [ by rewrite Hmask | ].
  by split.
Qed.

Lemma fold_left_put_line (lines : list string) :
  forall w, stdout (fold_left (fun W line => put_line line W) lines w)
            = stdout w ++ lines.
Proof.
  induction lines as [ | l lines IH]; intros w; cbn [fold_left].
  - by rewrite app_nil_r.
  - rewrite IH. cbn [stdout put_line]. by rewrite <- app_assoc.
Qed.

Lemma main_unfolded (w : World) :
  main w
  = if negb (node_exists (fs w) SOURCE_ICON_PATH)
    then (Raise (SystemExit ("[branding] source icon missing: "
                               +:+ str_path SOURCE_ICON_PATH)),
          log (EvExists SOURCE_ICON_PATH) w)
    else match build_icons_from_source SOURCE_ICON_PATH (at_build w) with
         | (Ok (cs, rs), W) =>
             (Ok tt, fold_left (fun W line => put_line line W)
                               (updated_lines cs rs) W)
         | (Raise e, W) => (Raise e, W)
         end.
Proof.
  unfold main, bind, path_exists, print, raise.
  destruct (node_exists (fs w) SOURCE_ICON_PATH); cbn [negb]; [ | reflexivity ].
  fold (at_build w).
  destruct (build_icons_from_source SOURCE_ICON_PATH (at_build w))
    as [[[cs rs] | e] W]; reflexivity.
Qed.

(** X2.  What [main] prints.  A run that returns has printed the
    "using source icon" line and then the seven "updated" lines, the
    last two naming the candidates the mask came from; a run that stops
    because the master file is missing has printed nothing, changed no
    file and no temporary directory, and only probed the master path;
    a run that fails later has printed the "using source icon" line and
    nothing else. *)
Theorem main_reports_what_it_did (w : World) :
  match fst (main w) with
  | Ok _ =>
      exists cs rs,
        In cs MACOS_ICON_CAR_CANDIDATES /\ In rs MACOS_ICON_ICNS_CANDIDATES
        /\ stdout (snd (main w)) = stdout w ++ using_line :: updated_lines cs rs
  | Raise (SystemExit _) =>
      stdout (snd (main w)) = stdout w
      /\ fs (snd (main w)) = fs w
      /\ tmp (snd (main w)) = tmp w
      /\ events (snd (main w)) = events w ++ [EvExists SOURCE_ICON_PATH]
  | Raise _ => stdout (snd (main w)) = stdout w ++ [using_line]
  end.
Proof.
  pose proof (build_keeps_stdout SOURCE_ICON_PATH (at_build w)) as Hout.
  pose proof (build_raises SOURCE_ICON_PATH (at_build w)) as Herr.
  pose proof (build_returns_candidates SOURCE_ICON_PATH (at_build w)) as Hcands.
  unfold same_stdout in Hout. rewrite main_unfolded.
  destruct (node_exists (fs w) SOURCE_ICON_PATH); cbn [negb]; [ | by split_and! ].
  destruct (build_icons_from_source SOURCE_ICON_PATH (at_build w))
    as [[[cs rs] | e] W]; cbn [fst snd] in *.
  - exists cs, rs. destruct (Hcands cs rs eq_refl) as [H1 H2].
    split; [ assumption | ]. split; [ assumption | ].
    rewrite fold_left_put_line, Hout.
    unfold at_build. cbn [stdout put_line log]. fold using_line.
    by rewrite <- app_assoc.
  - specialize (Herr e eq_refl).
    destruct e; try done; by rewrite Hout.
Qed.

(** X6.  A run of [main] that returns was on macOS with [iconutil]
    found, the master file held bytes that decode to an image, and the
    three composited files hold the PNG, ICO (with the seven sizes) and
    ICNS encodings of one and the same 1024 x 1024 icon, composited from
    that image; the output directories exist. *)
Theorem successful_run_writes_one_icon_in_three_formats (w w' : World) :
  main w = (Ok tt, w') ->
  exists b file source mask icon,
    fs w !! SOURCE_ICON_PATH = Some (File b)
    /\ image_open b = Some file
    /\ file_rgba file = Some source
    /\ platform w = "darwin"%string
    /\ which_iconutil w <> None
    /\ build_desktop_icon_with_mask source mask = Ok icon
    /\ size icon = (ICON_CANVAS_SIZE, ICON_CANVAS_SIZE)
    /\ fs w' !! DESKTOP_ICON_PNG_PATH = Some (File (encode_png icon))
    /\ fs w' !! DESKTOP_ICON_ICO_PATH = Some (File (encode_ico icon ICO_SIZES))
    /\ fs w' !! DESKTOP_ICON_ICNS_PATH = Some (File (encode_icns icon))
    /\ forall q, In q OUTPUT_DIRS -> fs w' !! q = Some Dir.
Proof.
  intros Hmain.
  destruct (main_success _ _ Hmain)
    as (b & file & source & w1 & mask & cs & rs & icon
        & Hb & Hfile & Hsrc & Hpro & Hdirs & _ & _ & Hmask & Hicon & Hfs & _).
  destruct (mask_stage_returns w1 mask cs rs Hmask)
    as (tool & ? & ? & ? & ? & ? & ? & Hp & Hw & _ & _ & _ & _ & _ & _ & _ & Hm).
  destruct Hpro as (Hp1 & Hw1 & _).
  destruct (build_desktop_icon_with_canvas_mask source mask) as (icon' & Hicon' & Hsize).
  { rewrite Hm. apply pasted_shape_size. }
  assert (icon' = icon) as -> by congruence.
  destruct (with_icons_composited icon (fs w1)) as (P1 & P2 & P3).
  exists b, file, source, mask, icon. rewrite Hfs.
  split; [ assumption | ]. split; [ assumption | ]. split; [ assumption | ].
  split; [ rewrite Hp1 in Hp; exact Hp | ].
  split; [ rewrite Hw1 in Hw; change (which_iconutil w = Some tool) in Hw;
           congruence | ].
  split; [ assumption | ]. split; [ assumption | ].
  split; [ assumption | ]. split; [ assumption | ]. split; [ assumption | ].
  intros q Hq. rewrite with_icons_other; [ by apply Hdirs | ].
  intros Hc.
  assert (Ho : In q OUTPUT_PATHS) by (simpl in Hc |- *; tauto).
  destruct (output_is_file q Ho) as [H1 H2].
  apply in_app_or in Hq as [Hq | Hq]; tauto.
Qed.

End RunOutcomes.

(** ** The pixels of the icon *)

Section IconPixels.

Context {imaging : Imaging} {host : Host}.

Lemma reshape_Ok_inversion (alpha m : Image Z) (x0 y0 x1 y1 : Z) :
  reshape_mask_to_bbox alpha (x0, y0, x1, y1) = Ok m ->
  exists sb,
    getbbox alpha = Some sb
    /\ 0 < x1 - x0 /\ 0 < y1 - y0
    /\ m = pasted_shape alpha sb (x0, y0, x1, y1)
    /\ getpixel m x0 y0 = Ok 0.
Proof.
  unfold reshape_mask_to_bbox.
  destruct (getbbox alpha) as [sb | ]; [ | discriminate ].
  destruct (x1 - x0 <=? 0) eqn:E1; [ discriminate | ].
  destruct (y1 - y0 <=? 0) eqn:E2; [ discriminate | ]. cbn [orb].
  destruct (getpixel _ x0 y0) as [v | e] eqn:Hpix; [ | discriminate ].
  destruct (v =? 0) eqn:Hv; [ | discriminate ]. cbn [negb].
  intros H; inversion H; subst m. apply Z.eqb_eq in Hv. subst v.
  exists sb. split; [ reflexivity | ]. split; [ lia | ]. split; [ lia | ].
  split; [ reflexivity | exact Hpix ].
Qed.

Lemma icon_pixel (source : Image RGBA) (mask : Image Z) (icon : Image RGBA) :
  build_desktop_icon_with_mask source mask = Ok icon ->
  forall x y,
    px icon x y
    = if in_region 0 0 ICON_CANVAS_SIZE ICON_CANVAS_SIZE x y
      then blend (0, 0, 0, 0) (fit_lanczos source ICON_CANVAS_SIZE ICON_CANVAS_SIZE x y)
                 (px mask x y)
      else (0, 0, 0, 0).
Proof.
  unfold build_desktop_icon_with_mask, paste_masked.
  destruct (negb _); [ discriminate | ].
  intros H; inversion H. intros x y.
  cbn [px ImageOps_fit Image_new width height]. by rewrite !Z.sub_0_r.
Qed.

Lemma icon_clear_where_mask_is (source : Image RGBA) (mask : Image Z)
    (icon : Image RGBA) (x y : Z) :
  (forall d s, blend d s 0 = d) ->
  build_desktop_icon_with_mask source mask = Ok icon ->
  px mask x y = 0 -> px icon x y = (0, 0, 0, 0).
Proof.
  intros Hblend Hicon Hm. rewrite (icon_pixel _ _ _ Hicon), Hm, Hblend.
  by destruct (in_region _ _ _ _ _ _).
Qed.

(** X7.  Where the mask is 0 the icon is transparent.  If a masked paste
    keeps the destination where the mask is 0, the icon composited
    with a mask of [reshape_mask_to_bbox] is (0, 0, 0, 0) wherever the
    mask is 0, so everywhere outside the target box and at its top-left
    corner; with the mask of the mask stage, everywhere outside the box
    found in the container and at its corner. *)
Theorem icon_is_clear_outside_the_container_box :
  (forall d s, blend d s 0 = d) ->
  (forall (alpha mask : Image Z) (source icon : Image RGBA) (x0 y0 x1 y1 : Z),
      reshape_mask_to_bbox alpha (x0, y0, x1, y1) = Ok mask ->
      build_desktop_icon_with_mask source mask = Ok icon ->
      (forall x y, px mask x y = 0 -> px icon x y = (0, 0, 0, 0))
      /\ (forall x y, ~ (x0 <= x < x1 /\ y0 <= y < y1) -> px icon x y = (0, 0, 0, 0))
      /\ (0 <= x0 < 1024 -> 0 <= y0 < 1024 -> px icon x0 y0 = (0, 0, 0, 0)))
  /\ (forall (w : World) (mask : Image Z) (cs rs : Path) (source icon : Image RGBA),
      fst (load_macos_standard_mask w) = Ok (mask, cs, rs) ->
      build_desktop_icon_with_mask source mask = Ok icon ->
      exists (tool : string) (x0 y0 x1 y1 : Z),
        which_iconutil w = Some tool
        /\ car_outcome (fs w) tool cs = Found (x0, y0, x1, y1)
        /\ (forall x y, ~ (x0 <= x < x1 /\ y0 <= y < y1) ->
                        px icon x y = (0, 0, 0, 0))
        /\ px icon x0 y0 = (0, 0, 0, 0)).
Proof.
  intros Hblend. split.
  - intros alpha mask source icon x0 y0 x1 y1 Hmask Hicon.
    destruct (reshape_Ok_inversion _ _ _ _ _ _ Hmask)
      as (sb & _ & Hw & Hh & -> & Hpix).
    split; [ intros x y; by apply (icon_clear_where_mask_is source) | ].
    split.
    + intros x y Hout. eapply icon_clear_where_mask_is; [ done | exact Hicon | ].
      by apply pasted_shape_outside.
    + intros Hx Hy. eapply icon_clear_where_mask_is; [ done | exact Hicon | ].
      apply getpixel_in_range in Hpix; [ assumption | | ].
      * by change (Z.of_N (width (pasted_shape alpha sb (x0, y0, x1, y1))))
          with 1024.
      * by change (Z.of_N (height (pasted_shape alpha sb (x0, y0, x1, y1))))
          with 1024.
  - intros w mask cs rs source icon Hmask Hicon.
    destruct (mask_stage_returns w mask cs rs Hmask)
      as (tool & x0 & y0 & x1 & y1 & alpha & sb
          & _ & Hw & _ & _ & Hf & _ & Hbox & _ & Hz & ->).
    exists tool, x0, y0, x1, y1.
    split; [ assumption | ]. split; [ assumption | ]. split.
    + intros x y Hxy. eapply icon_clear_where_mask_is; [ done | exact Hicon | ].
      apply pasted_shape_outside; [ lia | lia | assumption ].
    + eapply icon_clear_where_mask_is; [ done | exact Hicon | ].
      rewrite pasted_shape_corner by lia. exact Hz.
Qed.

End IconPixels.

(** ** Which PNG is the largest *)

Section FirstLargest.

Context {imaging : Imaging} {host : Host}.

(** The running selection: the result is the selection so far, and
    nothing after it is larger, or a later name that is larger than
    everything readable before it. *)
Lemma select_names_first_max (entries : Iconset) (names : list string) :
  forall lp la p,
    select_names entries names lp la = Some p ->
    (lp = Some p
     /\ forall q fq, In q names -> open_entry entries q = Ok fq -> area_of fq <= la)
    \/ (exists pre post f,
           names = pre ++ p :: post
           /\ open_entry entries p = Ok f
           /\ la < area_of f
           /\ (forall q fq, In q pre -> open_entry entries q = Ok fq ->
                            area_of fq < area_of f)
           /\ (forall q fq, In q post -> open_entry entries q = Ok fq ->
                            area_of fq <= area_of f)).
Proof.
  induction names as [ | n names IH]; intros lp la p Hsel; simpl in Hsel.
  - left. split; [ assumption | ]. intros q fq [].
  - destruct (open_entry entries n) as [fn | e] eqn:Hn.
    + destruct (la <? area_of fn) eqn:Hlt.
      * apply Z.ltb_lt in Hlt.
        destruct (IH _ _ _ Hsel) as [(Hp & Hrest) | (pre & post & f & -> & Hf & Hgt & Hpre & Hpost)].
        -- inversion Hp; subst n. right. exists [], names, fn.
           split; [ reflexivity | ]. split; [ assumption | ]. split; [ assumption | ].
           split; [ intros q fq [] | assumption ].
        -- right. exists (n :: pre), post, f.
           split; [ reflexivity | ]. split; [ assumption | ]. split; [ lia | ].
           split; [ | assumption ].
           intros q fq [<- | Hq] Hopen; [ | by eapply Hpre ].
           rewrite Hn in Hopen. inversion Hopen; subst. lia.
      * apply Z.ltb_ge in Hlt.
        destruct (IH _ _ _ Hsel) as [(Hp & Hrest) | (pre & post & f & -> & Hf & Hgt & Hpre & Hpost)].
        -- left. split; [ assumption | ].
           intros q fq [<- | Hq] Hopen; [ | by eapply Hrest ].
           rewrite Hn in Hopen. inversion Hopen; subst. lia.
        -- right. exists (n :: pre), post, f.
           split; [ reflexivity | ]. split; [ assumption | ]. split; [ assumption | ].
           split; [ | assumption ].
           intros q fq [<- | Hq] Hopen; [ | by eapply Hpre ].
           rewrite Hn in Hopen. inversion Hopen; subst. lia.
    + destruct (IH _ _ _ Hsel) as [(Hp & Hrest) | (pre & post & f & -> & Hf & Hgt & Hpre & Hpost)].
      * left. split; [ assumption | ].
        intros q fq [<- | Hq] Hopen; [ congruence | by eapply Hrest ].
      * right. exists (n :: pre), post, f.
        split; [ reflexivity | ]. split; [ assumption | ]. split; [ assumption | ].
        split; [ | assumption ].
        intros q fq [<- | Hq] Hopen; [ congruence | by eapply Hpre ].
Qed.

(** X8.  Ties go to the first.  The PNG [select_largest_icon_png]
    returns has a name ending in ".png", can be opened, is strictly
    larger than every readable PNG listed before it and at least as
    large as every readable PNG listed after it. *)
Theorem largest_png_is_the_first_of_the_largest (d : nat) (w : World) (p : string) :
  fst (select_largest_icon_png d w) = Ok (Some p) ->
  ends_with ".png" p = true
  /\ exists pre post f,
      glob_png (entries_of w d) = pre ++ p :: post
      /\ open_entry (entries_of w d) p = Ok f
      /\ (forall q fq, In q pre -> open_entry (entries_of w d) q = Ok fq ->
                       area_of fq < area_of f)
      /\ (forall q fq, In q post -> open_entry (entries_of w d) q = Ok fq ->
                       area_of fq <= area_of f).
Proof.
  rewrite select_largest_icon_png_spec. cbn [fst]. intros H. inversion H as [Hsel].
  destruct (select_names_first_max _ _ _ _ _ Hsel)
    as [(Hp & _) | (pre & post & f & Hl & Hf & _ & Hpre & Hpost)]; [ discriminate | ].
  split.
  - assert (Hin : In p (glob_png (entries_of w d)))
      by (rewrite Hl; apply in_or_app; right; by left).
    unfold glob_png in Hin. by apply filter_In in Hin as [_ Hin].
  - by exists pre, post, f.
Qed.

End FirstLargest.

(** ** Temporary directories *)

Section TemporaryDirectories.

Context {imaging : Imaging} {host : Host}.

Lemma container_loop_step_world (tool : string) (c : Path) (w : World)
    (rest : list Path) (errs : list string) :
  container_loop tool (c :: rest) errs w
  = match car_outcome (fs w) tool c with
    | Found b => (Ok (b, c), after_candidate (car_args tool c) car_prefix c w)
    | Failed m =>
        container_loop tool rest (errs ++ [m])
                       (after_candidate (car_args tool c) car_prefix c w)
    | Aborted e => (Raise e, after_candidate (car_args tool c) car_prefix c w)
    end.
Proof.
  unfold car_outcome, tool_outcome, after_candidate.
  pose (w1 := log (EvExists c) w).
  assert (Hprobe : path_exists c w = (Ok (node_exists (fs w) c), w1)) by reflexivity.
  cbn [container_loop]. rewrite (bind_Ok _ _ _ _ _ Hprobe).
  destruct (node_exists (fs w) c) eqn:Hex; cbn [negb]; cbv zeta; [ | reflexivity ].
  fold w1.
  pose (argv := car_args tool c ++ [str_iconset_dir w1 car_prefix (next_tmp w1)]).
  set (r := iconutil (car_args tool c) (fs w !! c)).
  pose proof (extract_car_spec tool c w1) as Hx. cbv zeta in Hx.
  change (fs w1) with (fs w) in Hx. fold r argv in Hx. fold argv.
  unfold bind at 1. unfold try at 1. rewrite Hx.
  destruct (captured r) as [[out err] | e] eqn:Hcap;
    [ | by destruct (captured_raise _ _ Hcap) as [m ->] ].
  destruct (returncode r =? 0) eqn:Hrc; [ | reflexivity ].
  unfold bind, finally. rewrite container_body_spec, after_run_entries.
  unfold cleanup, ret.
  destruct (container_check c (produced r)); reflexivity.
Qed.

Lemma shape_loop_step_world (tool : string) (c : Path) (w : World)
    (rest : list Path) (errs : list string) :
  shape_loop tool (c :: rest) errs w
  = match icns_outcome (fs w) tool c with
    | Found a => (Ok (a, c), after_candidate (icns_args tool c) icns_prefix c w)
    | Failed m =>
        shape_loop tool rest (errs ++ [m])
                   (after_candidate (icns_args tool c) icns_prefix c w)
    | Aborted e => (Raise e, after_candidate (icns_args tool c) icns_prefix c w)
    end.
Proof.
  unfold icns_outcome, tool_outcome, after_candidate.
  pose (w1 := log (EvExists c) w).
  assert (Hprobe : path_exists c w = (Ok (node_exists (fs w) c), w1)) by reflexivity.
  cbn [shape_loop]. rewrite (bind_Ok _ _ _ _ _ Hprobe).
  destruct (node_exists (fs w) c) eqn:Hex; cbn [negb]; cbv zeta; [ | reflexivity ].
  fold w1.
  pose (argv := icns_args tool c ++ [str_iconset_dir w1 icns_prefix (next_tmp w1)]).
  set (r := iconutil (icns_args tool c) (fs w !! c)).
  pose proof (extract_icns_spec tool c w1) as Hx. cbv zeta in Hx.
  change (fs w1) with (fs w) in Hx. fold r argv in Hx. fold argv.
  unfold bind at 1. unfold try at 1. rewrite Hx.
  destruct (captured r) as [[out err] | e] eqn:Hcap;
    [ | by destruct (captured_raise _ _ Hcap) as [m ->] ].
  destruct (returncode r =? 0) eqn:Hrc; [ | reflexivity ].
  unfold bind, finally. rewrite shape_body_spec, after_run_entries.
  unfold cleanup, ret.
  destruct (shape_check c (produced r)); reflexivity.
Qed.

Lemma after_candidate_fs (args : list string) (prefix : string) (c : Path)
    (w : World) :
  fs (after_candidate args prefix c w) = fs w.
Proof.
  unfold after_candidate. by destruct (negb _).
Qed.


End TemporaryDirectories.

Section LoopTmp.

Context {host : Host} {A : Type}.
Variable loop : list Path -> list string -> M (A * Path).
Variable outcome : gmap Path Node -> Path -> Outcome A.
Variable args : Path -> list string.
Variable prefix : string.
Variable header : string.

Hypothesis loop_nil : forall errs w,
  loop [] errs w = (Raise (RuntimeError (header +:+ format_errors errs)), w).

Hypothesis loop_step_world : forall c w rest errs,
  loop (c :: rest) errs w
  = match outcome (fs w) c with
    | Found a => (Ok (a, c), after_candidate (args c) prefix c w)
    | Failed m => loop rest (errs ++ [m]) (after_candidate (args c) prefix c w)
    | Aborted e => (Raise e, after_candidate (args c) prefix c w)
    end.


End LoopTmp.

Section NothingLeft.

Context {imaging : Imaging} {host : Host}.




End NothingLeft.

(** ** The reason given for a failure of [iconutil] *)

Lemma leading_space_app (x y : list ascii) :
  leading_space x <> 0%nat -> leading_space (x ++ y) = leading_space x.
Proof.
  destruct x as [ | a [ | b [ | c x]]]; cbn [leading_space app]; try done.
  - by destruct (is_space _).
  - destruct (is_space _); [ done | ]. by destruct (is_space2 _ _).
Qed.

Lemma trailing_space_app (x y : list ascii) :
  trailing_space x <> 0%nat -> trailing_space (x ++ y) = trailing_space x.
Proof.
  destruct x as [ | a [ | b [ | c x]]]; cbn [trailing_space app]; try done.
  - by destruct (is_space _).
  - destruct (is_space _); [ done | ]. by destruct (is_space2 _ _).
Qed.

Lemma leading_space_bound (l : list ascii) :
  (leading_space l <= 3)%nat /\ (leading_space l <= length l)%nat.
Proof.
  destruct l as [ | a [ | b [ | c l]]]; cbn [leading_space length];
    repeat match goal with |- context [if ?x then _ else _] => destruct x end; lia.
Qed.

Lemma trailing_space_bound (l : list ascii) :
  (trailing_space l <= 3)%nat /\ (trailing_space l <= length l)%nat.
Proof.
  destruct l as [ | a [ | b [ | c l]]]; cbn [trailing_space length];
    repeat match goal with |- context [if ?x then _ else _] => destruct x end; lia.
Qed.

(** One round of [lstrip]: the white-space character at the head, if
    there is one, goes. *)
Lemma lstrip_unfold (l : list ascii) :
  lstrip l = match leading_space l with
             | O => l
             | k => lstrip (drop k l)
             end.
Proof.
  pose proof (leading_space_bound l) as [H3 Hlen].
  destruct l as [ | a l1]; [ reflexivity | ].
  cbn [lstrip]. destruct (leading_space (a :: l1)) as [ | [ | [ | k]]] eqn:E;
    [ reflexivity | reflexivity | | ].
  - destruct l1 as [ | b l2]; [ cbn [length] in Hlen; lia | reflexivity ].
  - destruct l1 as [ | b [ | c l3]]; cbn [length] in Hlen; try lia.
    assert (k = 0%nat) as -> by lia. reflexivity.
Qed.

Lemma rstrip_rev_unfold (l : list ascii) :
  rstrip_rev l = match trailing_space l with
                 | O => l
                 | k => rstrip_rev (drop k l)
                 end.
Proof.
  pose proof (trailing_space_bound l) as [H3 Hlen].
  destruct l as [ | a l1]; [ reflexivity | ].
  cbn [rstrip_rev]. destruct (trailing_space (a :: l1)) as [ | [ | [ | k]]] eqn:E;
    [ reflexivity | reflexivity | | ].
  - destruct l1 as [ | b l2]; [ cbn [length] in Hlen; lia | reflexivity ].
  - destruct l1 as [ | b [ | c l3]]; cbn [length] in Hlen; try lia.
    assert (k = 0%nat) as -> by lia. reflexivity.
Qed.

Lemma lstrip_head (l : list ascii) : leading_space (lstrip l) = 0%nat.
Proof.
  remember (length l) as n eqn:Hn. revert l Hn.
  induction n as [n IH] using lt_wf_ind. intros l ->.
  rewrite lstrip_unfold. pose proof (leading_space_bound l) as [_ Hlen].
  destruct (leading_space l) as [ | k] eqn:E; [ exact E | ].
  eapply IH; [ | reflexivity ]. rewrite length_drop. lia.
Qed.

Lemma rstrip_rev_head (l : list ascii) : trailing_space (rstrip_rev l) = 0%nat.
Proof.
  remember (length l) as n eqn:Hn. revert l Hn.
  induction n as [n IH] using lt_wf_ind. intros l ->.
  rewrite rstrip_rev_unfold. pose proof (trailing_space_bound l) as [_ Hlen].
  destruct (trailing_space l) as [ | k] eqn:E; [ exact E | ].
  eapply IH; [ | reflexivity ]. rewrite length_drop. lia.
Qed.

Lemma lstrip_id (l : list ascii) : leading_space l = 0%nat -> lstrip l = l.
Proof. intros H. by rewrite lstrip_unfold, H. Qed.

Lemma rstrip_rev_id (l : list ascii) : trailing_space l = 0%nat -> rstrip_rev l = l.
Proof. intros H. by rewrite rstrip_rev_unfold, H. Qed.

Lemma lstrip_suffix (l : list ascii) : exists pre, l = pre ++ lstrip l.
Proof.
  remember (length l) as n eqn:Hn. revert l Hn.
  induction n as [n IH] using lt_wf_ind. intros l ->.
  rewrite lstrip_unfold. pose proof (leading_space_bound l) as [_ Hlen].
  destruct (leading_space l) as [ | k] eqn:E; [ by exists [] | ].
  destruct (IH (length (drop (S k) l))) with (l := drop (S k) l) as [pre Hpre];
    [ rewrite length_drop; lia | reflexivity | ].
  exists (take (S k) l ++ pre). rewrite <- app_assoc, <- Hpre.
  by rewrite take_drop.
Qed.

Lemma rstrip_rev_suffix (l : list ascii) : exists pre, l = pre ++ rstrip_rev l.
Proof.
  remember (length l) as n eqn:Hn. revert l Hn.
  induction n as [n IH] using lt_wf_ind. intros l ->.
  rewrite rstrip_rev_unfold. pose proof (trailing_space_bound l) as [_ Hlen].
  destruct (trailing_space l) as [ | k] eqn:E; [ by exists [] | ].
  destruct (IH (length (drop (S k) l))) with (l := drop (S k) l) as [pre Hpre];
    [ rewrite length_drop; lia | reflexivity | ].
  exists (take (S k) l ++ pre). rewrite <- app_assoc, <- Hpre.
  by rewrite take_drop.
Qed.

(** What [strip] returns has no white space at either end. *)
Lemma strip_chars_bare (l : list ascii) :
  let s := rev (rstrip_rev (rev (lstrip l))) in
  leading_space s = 0%nat /\ trailing_space (rev s) = 0%nat.
Proof.
  cbv zeta. set (a := lstrip l). set (b := rstrip_rev (rev a)).
  rewrite rev_involutive. split; [ | apply rstrip_rev_head ].
  destruct (rstrip_rev_suffix (rev a)) as [pre Hpre]. fold b in Hpre.
  assert (Ea : a = rev b ++ rev pre)
    by (rewrite <- (rev_involutive a), Hpre, rev_app_distr; reflexivity).
  pose proof (lstrip_head l) as Hl. fold a in Hl. rewrite Ea in Hl.
  destruct (leading_space (rev b)) as [ | k] eqn:E; [ reflexivity | ].
  rewrite leading_space_app in Hl by lia. lia.
Qed.

Lemma strip_chars_stable (l : list ascii) :
  let s := rev (rstrip_rev (rev (lstrip l))) in
  rev (rstrip_rev (rev (lstrip s))) = s.
Proof.
  cbv zeta. destruct (strip_chars_bare l) as [Hlead Htrail]. cbv zeta in Hlead, Htrail.
  rewrite (lstrip_id _ Hlead), (rstrip_rev_id _ Htrail). apply rev_involutive.
Qed.

Lemma strip_strip (s : string) : strip (strip s) = strip s.
Proof.
  unfold strip. rewrite list_ascii_of_string_of_list_ascii.
  by rewrite strip_chars_stable.
Qed.

Lemma strip_bare (s : string) :
  leading_space (list_ascii_of_string (strip s)) = 0%nat
  /\ trailing_space (rev (list_ascii_of_string (strip s))) = 0%nat.
Proof.
  unfold strip. rewrite list_ascii_of_string_of_list_ascii.
  apply strip_chars_bare.
Qed.

Lemma str_or_nonempty (a b : string) : b <> ""%string -> str_or a b <> ""%string.
Proof.
  intros Hb. unfold str_or. destruct a as [ | c a]; simpl; [ assumption | discriminate ].
Qed.

(** X10.  The reason recorded when [iconutil] fails is never empty and
    has no white space at either end, none of the characters that
    [str.strip()] removes, those beyond U+007F included, so that stripping
    it again changes nothing; a standard error that is not empty hides
    the standard output, even when it is white space only, and then the
    reason is "iconutil failed"; with an empty standard error the
    standard output is used in the same way. *)
Theorem failure_reason_is_a_stripped_nonempty_line (out err : string) :
  failure_reason out err <> ""%string
  /\ leading_space (list_ascii_of_string (failure_reason out err)) = 0%nat
  /\ trailing_space (rev (list_ascii_of_string (failure_reason out err))) = 0%nat
  /\ strip (failure_reason out err) = failure_reason out err
  /\ (err <> ""%string -> failure_reason out err = failure_reason "" err)
  /\ (err <> ""%string -> strip err = ""%string ->
      failure_reason out err = "iconutil failed"%string)
  /\ (strip err <> ""%string -> failure_reason out err = strip err)
  /\ failure_reason out "" = failure_reason "" out.
Proof.
  unfold failure_reason. split_and!.
  - by apply str_or_nonempty.
  - set (inner := str_or err (str_or out "")).
    unfold str_or. destruct (str_nonempty (strip inner));
      [ apply strip_bare | reflexivity ].
  - set (inner := str_or err (str_or out "")).
    unfold str_or. destruct (str_nonempty (strip inner));
      [ apply strip_bare | reflexivity ].
  - set (inner := str_or err (str_or out "")).
    unfold str_or. destruct (str_nonempty (strip inner)); [ apply strip_strip | reflexivity ].
  - intros Herr. destruct err as [ | c err]; [ done | reflexivity ].
  - intros Herr Hs. destruct err as [ | c err]; [ done | ].
    cbn [str_or str_nonempty]. by rewrite Hs.
  - intros Hs. destruct err as [ | c err]; [ done | ].
    cbn [str_or str_nonempty].
    destruct (strip (String c err)) as [ | c' s']; [ done | reflexivity ].
  - cbn [str_or str_nonempty]. by destruct out.
Qed.

(** ** The order of the effects of a run *)

Section EventOrder.

Context {imaging : Imaging} {host : Host}.

Lemma mkdir_parents_events (q : Path) (w : World) :
  events (snd (mkdir_parents q w)) = events w ++ [EvMkdir q].
Proof. unfold mkdir_parents. by destruct (make_dirs _ _). Qed.

Lemma copyfile_events (a b : Path) (w : World) :
  events (snd (copyfile a b w)) = events w ++ [EvCopy a b].
Proof.
  unfold copyfile. destruct (path_eqb a b); [ done | ].
  destruct (read_file a (fs w)); [ | done ]. by destruct (write_file _ _ _).
Qed.

Lemma Image_open_events (q : Path) (w : World) :
  events (snd (Image_open q w)) = events w ++ [EvOpen q].
Proof. unfold Image_open. by destruct (read_file _ _). Qed.

Lemma save_bytes_events (q : Path) (fmt : string) (b : bytes) (w : World) :
  events (snd (save_bytes q fmt b w)) = events w ++ [EvSave q fmt].
Proof. unfold save_bytes. by destruct (write_file _ _ _). Qed.

(** X11.  The events of a run come in the order of the script.  What
    [build_icons_from_source] adds to the events is a prefix of: the
    two directories, the two copies, the opening of the master file;
    then extraction events only; then the saves of the PNG, the ICO and
    the ICNS.  A run that returns has gone through all of them, each
    once. *)
Theorem build_events_follow_the_script (p : Path) (w : World) :
  exists evs,
    events (snd (build_icons_from_source p w)) = events w ++ evs
    /\ match fst (build_icons_from_source p w) with
       | Ok _ =>
           exists ex,
             evs = prologue_events p ++ ex ++ save_events
             /\ Forall (fun e => is_extraction e = true) ex
       | Raise _ =>
           evs `prefix_of` prologue_events p
           \/ exists ex sv,
               evs = prologue_events p ++ ex ++ sv
               /\ Forall (fun e => is_extraction e = true) ex
               /\ sv `prefix_of` save_events
       end.
Proof.
  unfold build_icons_from_source, bind, prologue_events, save_events.
  pose proof (mkdir_parents_events (parent RENDERER_ICON_PATH) w) as E1.
  destruct (mkdir_parents (parent RENDERER_ICON_PATH) w) as [[[] | e] w1];
    cbn [fst snd] in *.
  2: { eexists. split; [ exact E1 | ]. left. by eexists. }
  pose proof (mkdir_parents_events (parent DESKTOP_ICON_PNG_PATH) w1) as E2.
  destruct (mkdir_parents (parent DESKTOP_ICON_PNG_PATH) w1) as [[[] | e] w2];
    cbn [fst snd] in *; rewrite E1, <- app_assoc in E2; cbn [app] in E2.
  2: { eexists. split; [ exact E2 | ]. left. by eexists. }
  pose proof (copyfile_events p RENDERER_ICON_PATH w2) as E3.
  destruct (copyfile p RENDERER_ICON_PATH w2) as [[[] | e] w3];
    cbn [fst snd] in *; rewrite E2, <- app_assoc in E3; cbn [app] in E3.
  2: { eexists. split; [ exact E3 | ]. left. by eexists. }
  pose proof (copyfile_events p DESKTOP_SOURCE_COPY_PATH w3) as E4.
  destruct (copyfile p DESKTOP_SOURCE_COPY_PATH w3) as [[[] | e] w4];
    cbn [fst snd] in *; rewrite E3, <- app_assoc in E4; cbn [app] in E4.
  2: { eexists. split; [ exact E4 | ]. left. by eexists. }
  pose proof (Image_open_events p w4) as E5.
  destruct (Image_open p w4) as [[opened | e] w5];
    cbn [fst snd] in *; rewrite E4, <- app_assoc in E5; cbn [app] in E5.
  2: { eexists. split; [ exact E5 | ]. left. by exists []. }
  unfold convert_RGBA, lift.
  destruct (rgba_of opened) as [source | e]; cbn [fst snd].
  2: { eexists. split; [ exact E5 | ]. left. by exists []. }
  destruct (load_macos_standard_mask_extraction_only w5)
    as (_ & _ & _ & _ & _ & ex & E6 & Hex).
  destruct (load_macos_standard_mask w5) as [[[[mask cs] rs] | e] w6];
    cbn [fst snd] in *; rewrite E5, <- app_assoc in E6; cbn [app] in E6.
  2: { eexists. split; [ exact E6 | ]. right. exists ex, [].
       split; [ by rewrite app_nil_r | ]. split; [ assumption | by eexists ]. }
  destruct (build_desktop_icon_with_mask source mask) as [icon | e]; cbn [fst snd].
  2: { eexists. split; [ exact E6 | ]. right. exists ex, [].
       split; [ by rewrite app_nil_r | ]. split; [ assumption | by eexists ]. }
  pose proof (save_bytes_events DESKTOP_ICON_PNG_PATH "PNG" (encode_png icon) w6) as E7.
  destruct (save_bytes DESKTOP_ICON_PNG_PATH "PNG" (encode_png icon) w6)
    as [[[] | e] w7]; cbn [fst snd] in *;
    rewrite E6, <- ?app_assoc in E7; cbn [app] in E7;
    rewrite <- ?app_assoc in E7; cbn [app] in E7.
  2: { eexists. split; [ exact E7 | ]. right. exists ex, [EvSave DESKTOP_ICON_PNG_PATH "PNG"].
       split; [ reflexivity | ]. split; [ assumption | by eexists ]. }
  pose proof (save_bytes_events DESKTOP_ICON_ICO_PATH "ICO"
                (encode_ico icon ICO_SIZES) w7) as E8.
  destruct (save_bytes DESKTOP_ICON_ICO_PATH "ICO" (encode_ico icon ICO_SIZES) w7)
    as [[[] | e] w8]; cbn [fst snd] in *;
    rewrite E7, <- ?app_assoc in E8; cbn [app] in E8;
    rewrite <- ?app_assoc in E8; cbn [app] in E8.
  2: { eexists. split; [ exact E8 | ]. right.
       exists ex, [EvSave DESKTOP_ICON_PNG_PATH "PNG"; EvSave DESKTOP_ICON_ICO_PATH "ICO"].
       split; [ reflexivity | ]. split; [ assumption | by eexists ]. }
  pose proof (save_bytes_events DESKTOP_ICON_ICNS_PATH "ICNS" (encode_icns icon) w8) as E9.
  destruct (save_bytes DESKTOP_ICON_ICNS_PATH "ICNS" (encode_icns icon) w8)
    as [[[] | e] w9]; cbn [fst snd] in *;
    rewrite E8, <- ?app_assoc in E9; cbn [app] in E9;
    rewrite <- ?app_assoc in E9; cbn [app] in E9.
  2: { eexists. split; [ exact E9 | ]. right.
       exists ex, [EvSave DESKTOP_ICON_PNG_PATH "PNG"; EvSave DESKTOP_ICON_ICO_PATH "ICO";
                   EvSave DESKTOP_ICON_ICNS_PATH "ICNS"].
       split; [ reflexivity | ]. split; [ assumption | by exists [] ]. }
  eexists. split; [ exact E9 | ]. exists ex.
  split; [ reflexivity | assumption ].
Qed.

End EventOrder.

(** ** [reshape_mask_to_bbox] outside the boxes the pipeline gives it *)

Section ReshapeEdges.

Context {imaging : Imaging}.

(** X12.  [reshape_mask_to_bbox] outside the range of the pipeline.  An
    empty shape is reported before the box is looked at; a box with no
    width or no height is reported with its coordinates; a moderate box
    (coordinates that are C integers, no larger than the canvas) whose
    corner lies outside the canvas ends in an [IndexError], not in a
    [RuntimeError]; for a moderate box whose corner has a negative
    coordinate inside -1024 the check reads the pixel counted from the
    far edge. *)
Theorem reshape_rejects_in_a_fixed_order (alpha : Image Z) (x0 y0 x1 y1 : Z) :
  (getbbox alpha = None ->
   reshape_mask_to_bbox alpha (x0, y0, x1, y1)
   = Raise (RuntimeError "[branding] source rounded alpha is empty"))
  /\ (forall sb,
        getbbox alpha = Some sb ->
        x1 <= x0 \/ y1 <= y0 ->
        reshape_mask_to_bbox alpha (x0, y0, x1, y1)
        = Raise (RuntimeError ("[branding] invalid target bbox: "
                                 +:+ str_bbox (x0, y0, x1, y1))))
  /\ (forall sb,
        getbbox alpha = Some sb ->
        x0 < x1 -> y0 < y1 ->
        moderate_box (x0, y0, x1, y1) ->
        1024 <= x0 \/ 1024 <= y0 \/ x0 < -1024 \/ y0 < -1024 ->
        reshape_mask_to_bbox alpha (x0, y0, x1, y1)
        = Raise (IndexError "image index out of range"))
  /\ (forall sb,
        getbbox alpha = Some sb ->
        x0 < x1 -> y0 < y1 ->
        moderate_box (x0, y0, x1, y1) ->
        -1024 <= x0 < 0 -> 0 <= y0 < 1024 ->
        reshape_mask_to_bbox alpha (x0, y0, x1, y1)
        = if px (pasted_shape alpha sb (x0, y0, x1, y1)) (1024 + x0) y0 =? 0
          then Ok (pasted_shape alpha sb (x0, y0, x1, y1))
          else Raise (RuntimeError corner_not_transparent)).
Proof.
  unfold reshape_mask_to_bbox. split_and!.
  - by intros ->.
  - intros sb -> Hbox.
    destruct ((x1 - x0 <=? 0) || (y1 - y0 <=? 0)) eqn:E; [ reflexivity | ].
    apply orb_false_iff in E as [E1 E2]. lia.
  - intros sb -> Hx Hy _ Hout.
    replace (x1 - x0 <=? 0) with false by lia.
    replace (y1 - y0 <=? 0) with false by lia. cbn [orb].
    unfold getpixel. cbn [width height paste Image_new].
    change (Z.of_N ICON_CANVAS_SIZE) with 1024.
    destruct (x0 <? 0) eqn:A1; destruct (y0 <? 0) eqn:A2;
      match goal with
      | |- context [ (?a <? 0) || (1024 <=? ?b) || (?c <? 0) || (1024 <=? ?d) ] =>
          destruct ((a <? 0) || (1024 <=? b) || (c <? 0) || (1024 <=? d)) eqn:E;
          [ reflexivity | ]
      end;
      apply orb_false_iff in E as [E E4]; apply orb_false_iff in E as [E E3];
      apply orb_false_iff in E as [E1 E2]; lia.
  - intros sb -> Hx Hy _ Hx0 Hy0.
    replace (x1 - x0 <=? 0) with false by lia.
    replace (y1 - y0 <=? 0) with false by lia. cbn [orb].
    fold (pasted_shape alpha sb (x0, y0, x1, y1)).
    set (m := pasted_shape alpha sb (x0, y0, x1, y1)).
    assert (Hpix : getpixel m x0 y0 = Ok (px m (1024 + x0) y0)).
    { unfold getpixel.
      change (Z.of_N (width m)) with 1024. change (Z.of_N (height m)) with 1024.
      replace (x0 <? 0) with true by lia. replace (y0 <? 0) with false by lia.
      cbv iota. replace (y0 <? 0) with false by lia.
      replace (1024 + x0 <? 0) with false by lia.
      replace (1024 <=? 1024 + x0) with false by lia.
      replace (1024 <=? y0) with false by lia. reflexivity. }
    rewrite Hpix. by destruct (_ =? 0).
Qed.

End ReshapeEdges.

(** ** When a run returns *)

Lemma make_dirs_ok (ps : list Path) :
  forall f,
    (forall q c, In q ps -> f !! q <> Some (File c)) ->
    exists f', make_dirs ps f = Ok f'.
Proof.
  induction ps as [ | p ps IH]; intros f Hfree; simpl; [ eauto | ].
  destruct (f !! p) as [[c | ] | ] eqn:Hp.
  - exfalso. apply (Hfree p c); [ by left | assumption ].
  - apply IH. intros q c Hq. apply Hfree. by right.
  - apply IH. intros q c Hq.
    destruct (decide (p = q)) as [<- | Hne].
    + by rewrite lookup_insert_eq.
    + rewrite lookup_insert_ne by assumption. apply Hfree. by right.
Qed.

Section Success.

Context {imaging : Imaging} {host : Host}.

Lemma output_parent_made (dst : Path) :
  In dst OUTPUT_PATHS -> dst <> [] /\ parent dst <> [] /\ In (parent dst) OUTPUT_DIRS.
Proof.
  intros Hdst.
  assert (Hpar : parent DESKTOP_SOURCE_COPY_PATH = parent DESKTOP_ICON_PNG_PATH
                 /\ parent DESKTOP_ICON_ICO_PATH = parent DESKTOP_ICON_PNG_PATH
                 /\ parent DESKTOP_ICON_ICNS_PATH = parent DESKTOP_ICON_PNG_PATH).
  { unfold parent, DESKTOP_SOURCE_COPY_PATH, DESKTOP_ICON_PNG_PATH,
      DESKTOP_ICON_ICO_PATH, DESKTOP_ICON_ICNS_PATH.
    by rewrite !removelast_app. }
  destruct Hpar as (Hpar1 & Hpar2 & Hpar3).
  assert (Hr : parent RENDERER_ICON_PATH <> [])
    by (rewrite parent_renderer; by destruct ROOT_DIR).
  assert (Hd : parent DESKTOP_ICON_PNG_PATH <> [])
    by (rewrite parent_desktop; by destruct ROOT_DIR).
  assert (H1 : In (parent RENDERER_ICON_PATH) OUTPUT_DIRS)
    by (apply in_or_app; left; by apply ancestors_and_self_last).
  assert (H2 : In (parent DESKTOP_ICON_PNG_PATH) OUTPUT_DIRS)
    by (apply in_or_app; right; by apply ancestors_and_self_last).
  simpl in Hdst.
  destruct Hdst as [<- | [<- | [<- | [<- | [<- | []]]]]];
    rewrite ?Hpar1, ?Hpar2, ?Hpar3;
    (split; [ | by split ]);
    unfold RENDERER_ICON_PATH, DESKTOP_SOURCE_COPY_PATH, DESKTOP_ICON_PNG_PATH,
      DESKTOP_ICON_ICO_PATH, DESKTOP_ICON_ICNS_PATH; by destruct ROOT_DIR.
Qed.

Lemma output_dir_is_not_output (q : Path) :
  In q OUTPUT_DIRS -> ~ In q OUTPUT_PATHS.
Proof.
  intros Hq Ho. destruct (output_is_file q Ho) as [H1 H2].
  apply in_app_or in Hq as [Hq | Hq]; tauto.
Qed.

Variable w0 : World.

Lemma ready_log (e : Event) (w : World) : ready w0 w -> ready w0 (log e w).
Proof. intros H. exact H. Qed.

Lemma mkdir_step (p : Path) (w : World) :
  incl (ancestors_and_self p) OUTPUT_DIRS ->
  ready w0 w ->
  exists w',
    mkdir_parents p w = (Ok tt, w')
    /\ ready w0 w'
    /\ (forall q, In q (ancestors_and_self p) -> fs w' !! q = Some Dir)
    /\ (forall q, fs w !! q = Some Dir -> fs w' !! q = Some Dir).
Proof.
  intros Hp (Hpl & Hwh & (Hfree & Hnodir) & Hframe).
  destruct (make_dirs_ok (ancestors_and_self p) (fs w)) as [f Hmk].
  { intros q c Hq. apply Hfree. by apply Hp. }
  unfold mkdir_parents. rewrite Hmk. eexists. split; [ reflexivity | ].
  unfold ready, unobstructed. cbn [fs set_fs log platform which_iconutil].
  assert (Hcases := fun q => make_dirs_only_dirs _ _ _ q Hmk).
  split; [ | split ].
  - split; [ assumption | ]. split; [ assumption | ]. split; [ split | ].
    + intros q c Hq. destruct (Hcases q) as [-> | (_ & _ & ->)]; [ by apply Hfree | done ].
    + intros q Hq. destruct (Hcases q) as [-> | (Hin & _ & _)]; [ by apply Hnodir | ].
      exfalso. apply (output_dir_is_not_output q); [ by apply Hp | assumption ].
    + intros q Ho Hd. destruct (Hcases q) as [-> | (Hin & _ & _)]; [ by apply Hframe | ].
      exfalso. apply Hd. by apply Hp.
  - intros q Hq. by eapply make_dirs_made.
  - intros q Hq. by eapply make_dirs_keeps.
Qed.

Lemma write_step (dst : Path) (b : bytes) (w : World) :
  In dst OUTPUT_PATHS -> ready w0 w -> dirs_made w ->
  write_file dst b (fs w) = Ok (<[dst := File b]> (fs w))
  /\ forall W,
      fs W = <[dst := File b]> (fs w) ->
      platform W = platform w -> which_iconutil W = which_iconutil w ->
      ready w0 W /\ dirs_made W.
Proof.
  intros Hdst (Hpl & Hwh & (Hfree & Hnodir) & Hframe) Hdirs.
  destruct (output_parent_made dst Hdst) as (Hne & Hpne & Hpar).
  split.
  - unfold write_file, is_dir. rewrite (Hdirs _ Hpar).
    destruct (parent dst) as [ | n t] eqn:Ep; [ done | ]. cbn [negb orb].
    destruct dst as [ | d dst']; [ done | ].
    pose proof (Hnodir _ Hdst) as Hnd.
    cbn [negb orb].
    match goal with
    | |- match ?x with _ => _ end = _ => destruct x as [[c | ] | ] eqn:Ex
    end; [ reflexivity | by exfalso; apply Hnd | reflexivity ].
  - intros W HfsW HplW HwhW. unfold ready, unobstructed, dirs_made. split.
    + split; [ congruence | ]. split; [ congruence | ]. rewrite HfsW. split; [ split | ].
      * intros q c Hq.
        rewrite lookup_insert_ne
          by (intros ->; by apply (output_dir_is_not_output q)).
        by apply Hfree.
      * intros q Hq. destruct (decide (dst = q)) as [<- | Hneq].
        -- by rewrite lookup_insert_eq.
        -- rewrite lookup_insert_ne by assumption. by apply Hnodir.
      * intros q Ho Hd. rewrite lookup_insert_ne by (intros ->; by apply Ho).
        by apply Hframe.
    + intros q Hq. rewrite HfsW.
      rewrite lookup_insert_ne by (intros ->; by apply (output_dir_is_not_output q)).
      by apply Hdirs.
Qed.

Lemma copy_step (src dst : Path) (b : bytes) (w : World) :
  In dst OUTPUT_PATHS -> ~ In src OUTPUT_PATHS -> ~ In src OUTPUT_DIRS ->
  fs w0 !! src = Some (File b) ->
  ready w0 w -> dirs_made w ->
  exists w', copyfile src dst w = (Ok tt, w') /\ ready w0 w' /\ dirs_made w'.
Proof.
  intros Hdst Hs1 Hs2 Hsrc Hready Hdirs.
  destruct (write_step dst b w Hdst Hready Hdirs) as [Hwr Hnext].
  unfold copyfile, path_eqb, read_file.
  rewrite bool_decide_eq_false_2 by (intros ->; by apply Hs1).
  destruct Hready as (Hpl & Hwh & Hun & Hframe).
  rewrite (Hframe src Hs1 Hs2), Hsrc, Hwr.
  eexists. split; [ reflexivity | ]. by apply Hnext.
Qed.

Lemma save_step (dst : Path) (fmt : string) (b : bytes) (w : World) :
  In dst OUTPUT_PATHS -> ready w0 w -> dirs_made w ->
  exists w', save_bytes dst fmt b w = (Ok tt, w') /\ ready w0 w' /\ dirs_made w'.
Proof.
  intros Hdst Hready Hdirs.
  destruct (write_step dst b w Hdst Hready Hdirs) as [Hwr Hnext].
  unfold save_bytes. rewrite Hwr.
  eexists. split; [ reflexivity | ]. by apply Hnext.
Qed.

Lemma build_succeeds (p : Path) (b : bytes) (file : ImageFile) (source : Image RGBA)
    (mask : Image Z) (cs rs : Path) :
  ~ In p OUTPUT_PATHS -> ~ In p OUTPUT_DIRS ->
  fs w0 !! p = Some (File b) ->
  image_open b = Some file ->
  file_rgba file = Some source ->
  unobstructed w0 ->
  (forall c, In c (MACOS_ICON_CAR_CANDIDATES ++ MACOS_ICON_ICNS_CANDIDATES) ->
             ~ In c OUTPUT_DIRS) ->
  fst (load_macos_standard_mask w0) = Ok (mask, cs, rs) ->
  forall w, ready w0 w ->
            fst (build_icons_from_source p w) = Ok (cs, rs).
Proof.
  intros Hp1 Hp2 Hp Hfile Hsrc Hun Hcands Hmask w Hready.
  unfold build_icons_from_source.
  destruct (mkdir_step (parent RENDERER_ICON_PATH) w) as (w1 & E1 & R1 & D1 & K1);
    [ intros q Hq; apply in_or_app; by left | assumption | ].
  rewrite (bind_Ok _ _ _ _ _ E1).
  destruct (mkdir_step (parent DESKTOP_ICON_PNG_PATH) w1) as (w2 & E2 & R2 & D2 & K2);
    [ intros q Hq; apply in_or_app; by right | assumption | ].
  rewrite (bind_Ok _ _ _ _ _ E2).
  assert (Hdirs2 : dirs_made w2).
  { intros q Hq. apply in_app_or in Hq as [Hq | Hq]; [ apply K2, D1 | apply D2 ];
      assumption. }
  destruct (copy_step p RENDERER_ICON_PATH b w2) as (w3 & E3 & R3 & Hdirs3);
    try assumption; [ simpl; tauto | ].
  rewrite (bind_Ok _ _ _ _ _ E3).
  destruct (copy_step p DESKTOP_SOURCE_COPY_PATH b w3) as (w4 & E4 & R4 & Hdirs4);
    try assumption; [ simpl; tauto | ].
  rewrite (bind_Ok _ _ _ _ _ E4).
  assert (E5 : Image_open p w4 = (Ok file, log (EvOpen p) w4)).
  { unfold Image_open, read_file, decode.
    destruct R4 as (_ & _ & _ & Hframe). by rewrite (Hframe p Hp1 Hp2), Hp, Hfile. }
  rewrite (bind_Ok _ _ _ _ _ E5).
  rewrite (bind_Ok (convert_RGBA file) _ _ source (log (EvOpen p) w4))
    by (unfold convert_RGBA, lift, rgba_of; by rewrite Hsrc).
  set (w5 := log (EvOpen p) w4).
  assert (R5 : ready w0 w5) by exact R4.
  assert (Hdirs5 : dirs_made w5) by exact Hdirs4.
  assert (Hagree : fst (load_macos_standard_mask w5) = Ok (mask, cs, rs)).
  { rewrite <- Hmask. destruct R5 as (Hpl & Hwh & _ & Hframe).
    apply load_macos_standard_mask_agree; [ assumption | assumption | ].
    apply List.Forall_forall. intros c Hc. apply Hframe.
    - by apply candidate_is_not_output.
    - by apply Hcands. }
  pose proof (load_macos_standard_mask_extraction_only w5) as Hx.
  destruct (load_macos_standard_mask w5) as [r w6] eqn:E6. cbn [fst snd] in Hagree, Hx.
  subst r. rewrite (bind_Ok _ _ _ _ _ E6).
  assert (R6 : ready w0 w6 /\ dirs_made w6).
  { destruct Hx as (Hpl & Hwh & _ & Hfs & _).
    destruct R5 as (Hpl5 & Hwh5 & (Hf5 & Hn5) & Hframe5).
    split.
    - unfold ready, unobstructed. rewrite Hfs.
      split; [ congruence | ]. split; [ congruence | ].
      split; [ by split | assumption ].
    - intros q Hq. rewrite Hfs. by apply Hdirs5. }
  destruct R6 as [R6 Hdirs6].
  destruct (mask_stage_returns w0 mask cs rs Hmask)
    as (? & ? & ? & ? & ? & ? & ? & _ & _ & _ & _ & _ & _ & _ & _ & _ & Hm).
  destruct (build_desktop_icon_with_canvas_mask source mask) as (icon & Hicon & _);
    [ rewrite Hm; apply pasted_shape_size | ].
  rewrite (bind_Ok (lift _) _ w6 icon w6) by (unfold lift; by rewrite Hicon).
  destruct (save_step DESKTOP_ICON_PNG_PATH "PNG" (encode_png icon) w6)
    as (w7 & E7 & R7 & Hdirs7); try assumption; [ simpl; tauto | ].
  rewrite (bind_Ok _ _ _ _ _ E7).
  destruct (save_step DESKTOP_ICON_ICO_PATH "ICO" (encode_ico icon ICO_SIZES) w7)
    as (w8 & E8 & R8 & Hdirs8); try assumption; [ simpl; tauto | ].
  rewrite (bind_Ok _ _ _ _ _ E8).
  destruct (save_step DESKTOP_ICON_ICNS_PATH "ICNS" (encode_icns icon) w8)
    as (w9 & E9 & R9 & Hdirs9); try assumption; [ simpl; tauto | ].
  rewrite (bind_Ok _ _ _ _ _ E9). reflexivity.
Qed.

End Success.

Section SuccessOfMain.

Context {imaging : Imaging} {host : Host}.

Lemma source_is_not_output_dir : ~ In SOURCE_ICON_PATH OUTPUT_DIRS.
Proof.
  intros Hin.
  destruct (not_made_by_mkdir ["branding"; "source"; "app-icon.png"]%string
              SOURCE_ICON_PATH eq_refl) as [H1 H2].
  - intros [k Hk]. discriminate Hk.
  - intros [k Hk]. discriminate Hk.
  - apply in_app_or in Hin as [Hin | Hin]; tauto.
Qed.

Lemma run_returns_when_ready (w : World) (b : bytes)
    (file : ImageFile) (source : Image RGBA) (mask : Image Z) (cs rs : Path) :
  fs w !! SOURCE_ICON_PATH = Some (File b) ->
  image_open b = Some file ->
  file_rgba file = Some source ->
  unobstructed w ->
  (forall c, In c (MACOS_ICON_CAR_CANDIDATES ++ MACOS_ICON_ICNS_CANDIDATES) ->
             ~ In c OUTPUT_DIRS) ->
  fst (load_macos_standard_mask w) = Ok (mask, cs, rs) ->
  fst (main w) = Ok tt.
Proof.
  intros Hb Hfile Hsrc Hun Hcands Hmask.
  assert (Hbuild : forall w', ready w w' ->
             fst (build_icons_from_source SOURCE_ICON_PATH w') = Ok (cs, rs)).
  { apply (build_succeeds w SOURCE_ICON_PATH b file source mask);
      try assumption; [ apply source_is_not_output | apply source_is_not_output_dir ]. }
  assert (Hrefl : ready w (at_build w)).
  { unfold ready, unobstructed.
    split; [ reflexivity | ]. split; [ reflexivity | ]. split; [ exact Hun | done ]. }
  rewrite main_unfolded.
  assert (Hex : node_exists (fs w) SOURCE_ICON_PATH = true).
  { unfold node_exists. rewrite Hb. unfold SOURCE_ICON_PATH. by destruct ROOT_DIR. }
  rewrite Hex. cbn [negb].
  pose proof (Hbuild (at_build w) Hrefl) as Hrun.
  destruct (build_icons_from_source SOURCE_ICON_PATH (at_build w))
    as [[[cs' rs'] | e] W]; [ reflexivity | discriminate Hrun ].
Qed.

(** A directory where an output is to be written makes the run fail. *)

Lemma fails_bind_now {A B : Type} (P : World -> Prop) (m : M A) (k : A -> M B) :
  fails_under P m -> fails_under P (bind m k).
Proof.
  intros Hm w Hw. specialize (Hm w Hw). unfold bind.
  by destruct (m w) as [[a | e] w'].
Qed.

Lemma fails_bind_later {A B : Type} (P : World -> Prop) (m : M A) (k : A -> M B) :
  (forall w, P w -> P (snd (m w))) ->
  (forall a, fails_under P (k a)) ->
  fails_under P (bind m k).
Proof.
  intros Hm Hk w Hw. specialize (Hm w Hw). unfold bind.
  destruct (m w) as [[a | e] w']; [ by apply Hk | reflexivity ].
Qed.

Lemma blocked_same_fs {A : Type} (q : Path) (m : M A) :
  (forall w, fs (snd (m w)) = fs w) -> forall w, blocked q w -> blocked q (snd (m w)).
Proof. intros Hm w Hw. unfold blocked. by rewrite Hm. Qed.

Lemma blocked_mkdir (q p : Path) (w : World) :
  blocked q w -> blocked q (snd (mkdir_parents p w)).
Proof.
  unfold blocked, mkdir_parents. intros Hw.
  destruct (make_dirs _ _) eqn:Hmk; [ | exact Hw ].
  cbn [snd fs set_fs]. by eapply make_dirs_keeps.
Qed.

Lemma write_blocked (q : Path) (b : bytes) (f : gmap Path Node) :
  f !! q = Some Dir -> returned (write_file q b f) = false.
Proof.
  intros Hq. unfold write_file. destruct (_ || _); [ reflexivity | ].
  by rewrite Hq.
Qed.

Lemma write_keeps_blocked (q dst : Path) (b : bytes) (f f' : gmap Path Node) :
  f !! q = Some Dir -> write_file dst b f = Ok f' -> f' !! q = Some Dir.
Proof.
  intros Hq Hwr. rewrite (write_file_Ok _ _ _ _ Hwr).
  destruct (decide (dst = q)) as [-> | Hne].
  - pose proof (write_blocked q b f Hq) as H. rewrite Hwr in H. discriminate H.
  - by rewrite lookup_insert_ne.
Qed.

Lemma blocked_copy (q src dst : Path) (w : World) :
  blocked q w -> blocked q (snd (copyfile src dst w)).
Proof.
  unfold blocked, copyfile. intros Hw.
  destruct (path_eqb src dst); [ exact Hw | ].
  destruct (read_file src (fs w)) as [b | e]; [ | exact Hw ].
  destruct (write_file dst b (fs w)) eqn:Hwr; [ | exact Hw ].
  cbn [snd fs set_fs]. by eapply write_keeps_blocked.
Qed.

Lemma blocked_save (q dst : Path) (fmt : string) (b : bytes) (w : World) :
  blocked q w -> blocked q (snd (save_bytes dst fmt b w)).
Proof.
  unfold blocked, save_bytes. intros Hw.
  destruct (write_file dst b (fs w)) eqn:Hwr; [ | exact Hw ].
  cbn [snd fs set_fs]. by eapply write_keeps_blocked.
Qed.

Lemma copy_blocked (q src : Path) : fails_under (blocked q) (copyfile src q).
Proof.
  intros w Hw. unfold copyfile.
  destruct (path_eqb src q); [ reflexivity | ].
  destruct (read_file src (fs w)) as [b | e]; [ | reflexivity ].
  pose proof (write_blocked q b (fs w) Hw) as H.
  by destruct (write_file q b (fs w)).
Qed.

Lemma save_blocked (q : Path) (fmt : string) (b : bytes) :
  fails_under (blocked q) (save_bytes q fmt b).
Proof.
  intros w Hw. unfold save_bytes.
  pose proof (write_blocked q b (fs w) Hw) as H.
  by destruct (write_file q b (fs w)).
Qed.

Lemma build_blocked (q p : Path) :
  In q OUTPUT_PATHS -> fails_under (blocked q) (build_icons_from_source p).
Proof.
  intros Hq. unfold build_icons_from_source.
  apply fails_bind_later; [ apply blocked_mkdir | intros _ ].
  apply fails_bind_later; [ apply blocked_mkdir | intros _ ].
  simpl in Hq. destruct Hq as [<- | Hq]; [ apply fails_bind_now, copy_blocked | ].
  apply fails_bind_later; [ apply blocked_copy | intros _ ].
  destruct Hq as [<- | Hq]; [ apply fails_bind_now, copy_blocked | ].
  apply fails_bind_later; [ apply blocked_copy | intros _ ].
  apply fails_bind_later; [ | intros opened ].
  { apply blocked_same_fs. intros w. unfold Image_open. by destruct (read_file _ _). }
  apply fails_bind_later; [ by apply blocked_same_fs | intros source ].
  apply fails_bind_later; [ | intros [[mask cs] rs] ].
  { apply blocked_same_fs. intros w.
    by destruct (load_macos_standard_mask_extraction_only w) as (_ & _ & _ & H & _). }
  apply fails_bind_later; [ by apply blocked_same_fs | intros icon ].
  destruct Hq as [<- | Hq]; [ apply fails_bind_now, save_blocked | ].
  apply fails_bind_later; [ apply blocked_save | intros _ ].
  destruct Hq as [<- | Hq]; [ apply fails_bind_now, save_blocked | ].
  apply fails_bind_later; [ apply blocked_save | intros _ ].
  destruct Hq as [<- | []]. apply fails_bind_now, save_blocked.
Qed.

(** X13.  When [main] returns.  On a machine where no candidate path is
    one of the output directories, [main] returns exactly when the
    master file holds bytes that decode to an image, nothing is in the
    way of the outputs (no file where a directory is to be made, no
    directory where a file is to be written), and the mask stage, run
    on the machine as it is, returns a mask. *)
Theorem run_returns_exactly_when_nothing_is_in_the_way (w : World) :
  (forall c, In c (MACOS_ICON_CAR_CANDIDATES ++ MACOS_ICON_ICNS_CANDIDATES) ->
             ~ In c OUTPUT_DIRS) ->
  fst (main w) = Ok tt
  <-> exists b file source mask cs rs,
        fs w !! SOURCE_ICON_PATH = Some (File b)
        /\ image_open b = Some file
        /\ file_rgba file = Some source
        /\ unobstructed w
        /\ fst (load_macos_standard_mask w) = Ok (mask, cs, rs).
Proof.
  intros Hcands. split.
  - intros Hmain.
    destruct (main_success w (snd (main w)) (pair_of_fst _ _ Hmain))
      as (b & file & source & w1 & mask & cs & rs & icon
          & Hb & Hfile & Hsrc & Hpro & Hdirs & _ & _ & Hmask & _).
    destruct Hpro as (Hpl & Hwh & _ & _ & _ & Hframe & Hkeep).
    exists b, file, source, mask, cs, rs.
    split; [ assumption | ]. split; [ assumption | ]. split; [ assumption | ].
    split; [ split | ].
    + intros q c Hq Hfile'.
      assert (Hne : q <> RENDERER_ICON_PATH /\ q <> DESKTOP_SOURCE_COPY_PATH).
      { split; intros ->; apply (output_dir_is_not_output _ Hq); simpl; tauto. }
      destruct Hne as [Hn1 Hn2].
      pose proof (Hkeep q (File c) Hfile' Hn1 Hn2) as Hk.
      rewrite (Hdirs q Hq) in Hk. discriminate Hk.
    + intros q Hq Hdir.
      pose proof (build_blocked q SOURCE_ICON_PATH Hq (at_build w) Hdir) as Hfail.
      rewrite main_unfolded in Hmain.
      destruct (negb _); [ discriminate Hmain | ].
      destruct (build_icons_from_source SOURCE_ICON_PATH (at_build w))
        as [[[cs' rs'] | e] W]; [ discriminate Hfail | discriminate Hmain ].
    + rewrite <- Hmask. symmetry.
      apply load_macos_standard_mask_agree; [ exact Hpl | exact Hwh | ].
      apply List.Forall_forall. intros c Hc.
      pose proof (candidate_is_not_output c Hc) as Hno.
      pose proof (Hcands c Hc) as Hnd.
      apply Hframe.
      * intros Hin. apply Hnd, in_or_app. by left.
      * intros Hin. apply Hnd, in_or_app. by right.
      * intros ->. apply Hno. simpl. tauto.
      * intros ->. apply Hno. simpl. tauto.
  - intros (b & file & source & mask & cs & rs & Hb & Hfile & Hsrc & Hun & Hmask).
    by eapply run_returns_when_ready.
Qed.

End SuccessOfMain.

(** ** The theorems above, on the sample machines *)

Section MoreWitnesses.

Import Sample MoreSamples.

(** The run on [mac] leaves the master file as it was. *)
Lemma run_changes_only_its_outputs_witness :
  ~ In SOURCE_ICON_PATH OUTPUT_PATHS
  /\ fs mac !! SOURCE_ICON_PATH = Some (File master)
  /\ fs (snd (main mac)) !! SOURCE_ICON_PATH = Some (File master).
Proof.
  assert (H : ~ In SOURCE_ICON_PATH OUTPUT_PATHS) by path_not_in.
  split; [ exact H | ]. split; [ vm_compute; reflexivity | ].
  apply (proj1 (run_changes_only_its_outputs mac SOURCE_ICON_PATH H)).
  vm_compute. reflexivity.
Defined.

(** On [mac_nothing_usable] the run ends in the error that lists the
    five containers. *)
Lemma run_raises_only_expected_errors_witness :
  fst (main mac_nothing_usable) = Raise (RuntimeError nothing_usable_car_message)
  /\ node_exists (fs mac_nothing_usable) SOURCE_ICON_PATH = true
  /\ mask_error nothing_usable_car_message.
Proof.
  assert (H : fst (main mac_nothing_usable)
              = Raise (RuntimeError nothing_usable_car_message))
    by (vm_compute; reflexivity).
  split; [ exact H | ].
  apply (proj1 (proj2 (run_raises_only_expected_errors mac_nothing_usable
                  (RuntimeError nothing_usable_car_message)))
           H).
Defined.

(** On [mac_blank_first] the second archive is the one returned, after
    the first one failed. *)
Lemma loader_result_witness :
  exists pre post msgs,
    MACOS_ICON_CAR_CANDIDATES = pre ++ notes_car :: post
    /\ Forall2 (fun p m => car_outcome (fs mac_blank_first) tool p = Failed m) pre msgs
    /\ car_outcome (fs mac_blank_first) tool notes_car = Found sample_box.
Proof.
  apply (proj1 (loader_result_names_first_decisive_candidate tool mac_blank_first)
           sample_box notes_car).
  vm_compute. reflexivity.
Defined.

(** The mask of [mac]: a canvas, clear at the corner of the box of the
    container. *)
Lemma mask_stage_witness :
  exists mask cs rs,
    fst (load_macos_standard_mask mac) = Ok (mask, cs, rs)
    /\ exists tool x0 y0 x1 y1 alpha sb,
        which_iconutil mac = Some tool
        /\ In cs MACOS_ICON_CAR_CANDIDATES
        /\ In rs MACOS_ICON_ICNS_CANDIDATES
        /\ car_outcome (fs mac) tool cs = Found (x0, y0, x1, y1)
        /\ icns_outcome (fs mac) tool rs = Found alpha
        /\ getbbox alpha = Some sb
        /\ (0 <= x0 < x1 /\ x1 <= 1024 /\ 0 <= y0 < y1 /\ y1 <= 1024)
        /\ size mask = (ICON_CANVAS_SIZE, ICON_CANVAS_SIZE)
        /\ px mask x0 y0 = 0
        /\ forall x y,
            px mask x y
            = if (x0 <=? x) && (x <? x1) && (y0 <=? y) && (y <? y1)
              then lanczos (crop alpha sb) (Z.to_N (x1 - x0)) (Z.to_N (y1 - y0))
                           (x - x0) (y - y0)
              else 0.
Proof.
  destruct (fst (load_macos_standard_mask mac)) as [[[mask cs] rs] | e] eqn:E.
  - exists mask, cs, rs. split; [ reflexivity | ].
    apply (mask_stage_returns_canvas_mask_inside_container_box mac mask cs rs E).
  - assert (H : returned (fst (load_macos_standard_mask mac)) = true)
      by (vm_compute; reflexivity).
    rewrite E in H. discriminate H.
Defined.

(** The run on [mac]. *)
Lemma successful_run_witness :
  exists b file source mask icon,
    fs mac !! SOURCE_ICON_PATH = Some (File b)
    /\ image_open b = Some file
    /\ file_rgba file = Some source
    /\ platform mac = "darwin"%string
    /\ which_iconutil mac <> None
    /\ build_desktop_icon_with_mask source mask = Ok icon
    /\ size icon = (ICON_CANVAS_SIZE, ICON_CANVAS_SIZE)
    /\ fs (snd (main mac)) !! DESKTOP_ICON_PNG_PATH = Some (File (encode_png icon))
    /\ fs (snd (main mac)) !! DESKTOP_ICON_ICO_PATH
       = Some (File (encode_ico icon ICO_SIZES))
    /\ fs (snd (main mac)) !! DESKTOP_ICON_ICNS_PATH
       = Some (File (encode_icns icon))
    /\ forall q, In q OUTPUT_DIRS -> fs (snd (main mac)) !! q = Some Dir.
Proof.
  apply (successful_run_writes_one_icon_in_three_formats mac (snd (main mac))).
  apply pair_of_fst. vm_compute. reflexivity.
Defined.

(** The sample blend keeps the destination where the mask is 0; the icon
    made on [mac] from the small image is clear outside the box. *)
Lemma icon_clear_witness :
  (forall d s, blend d s 0 = d)
  /\ exists mask cs rs icon,
      fst (load_macos_standard_mask mac) = Ok (mask, cs, rs)
      /\ build_desktop_icon_with_mask small_art mask = Ok icon
      /\ exists (tool : string) (x0 y0 x1 y1 : Z),
          which_iconutil mac = Some tool
          /\ car_outcome (fs mac) tool cs = Found (x0, y0, x1, y1)
          /\ (forall x y, ~ (x0 <= x < x1 /\ y0 <= y < y1) ->
                          px icon x y = (0, 0, 0, 0))
          /\ px icon x0 y0 = (0, 0, 0, 0).
Proof.
  assert (Hblend : forall d s : RGBA, blend d s 0 = d) by (intros d s; reflexivity).
  split; [ exact Hblend | ].
  assert (H : match fst (load_macos_standard_mask mac) with
              | Ok (mask, _, _) =>
                  returned (build_desktop_icon_with_mask small_art mask)
              | Raise _ => false
              end = true) by (vm_compute; reflexivity).
  destruct (fst (load_macos_standard_mask mac)) as [[[mask cs] rs] | e] eqn:E;
    [ | discriminate H ].
  destruct (build_desktop_icon_with_mask small_art mask) as [icon | e] eqn:Eicon;
    [ | discriminate H ].
  exists mask, cs, rs, icon. split; [ reflexivity | ]. split; [ exact Eicon | ].
  apply (proj2 (icon_is_clear_outside_the_container_box Hblend)
           mac mask cs rs small_art icon E Eicon).
Defined.

(** Of the two 8 x 8 PNGs the first one is chosen. *)
Lemma largest_png_witness :
  ends_with ".png" "b.png" = true
  /\ exists pre post f,
      glob_png (entries_of mac_extracted 0) = pre ++ "b.png"%string :: post
      /\ open_entry (entries_of mac_extracted 0) "b.png" = Ok f
      /\ (forall q fq, In q pre -> open_entry (entries_of mac_extracted 0) q = Ok fq ->
                       area_of fq < area_of f)
      /\ (forall q fq, In q post -> open_entry (entries_of mac_extracted 0) q = Ok fq ->
                       area_of fq <= area_of f).
Proof.
  apply (largest_png_is_the_first_of_the_largest 0 mac_extracted "b.png").
  vm_compute. reflexivity.
Defined.


(** A standard error of blanks hides the standard output, whether the
    blanks are spaces or a no-break space and an em space. *)
Lemma failure_reason_witness :
  ("  "%string <> ""%string
   /\ strip "  " = ""%string
   /\ failure_reason "usage: iconutil" "  " = "iconutil failed"%string)
  /\ (wide_blanks <> ""%string
      /\ strip wide_blanks = ""%string
      /\ failure_reason "usage: iconutil" wide_blanks = "iconutil failed"%string).
Proof.
  assert (H1 : "  "%string <> ""%string) by discriminate.
  assert (H2 : strip "  " = ""%string) by (vm_compute; reflexivity).
  assert (H3 : wide_blanks <> ""%string) by discriminate.
  assert (H4 : strip wide_blanks = ""%string) by (vm_compute; reflexivity).
  split; (split; [ assumption | ]; split; [ assumption | ]).
  - apply (proj1 (proj2 (proj2 (proj2 (proj2 (proj2
             (failure_reason_is_a_stripped_nonempty_line "usage: iconutil" "  "))))))
             H1 H2).
  - apply (proj1 (proj2 (proj2 (proj2 (proj2 (proj2
             (failure_reason_is_a_stripped_nonempty_line "usage: iconutil"
                wide_blanks))))))
             H3 H4).
Defined.

(** A box beyond the canvas ends in an [IndexError]; a box that starts
    left of the canvas passes the check, which reads a pixel at the far
    edge. *)
Lemma reshape_far_box_witness :
  getbbox (getchannel_A rounded_art) = Some (0, 0, 8, 8)
  /\ moderate_box far_box
  /\ moderate_box left_box
  /\ reshape_mask_to_bbox (getchannel_A rounded_art) far_box
     = Raise (IndexError "image index out of range")
  /\ returned (reshape_mask_to_bbox (getchannel_A rounded_art) left_box) = true.
Proof.
  assert (H : getbbox (getchannel_A rounded_art) = Some (0, 0, 8, 8))
    by (vm_compute; reflexivity).
  assert (Hfar : moderate_box far_box) by (unfold moderate_box, far_box; lia).
  assert (Hleft : moderate_box left_box) by (unfold moderate_box, left_box; lia).
  split; [ exact H | ]. split; [ exact Hfar | ]. split; [ exact Hleft | ]. split.
  - apply (proj1 (proj2 (proj2
             (reshape_rejects_in_a_fixed_order (getchannel_A rounded_art)
                2000 0 2010 10))) (0, 0, 8, 8) H); [ lia | lia | exact Hfar | lia ].
  - unfold left_box.
    rewrite (proj2 (proj2 (proj2
               (reshape_rejects_in_a_fixed_order (getchannel_A rounded_art)
                  (-8) 0 8 16))) (0, 0, 8, 8) H); [ | lia | lia | exact Hleft | lia | lia ].
    vm_compute. reflexivity.
Defined.

(** On [mac] nothing is in the way, and the run returns. *)
Lemma run_returns_witness :
  (forall c, In c (MACOS_ICON_CAR_CANDIDATES ++ MACOS_ICON_ICNS_CANDIDATES) ->
             ~ In c OUTPUT_DIRS)
  /\ unobstructed mac
  /\ fst (main mac) = Ok tt.
Proof.
  assert (Hun : unobstructed mac).
  { split.
    - intros q c Hq. vm_compute in Hq.
      repeat (destruct Hq as [<- | Hq]; [ vm_compute; discriminate | ]).
      destruct Hq.
    - intros q Hq. vm_compute in Hq.
      repeat (destruct Hq as [<- | Hq]; [ vm_compute; discriminate | ]).
      destruct Hq. }
  assert (Hcands : forall c,
             In c (MACOS_ICON_CAR_CANDIDATES ++ MACOS_ICON_ICNS_CANDIDATES) ->
             ~ In c OUTPUT_DIRS).
  { intros c Hc Hd. vm_compute in Hc.
    repeat (destruct Hc as [<- | Hc];
            [ vm_compute in Hd;
              repeat (destruct Hd as [Hd | Hd]; [ discriminate Hd | ]);
              destruct Hd | ]).
    destruct Hc. }
  split; [ exact Hcands | ]. split; [ exact Hun | ].
  apply (proj2 (run_returns_exactly_when_nothing_is_in_the_way mac Hcands)).
  destruct (fst (load_macos_standard_mask mac)) as [[[mask cs] rs] | e] eqn:E.
  - exists master, (mkImageFile (4, 4)%N (Some small_art)), small_art, mask, cs, rs.
    split; [ vm_compute; reflexivity | ]. split; [ reflexivity | ].
    split; [ reflexivity | ]. split; [ exact Hun | reflexivity ].
  - assert (H : returned (fst (load_macos_standard_mask mac)) = true)
      by (vm_compute; reflexivity).
    rewrite E in H. discriminate H.
Defined.

End MoreWitnesses.

(** * Candidates, loaders and steps *)

(** ** What a candidate is worth, and what the loop makes of it *)

Section CandidateWords.

Context {imaging : Imaging} {host : Host}.

Lemma failure_reason_reported (out err : string) :
  failure_reason out err = reported out err.
Proof.
  unfold failure_reason, reported, str_or. cbv zeta.
  destruct err as [ | a err]; cbn [str_nonempty String.eqb].
  - destruct out as [ | b out]; cbn [str_nonempty];
      by destruct (strip _) as [ | c s].
  - by destruct (strip _) as [ | c s].
Qed.

Lemma extracts_captured (f : gmap Path Node) (args : list string) (c : Path)
    (rc : Z) (out err : string) (entries : Iconset) :
  extracts f args c rc out err entries ->
  node_exists f c = true
  /\ captured (iconutil args (f !! c)) = Ok (out, err)
  /\ returncode (iconutil args (f !! c)) = rc
  /\ produced (iconutil args (f !! c)) = entries.
Proof.
  intros (Hex & Hrc & Hout & Herr & Hent). unfold captured.
  by rewrite Hout, Herr.
Qed.

Lemma tool_outcome_extracts {A : Type} (f : gmap Path Node) (args : list string)
    (c : Path) (check : Iconset -> Outcome A) (rc : Z) (out err : string)
    (entries : Iconset) :
  extracts f args c rc out err entries ->
  tool_outcome f args c check
  = if rc =? 0 then check entries
    else Failed (str_path c +:+ ": " +:+ reported out err).
Proof.
  intros H. destruct (extracts_captured _ _ _ _ _ _ _ H) as (Hex & Hcap & Hrc & Hent).
  unfold tool_outcome. rewrite Hex. cbn [negb]. cbv zeta.
  by rewrite Hcap, Hrc, Hent, failure_reason_reported.
Qed.

Lemma car_fails_outcome (f : gmap Path Node) (tool : string) (c : Path)
    (reason : string) :
  car_fails f tool c reason ->
  car_outcome f tool c = Failed (str_path c +:+ ": " +:+ reason).
Proof.
  unfold car_outcome.
  intros [Hno | rc out err entries Hx Hrc | out err entries Hx Hpng
          | out err entries opened rgba Hx Hopen Hrgba Hbox].
  - unfold tool_outcome. by rewrite Hno.
  - rewrite (tool_outcome_extracts _ _ _ _ _ _ _ _ Hx).
    by replace (rc =? 0) with false by lia.
  - rewrite (tool_outcome_extracts _ _ _ _ _ _ _ _ Hx). cbn [Z.eqb].
    unfold container_check. change ICONSET_SOURCE_PNG_NAME with "icon_512x512@2x.png"%string.
    by rewrite Hpng.
  - rewrite (tool_outcome_extracts _ _ _ _ _ _ _ _ Hx). cbn [Z.eqb].
    unfold container_check. change ICONSET_SOURCE_PNG_NAME with "icon_512x512@2x.png"%string.
    rewrite (open_entry_exists _ _ _ Hopen). cbn [negb].
    by rewrite Hopen, Hrgba, Hbox.
Qed.

Lemma car_passes_outcome (f : gmap Path Node) (tool : string) (c : Path)
    (bbox : BBox) :
  car_passes f tool c bbox -> car_outcome f tool c = Found bbox.
Proof.
  intros (out & err & entries & opened & rgba & Hx & Hopen & Hrgba & Hbox).
  unfold car_outcome.
  rewrite (tool_outcome_extracts _ _ _ _ _ _ _ _ Hx). cbn [Z.eqb].
  unfold container_check. change ICONSET_SOURCE_PNG_NAME with "icon_512x512@2x.png"%string.
  rewrite (open_entry_exists _ _ _ Hopen). cbn [negb].
  by rewrite Hopen, Hrgba, Hbox.
Qed.

Lemma car_aborts_outcome (f : gmap Path Node) (tool : string) (c : Path)
    (e : Exn) :
  car_aborts f tool c e -> car_outcome f tool c = Aborted e.
Proof.
  unfold car_outcome.
  intros [e' Hex Hcap | out err entries e' Hx Hpng Hopen
          | out err entries opened e' Hx Hopen Hrgba].
  - unfold tool_outcome. rewrite Hex. cbn [negb]. cbv zeta. by rewrite Hcap.
  - rewrite (tool_outcome_extracts _ _ _ _ _ _ _ _ Hx). cbn [Z.eqb].
    unfold container_check. change ICONSET_SOURCE_PNG_NAME with "icon_512x512@2x.png"%string.
    rewrite Hpng. cbn [negb]. by rewrite Hopen.
  - rewrite (tool_outcome_extracts _ _ _ _ _ _ _ _ Hx). cbn [Z.eqb].
    unfold container_check. change ICONSET_SOURCE_PNG_NAME with "icon_512x512@2x.png"%string.
    rewrite (open_entry_exists _ _ _ Hopen). cbn [negb].
    by rewrite Hopen, Hrgba.
Qed.

Lemma select_names_none_readable (entries : Iconset) (names : list string) :
  Forall (fun name => readable entries name = false) names ->
  forall lp la, select_names entries names lp la = lp.
Proof.
  induction 1 as [ | n names Hn _ IH]; intros lp la; [ reflexivity | ].
  simpl. unfold readable in Hn.
  destruct (open_entry entries n); [ discriminate | apply IH ].
Qed.

Lemma icns_fails_outcome (f : gmap Path Node) (tool : string) (c : Path)
    (reason : string) :
  icns_fails f tool c reason ->
  icns_outcome f tool c = Failed (str_path c +:+ ": " +:+ reason).
Proof.
  unfold icns_outcome.
  intros [Hno | rc out err entries Hx Hrc | out err entries Hx Hnone
          | out err entries largest opened rgba Hx Hsel Hopen Hrgba Hbox].
  - unfold tool_outcome. by rewrite Hno.
  - rewrite (tool_outcome_extracts _ _ _ _ _ _ _ _ Hx).
    by replace (rc =? 0) with false by lia.
  - rewrite (tool_outcome_extracts _ _ _ _ _ _ _ _ Hx). cbn [Z.eqb].
    unfold shape_check. by rewrite (select_names_none_readable _ _ Hnone).
  - rewrite (tool_outcome_extracts _ _ _ _ _ _ _ _ Hx). cbn [Z.eqb].
    unfold shape_check. by rewrite Hsel, Hopen, Hrgba, Hbox.
Qed.

Lemma icns_passes_outcome (f : gmap Path Node) (tool : string) (c : Path)
    (alpha : Image Z) :
  icns_passes f tool c alpha -> icns_outcome f tool c = Found alpha.
Proof.
  intros (out & err & entries & largest & opened & rgba
          & Hx & Hsel & Hopen & Hrgba & Hbox & ->).
  unfold icns_outcome.
  rewrite (tool_outcome_extracts _ _ _ _ _ _ _ _ Hx). cbn [Z.eqb].
  unfold shape_check. rewrite Hsel, Hopen, Hrgba.
  by destruct (getbbox (getchannel_A rgba)).
Qed.

Lemma icns_aborts_outcome (f : gmap Path Node) (tool : string) (c : Path)
    (e : Exn) :
  icns_aborts f tool c e -> icns_outcome f tool c = Aborted e.
Proof.
  unfold icns_outcome.
  intros [e' Hex Hcap | out err entries largest opened e' Hx Hsel Hopen Hrgba].
  - unfold tool_outcome. rewrite Hex. cbn [negb]. cbv zeta. by rewrite Hcap.
  - rewrite (tool_outcome_extracts _ _ _ _ _ _ _ _ Hx). cbn [Z.eqb].
    unfold shape_check. by rewrite Hsel, Hopen, Hrgba.
Qed.

Lemma fails_diagnostics {A : Type} (fails : Path -> string -> Prop)
    (outcome : Path -> Outcome A) (cands : list Path) (reasons : list string) :
  (forall c reason, fails c reason ->
                    outcome c = Failed (str_path c +:+ ": " +:+ reason)) ->
  Forall2 fails cands reasons ->
  Forall2 (fun c m => outcome c = Failed m) cands (diagnostics cands reasons).
Proof.
  intros Hout. induction 1 as [ | c reason cands reasons Hc _ IH].
  - constructor.
  - constructor; [ by apply Hout | exact IH ].
Qed.

Lemma append_assoc (a b c : string) : a +:+ (b +:+ c) = (a +:+ b) +:+ c.
Proof.
  induction a as [ | x a IH]; [ reflexivity | ].
  change (String x (a +:+ (b +:+ c)) = String x ((a +:+ b) +:+ c)).
  by rewrite IH.
Qed.

Lemma listing_format (header : string) (lines : list string) :
  listing header lines = (header +:+ nl) +:+ format_errors lines.
Proof. unfold listing, format_errors. apply append_assoc. Qed.

Lemma diagnostics_app (pre post : list Path) (rs rs' : list string) :
  length pre = length rs ->
  diagnostics (pre ++ post) (rs ++ rs') = diagnostics pre rs ++ diagnostics post rs'.
Proof.
  revert rs. induction pre as [ | c pre IH]; intros [ | r rs] Hlen;
    try discriminate; [ reflexivity | ].
  cbn. f_equal. apply IH. by inversion Hlen.
Qed.

End CandidateWords.

(** ** The events of a candidate loop *)

Lemma scoped_probe (c : Path) (evs : list Event) :
  scoped evs = true -> scoped (EvExists c :: evs) = true.
Proof.
  intros H. destruct evs as [ | [ | | | | | | | ] evs]; try done.
Qed.

Lemma scoped_extraction (c : Path) (n : nat) (argv : list string) (evs : list Event) :
  scoped evs = true ->
  scoped (EvExists c :: EvMkdtemp n :: EvRun argv :: EvCleanup n :: evs) = true.
Proof. intros H. cbn [scoped]. by rewrite Nat.eqb_refl, H. Qed.

Section LoopTrace.

Context {host : Host} {A : Type}.
Variable loop : list Path -> list string -> M (A * Path).
Variable outcome : gmap Path Node -> Path -> Outcome A.
Variable args : Path -> list string.
Variable prefix : string.
Variable header : string.

Hypothesis loop_nil : forall errs w,
  loop [] errs w = (Raise (RuntimeError (header +:+ format_errors errs)), w).

Hypothesis loop_step_world : forall c w rest errs,
  loop (c :: rest) errs w
  = match outcome (fs w) c with
    | Found a => (Ok (a, c), after_candidate (args c) prefix c w)
    | Failed m => loop rest (errs ++ [m]) (after_candidate (args c) prefix c w)
    | Aborted e => (Raise e, after_candidate (args c) prefix c w)
    end.

Lemma after_candidate_events (c : Path) (w : World) :
  exists evs,
    events (after_candidate (args c) prefix c w) = events w ++ evs
    /\ probes evs = [c]
    /\ (forall rest, scoped rest = true -> scoped (evs ++ rest) = true).
Proof.
  unfold after_candidate. destruct (node_exists (fs w) c); cbn [negb].
  - cbv zeta. unfold after_cleanup, after_run.
    cbn [events log set_tmp set_next_tmp next_tmp].
    eexists [EvExists c; EvMkdtemp _; EvRun _; EvCleanup _].
    split; [ by rewrite <- !app_assoc | ].
    split; [ reflexivity | ]. intros rest. apply scoped_extraction.
  - exists [EvExists c]. split; [ reflexivity | ].
    split; [ reflexivity | ]. intros rest. apply scoped_probe.
Qed.

(** However the loop ends, its events are those of one candidate after
    the other, each with its directory made and removed. *)
Lemma loop_scoped (cands : list Path) :
  forall errs w,
    exists evs,
      events (snd (loop cands errs w)) = events w ++ evs
      /\ scoped evs = true.
Proof.
  induction cands as [ | c cands IH]; intros errs w.
  - rewrite loop_nil. exists []. by rewrite app_nil_r.
  - rewrite loop_step_world.
    destruct (after_candidate_events c w) as (evs & Hev & _ & Hsc).
    destruct (outcome (fs w) c) as [a | m | e]; cbn [snd].
    + exists evs. split; [ assumption | ].
      rewrite <- (app_nil_r evs). by apply Hsc.
    + destruct (IH (errs ++ [m]) (after_candidate (args c) prefix c w))
        as (evs' & Hev' & Hsc').
      exists (evs ++ evs'). split; [ by rewrite Hev', Hev, app_assoc | by apply Hsc ].
    + exists evs. split; [ assumption | ].
      rewrite <- (app_nil_r evs). by apply Hsc.
Qed.

Lemma probes_app (evs evs' : list Event) :
  probes (evs ++ evs') = probes evs ++ probes evs'.
Proof.
  induction evs as [ | [ | | | | | | | ] evs IH]; cbn [probes app]; try done.
  by rewrite IH.
Qed.

(** A list of candidates that all fail: the error lists what was carried
    and what each of them adds; every candidate was probed. *)
Lemma loop_exhausted (cands : list Path) :
  forall msgs errs w,
    Forall2 (fun c m => outcome (fs w) c = Failed m) cands msgs ->
    fst (loop cands errs w)
    = Raise (RuntimeError (header +:+ format_errors (errs ++ msgs)))
    /\ exists evs,
        events (snd (loop cands errs w)) = events w ++ evs
        /\ probes evs = cands.
Proof.
  induction cands as [ | c cands IH]; intros msgs errs w Hall.
  - inversion Hall; subst. rewrite loop_nil, app_nil_r. split; [ reflexivity | ].
    exists []. by rewrite app_nil_r.
  - inversion Hall as [ | ? m ? msgs' Hc Hrest ]; subst.
    rewrite loop_step_world, Hc.
    destruct (after_candidate_events c w) as (evs & Hev & Hpr & _).
    destruct (IH msgs' (errs ++ [m]) (after_candidate (args c) prefix c w))
      as (Hres & evs' & Hev' & Hpr').
    { by rewrite after_candidate_fs. }
    split; [ by rewrite Hres, <- app_assoc | ].
    exists (evs ++ evs'). split; [ by rewrite Hev', Hev, app_assoc | ].
    by rewrite probes_app, Hpr, Hpr'.
Qed.

(** Candidates that fail, then one that does not: the loop ends there,
    and nothing after it was probed. *)
Lemma loop_decided (pre : list Path) :
  forall msgs errs w c post,
    Forall2 (fun c m => outcome (fs w) c = Failed m) pre msgs ->
    (forall m, outcome (fs w) c <> Failed m) ->
    fst (loop (pre ++ c :: post) errs w)
    = match outcome (fs w) c with
      | Found a => Ok (a, c)
      | Failed m => Raise (RuntimeError m)
      | Aborted e => Raise e
      end
    /\ exists evs,
        events (snd (loop (pre ++ c :: post) errs w)) = events w ++ evs
        /\ probes evs = pre ++ [c].
Proof.
  induction pre as [ | p pre IH]; intros msgs errs w c post Hall Hc.
  - cbn [app]. rewrite loop_step_world.
    destruct (after_candidate_events c w) as (evs & Hev & Hpr & _).
    destruct (outcome (fs w) c) as [a | m | e]; [ | by destruct (Hc m) | ];
      (split; [ reflexivity | by exists evs ]).
  - inversion Hall as [ | ? m ? msgs' Hp Hrest ]; subst.
    cbn [app]. rewrite loop_step_world, Hp.
    destruct (after_candidate_events p w) as (evs & Hev & Hpr & _).
    pose proof (after_candidate_fs (args p) prefix p w) as Hfs.
    destruct (IH msgs' (errs ++ [m]) (after_candidate (args p) prefix p w) c post)
      as (Hres & evs' & Hev' & Hpr').
    { by rewrite Hfs. }
    { by rewrite Hfs. }
    rewrite Hfs in Hres. split; [ exact Hres | ].
    exists (evs ++ evs'). split; [ by rewrite Hev', Hev, app_assoc | ].
    by rewrite probes_app, Hpr, Hpr'.
Qed.

(** After candidates that fail, the one that follows is probed. *)
Lemma loop_probes_next (pre : list Path) :
  forall msgs errs w next post,
    Forall2 (fun c m => outcome (fs w) c = Failed m) pre msgs ->
    exists evs,
      events (snd (loop (pre ++ next :: post) errs w)) = events w ++ evs
      /\ (pre ++ [next]) `prefix_of` probes evs.
Proof.
  induction pre as [ | p pre IH]; intros msgs errs w next post Hall.
  - cbn [app]. rewrite loop_step_world.
    destruct (after_candidate_events next w) as (evs & Hev & Hpr & _).
    destruct (outcome (fs w) next) as [a | m | e]; cbn [snd].
    + exists evs. split; [ assumption | ]. rewrite Hpr. by exists [].
    + destruct (loop_scoped post (errs ++ [m])
                  (after_candidate (args next) prefix next w)) as (evs' & Hev' & _).
      exists (evs ++ evs'). split; [ by rewrite Hev', Hev, app_assoc | ].
      rewrite probes_app, Hpr. by exists (probes evs').
    + exists evs. split; [ assumption | ]. rewrite Hpr. by exists [].
  - inversion Hall as [ | ? m ? msgs' Hp Hrest ]; subst.
    cbn [app]. rewrite loop_step_world, Hp.
    destruct (after_candidate_events p w) as (evs & Hev & Hpr & _).
    pose proof (after_candidate_fs (args p) prefix p w) as Hfs.
    destruct (IH msgs' (errs ++ [m]) (after_candidate (args p) prefix p w) next post)
      as (evs' & Hev' & k & Hk).
    { by rewrite Hfs. }
    exists (evs ++ evs'). split; [ by rewrite Hev', Hev, app_assoc | ].
    rewrite probes_app, Hpr, Hk. exists k. reflexivity.
Qed.

End LoopTrace.

(** ** The two loaders *)

Section LoadersInWords.

Context {imaging : Imaging} {host : Host}.

Lemma container_exhausted (tool : string) (cands : list Path)
    (reasons errs : list string) (w : World) :
  Forall2 (car_fails (fs w) tool) cands reasons ->
  fst (container_loop tool cands errs w)
  = Raise (RuntimeError
      (listing
         "[branding] failed to extract macOS container bbox from native Assets.car files."
         (errs ++ diagnostics cands reasons)))
  /\ exists evs,
      events (snd (container_loop tool cands errs w)) = events w ++ evs
      /\ probes evs = cands.
Proof.
  intros Hall. rewrite listing_format.
  apply (loop_exhausted (container_loop tool) (fun f c => car_outcome f tool c)
           (car_args tool) car_prefix container_header
           (container_loop_nil tool) (container_loop_step_world tool)).
  apply (fails_diagnostics (car_fails (fs w) tool)); [ | exact Hall ].
  apply car_fails_outcome.
Qed.

Lemma shape_exhausted (tool : string) (cands : list Path)
    (reasons errs : list string) (w : World) :
  Forall2 (icns_fails (fs w) tool) cands reasons ->
  fst (shape_loop tool cands errs w)
  = Raise (RuntimeError
      (listing
         "[branding] failed to extract macOS rounded icon shape from native AppIcon.icns files."
         (errs ++ diagnostics cands reasons)))
  /\ exists evs,
      events (snd (shape_loop tool cands errs w)) = events w ++ evs
      /\ probes evs = cands.
Proof.
  intros Hall. rewrite listing_format.
  apply (loop_exhausted (shape_loop tool) (fun f c => icns_outcome f tool c)
           (icns_args tool) icns_prefix shape_header
           (shape_loop_nil tool) (shape_loop_step_world tool)).
  apply (fails_diagnostics (icns_fails (fs w) tool)); [ | exact Hall ].
  apply icns_fails_outcome.
Qed.

Lemma container_decided (tool : string) (pre : list Path) (c : Path)
    (post : list Path) (reasons errs : list string) (w : World) :
  Forall2 (car_fails (fs w) tool) pre reasons ->
  (forall m, car_outcome (fs w) tool c <> Failed m) ->
  fst (container_loop tool (pre ++ c :: post) errs w)
  = match car_outcome (fs w) tool c with
    | Found a => Ok (a, c)
    | Failed m => Raise (RuntimeError m)
    | Aborted e => Raise e
    end
  /\ exists evs,
      events (snd (container_loop tool (pre ++ c :: post) errs w)) = events w ++ evs
      /\ probes evs = pre ++ [c].
Proof.
  intros Hall Hc.
  apply (loop_decided (container_loop tool) (fun f c => car_outcome f tool c)
           (car_args tool) car_prefix
           (container_loop_step_world tool) pre (diagnostics pre reasons));
    [ | exact Hc ].
  apply (fails_diagnostics (car_fails (fs w) tool)); [ | exact Hall ].
  apply car_fails_outcome.
Qed.

Lemma shape_decided (tool : string) (pre : list Path) (c : Path)
    (post : list Path) (reasons errs : list string) (w : World) :
  Forall2 (icns_fails (fs w) tool) pre reasons ->
  (forall m, icns_outcome (fs w) tool c <> Failed m) ->
  fst (shape_loop tool (pre ++ c :: post) errs w)
  = match icns_outcome (fs w) tool c with
    | Found a => Ok (a, c)
    | Failed m => Raise (RuntimeError m)
    | Aborted e => Raise e
    end
  /\ exists evs,
      events (snd (shape_loop tool (pre ++ c :: post) errs w)) = events w ++ evs
      /\ probes evs = pre ++ [c].
Proof.
  intros Hall Hc.
  apply (loop_decided (shape_loop tool) (fun f c => icns_outcome f tool c)
           (icns_args tool) icns_prefix
           (shape_loop_step_world tool) pre (diagnostics pre reasons));
    [ | exact Hc ].
  apply (fails_diagnostics (icns_fails (fs w) tool)); [ | exact Hall ].
  apply icns_fails_outcome.
Qed.

(** C2, amended.  For both candidate lists.  When every candidate fails
    for a recorded reason (it is missing; [iconutil] exits with an error,
    the reason being what it wrote, stripped, or "iconutil failed"; the
    expected PNG, or every PNG that can be opened, is missing from what
    was extracted; the alpha channel is empty), the loader raises a
    [RuntimeError] whose message is the header line followed by one line
    "  - path: reason" for each candidate of the list, in order.  When a
    candidate passes after the candidates before it have failed in these
    ways, the loader returns its value with its path, and the candidates
    probed are those up to it: none after it is tried. *)
Theorem candidates_enumerated_or_first_passing_returned (tool : string) (w : World) :
  (forall reasons,
      Forall2 (car_fails (fs w) tool) MACOS_ICON_CAR_CANDIDATES reasons ->
      fst (load_macos_container_bbox tool w)
      = Raise (RuntimeError
          (listing
             "[branding] failed to extract macOS container bbox from native Assets.car files."
             (diagnostics MACOS_ICON_CAR_CANDIDATES reasons))))
  /\ (forall reasons,
      Forall2 (icns_fails (fs w) tool) MACOS_ICON_ICNS_CANDIDATES reasons ->
      fst (load_macos_rounded_shape_mask tool w)
      = Raise (RuntimeError
          (listing
             "[branding] failed to extract macOS rounded icon shape from native AppIcon.icns files."
             (diagnostics MACOS_ICON_ICNS_CANDIDATES reasons))))
  /\ (forall pre c post reasons bbox,
      MACOS_ICON_CAR_CANDIDATES = pre ++ c :: post ->
      Forall2 (car_fails (fs w) tool) pre reasons ->
      car_passes (fs w) tool c bbox ->
      fst (load_macos_container_bbox tool w) = Ok (bbox, c)
      /\ exists evs,
          events (snd (load_macos_container_bbox tool w)) = events w ++ evs
          /\ probes evs = pre ++ [c])
  /\ (forall pre c post reasons alpha,
      MACOS_ICON_ICNS_CANDIDATES = pre ++ c :: post ->
      Forall2 (icns_fails (fs w) tool) pre reasons ->
      icns_passes (fs w) tool c alpha ->
      fst (load_macos_rounded_shape_mask tool w) = Ok (alpha, c)
      /\ exists evs,
          events (snd (load_macos_rounded_shape_mask tool w)) = events w ++ evs
          /\ probes evs = pre ++ [c]).
Proof.
  split_and!.
  - intros reasons Hall.
    apply (container_exhausted tool _ reasons [] w Hall).
  - intros reasons Hall.
    apply (shape_exhausted tool _ reasons [] w Hall).
  - intros pre c post reasons bbox Hlist Hpre Hpass.
    pose proof (car_passes_outcome _ _ _ _ Hpass) as Hout.
    unfold load_macos_container_bbox. rewrite Hlist.
    destruct (container_decided tool pre c post reasons [] w Hpre) as [Hres Hev].
    { intros m. by rewrite Hout. }
    rewrite Hout in Hres. by split.
  - intros pre c post reasons alpha Hlist Hpre Hpass.
    pose proof (icns_passes_outcome _ _ _ _ Hpass) as Hout.
    unfold load_macos_rounded_shape_mask. rewrite Hlist.
    destruct (shape_decided tool pre c post reasons [] w Hpre) as [Hres Hev].
    { intros m. by rewrite Hout. }
    rewrite Hout in Hres. by split.
Qed.

End LoadersInWords.

(** ** Temporary directories *)

Section Scoped.

Context {imaging : Imaging} {host : Host}.


End Scoped.

(** ** The largest PNG, and the empty alpha channel *)

Section EmptyAlpha.

Context {imaging : Imaging} {host : Host}.

Lemma Forall2_fails_app {R : Path -> string -> Prop} (pre post : list Path)
    (c : Path) (rs rs' : list string) (r : string) :
  Forall2 R pre rs -> R c r -> Forall2 R post rs' ->
  Forall2 R (pre ++ c :: post) (rs ++ r :: rs').
Proof. intros Hpre Hc Hpost. apply Forall2_app; [ assumption | by constructor ]. Qed.

Lemma diagnostics_middle (pre post : list Path) (c : Path) (rs rs' : list string)
    (r : string) :
  length pre = length rs ->
  diagnostics (pre ++ c :: post) (rs ++ r :: rs')
  = diagnostics pre rs ++ (str_path c +:+ ": " +:+ r) :: diagnostics post rs'.
Proof. intros Hlen. by rewrite diagnostics_app. Qed.

(** C7.  The PNG that [select_largest_icon_png] returns is a PNG of the
    iconset directory that can be opened and whose area, width times
    height, is at least the area of every PNG of the directory that can
    be opened; it returns [None] only if none can; it changes nothing.
    In both loaders, a candidate whose alpha channel has an empty
    bounding box ([getbbox] is [None]) counts as a candidate that failed:
    if the candidates after it fail too, its line in the error raised
    reads "extracted alpha mask is empty"; if a candidate after it
    passes, that one is returned; and in any case the candidate that
    follows it is probed. *)
Theorem largest_png_selected_and_empty_mask_skips :
  (forall (d : nat) (w : World) (chosen : option string),
      fst (select_largest_icon_png d w) = Ok chosen ->
      snd (select_largest_icon_png d w) = w
      /\ match chosen with
         | Some p =>
             In p (glob_png (entries_of w d))
             /\ exists f,
                 iconset_open d p w = (Ok f, w)
                 /\ forall q fq,
                     In q (glob_png (entries_of w d)) ->
                     iconset_open d q w = (Ok fq, w) ->
                     area_of fq <= area_of f
         | None =>
             forall q, In q (glob_png (entries_of w d)) ->
                       readable (entries_of w d) q = false
         end)
  /\ (forall (tool : string) (w : World) (pre : list Path) (c : Path)
             (post : list Path) (reasons : list string) (out err : string)
             (entries : Iconset) (opened : ImageFile) (rgba : Image RGBA),
      MACOS_ICON_CAR_CANDIDATES = pre ++ c :: post ->
      Forall2 (car_fails (fs w) tool) pre reasons ->
      extracts (fs w) (car_args tool c) c 0 out err entries ->
      open_entry entries "icon_512x512@2x.png" = Ok opened ->
      rgba_of opened = Ok rgba ->
      getbbox (container_mask rgba) = None ->
      (forall later,
          Forall2 (car_fails (fs w) tool) post later ->
          fst (load_macos_container_bbox tool w)
          = Raise (RuntimeError
              (listing
                 "[branding] failed to extract macOS container bbox from native Assets.car files."
                 (diagnostics pre reasons
                    ++ (str_path c +:+ ": extracted alpha mask is empty")
                    :: diagnostics post later))))
      /\ (forall mid c' post' later bbox,
             post = mid ++ c' :: post' ->
             Forall2 (car_fails (fs w) tool) mid later ->
             car_passes (fs w) tool c' bbox ->
             fst (load_macos_container_bbox tool w) = Ok (bbox, c'))
      /\ (forall c' post',
             post = c' :: post' ->
             exists evs,
               events (snd (load_macos_container_bbox tool w)) = events w ++ evs
               /\ (pre ++ [c; c']) `prefix_of` probes evs))
  /\ (forall (tool : string) (w : World) (pre : list Path) (c : Path)
             (post : list Path) (reasons : list string) (out err : string)
             (entries : Iconset) (largest : string) (opened : ImageFile)
             (rgba : Image RGBA),
      MACOS_ICON_ICNS_CANDIDATES = pre ++ c :: post ->
      Forall2 (icns_fails (fs w) tool) pre reasons ->
      extracts (fs w) (icns_args tool c) c 0 out err entries ->
      select_names entries (glob_png entries) None (-1) = Some largest ->
      open_entry entries largest = Ok opened ->
      rgba_of opened = Ok rgba ->
      getbbox (getchannel_A rgba) = None ->
      (forall later,
          Forall2 (icns_fails (fs w) tool) post later ->
          fst (load_macos_rounded_shape_mask tool w)
          = Raise (RuntimeError
              (listing
                 "[branding] failed to extract macOS rounded icon shape from native AppIcon.icns files."
                 (diagnostics pre reasons
                    ++ (str_path c +:+ ": extracted alpha mask is empty")
                    :: diagnostics post later))))
      /\ (forall mid c' post' later alpha,
             post = mid ++ c' :: post' ->
             Forall2 (icns_fails (fs w) tool) mid later ->
             icns_passes (fs w) tool c' alpha ->
             fst (load_macos_rounded_shape_mask tool w) = Ok (alpha, c'))
      /\ (forall c' post',
             post = c' :: post' ->
             exists evs,
               events (snd (load_macos_rounded_shape_mask tool w)) = events w ++ evs
               /\ (pre ++ [c; c']) `prefix_of` probes evs)).
Proof.
  split; [ | split ].
  - intros d w chosen. rewrite select_largest_icon_png_spec. cbn [fst snd].
    intros H; inversion H; subst chosen. split; [ reflexivity | ].
    pose proof (select_names_max (entries_of w d) (glob_png (entries_of w d))
                  None (-1) eq_refl) as Hmax.
    destruct (select_names _ _ None (-1)) as [p | ].
    + destruct Hmax as ([Hp | Hp] & f & Hf & _ & Hall); [ discriminate | ].
      split; [ assumption | ]. exists f. split; [ by apply iconset_open_Ok | ].
      intros q fq Hq Hopen. apply (Hall q fq Hq). by apply iconset_open_Ok.
    + by destruct Hmax.
  - intros tool w pre c post reasons out err entries opened rgba
           Hlist Hpre Hx Hopen Hrgba Hbox.
    assert (Hc : car_fails (fs w) tool c "extracted alpha mask is empty")
      by (by eapply car_alpha_empty).
    pose proof (Forall2_length _ _ _ Hpre) as Hlen.
    unfold load_macos_container_bbox. rewrite Hlist. split_and!.
    + intros later Hpost.
      destruct (container_exhausted tool (pre ++ c :: post)
                  (reasons ++ "extracted alpha mask is empty"%string :: later) [] w)
        as [Hres _]; [ by apply Forall2_fails_app | ].
      rewrite Hres. cbn [app]. rewrite diagnostics_middle by assumption.
      reflexivity.
    + intros mid c' post' later bbox -> Hmid Hpass.
      pose proof (car_passes_outcome _ _ _ _ Hpass) as Hout.
      replace (pre ++ c :: mid ++ c' :: post')
        with ((pre ++ c :: mid) ++ c' :: post') by (by rewrite <- app_assoc).
      destruct (container_decided tool (pre ++ c :: mid) c' post'
                  (reasons ++ "extracted alpha mask is empty"%string :: later) [] w)
        as [Hres _].
      { by apply Forall2_fails_app. }
      { intros m. by rewrite Hout. }
      by rewrite Hout in Hres.
    + intros c' post' ->.
      replace (pre ++ c :: c' :: post')
        with ((pre ++ [c]) ++ c' :: post') by (by rewrite <- app_assoc).
      replace (pre ++ [c; c']) with ((pre ++ [c]) ++ [c']) by (by rewrite <- app_assoc).
      apply (loop_probes_next (container_loop tool) (fun f c => car_outcome f tool c)
               (car_args tool) car_prefix container_header
               (container_loop_nil tool) (container_loop_step_world tool)
               (pre ++ [c])
               (diagnostics (pre ++ [c])
                            (reasons ++ ["extracted alpha mask is empty"%string]))).
      apply (fails_diagnostics (car_fails (fs w) tool)); [ apply car_fails_outcome | ].
      apply Forall2_fails_app; [ assumption | assumption | constructor ].
  - intros tool w pre c post reasons out err entries largest opened rgba
           Hlist Hpre Hx Hsel Hopen Hrgba Hbox.
    assert (Hc : icns_fails (fs w) tool c "extracted alpha mask is empty")
      by (by eapply icns_alpha_empty).
    pose proof (Forall2_length _ _ _ Hpre) as Hlen.
    unfold load_macos_rounded_shape_mask. rewrite Hlist. split_and!.
    + intros later Hpost.
      destruct (shape_exhausted tool (pre ++ c :: post)
                  (reasons ++ "extracted alpha mask is empty"%string :: later) [] w)
        as [Hres _]; [ by apply Forall2_fails_app | ].
      rewrite Hres. cbn [app]. rewrite diagnostics_middle by assumption.
      reflexivity.
    + intros mid c' post' later alpha -> Hmid Hpass.
      pose proof (icns_passes_outcome _ _ _ _ Hpass) as Hout.
      replace (pre ++ c :: mid ++ c' :: post')
        with ((pre ++ c :: mid) ++ c' :: post') by (by rewrite <- app_assoc).
      destruct (shape_decided tool (pre ++ c :: mid) c' post'
                  (reasons ++ "extracted alpha mask is empty"%string :: later) [] w)
        as [Hres _].
      { by apply Forall2_fails_app. }
      { intros m. by rewrite Hout. }
      by rewrite Hout in Hres.
    + intros c' post' ->.
      replace (pre ++ c :: c' :: post')
        with ((pre ++ [c]) ++ c' :: post') by (by rewrite <- app_assoc).
      replace (pre ++ [c; c']) with ((pre ++ [c]) ++ [c']) by (by rewrite <- app_assoc).
      apply (loop_probes_next (shape_loop tool) (fun f c => icns_outcome f tool c)
               (icns_args tool) icns_prefix shape_header
               (shape_loop_nil tool) (shape_loop_step_world tool)
               (pre ++ [c])
               (diagnostics (pre ++ [c])
                            (reasons ++ ["extracted alpha mask is empty"%string]))).
      apply (fails_diagnostics (icns_fails (fs w) tool)); [ apply icns_fails_outcome | ].
      apply Forall2_fails_app; [ assumption | assumption | constructor ].
Qed.

End EmptyAlpha.

(** ** No step of a run fails in silence *)

Section StepByStep.

Context {imaging : Imaging} {host : Host}.

Lemma steps_add (a b : nat) (p : Path) :
  forall at_ w, steps (a + b) p at_ w = bind (steps a p at_) (steps b p) w.
Proof.
  induction a as [ | a IH]; intros at_ w; [ reflexivity | ].
  cbn [Nat.add steps]. unfold bind in *.
  destruct (next_step p at_ w) as [[next | e] w']; [ apply IH | reflexivity ].
Qed.

Ltac step_cases :=
  repeat match goal with
         | |- context [match ?m with _ => _ end] => destruct m
         end.

Lemma next_step_rank (p : Path) (at_ next : Progress) (w w' : World) :
  next_step p at_ w = (Ok next, w') ->
  (rank at_ = 11%nat /\ next = at_ /\ w' = w)
  \/ ((rank at_ < 11)%nat /\ rank next = S (rank at_)).
Proof.
  destruct at_ as [ | | | | | opened | source | source [[mask cs] rs]
                   | icon cs rs | icon cs rs | icon cs rs | cs rs ];
    cbn [next_step rank]; unfold bind, ret, lift, convert_RGBA;
    step_cases; intros H; inversion H; subst;
    (left; by repeat split) || (right; split; [ lia | reflexivity ]).
Qed.

Lemma next_step_last (p : Path) (at_ : Progress) (w W : World) (e : Exn) :
  next_step p at_ w = (Raise e, W) -> (rank at_ < 11)%nat.
Proof.
  destruct at_; cbn [next_step rank]; try lia. discriminate.
Qed.

Lemma reaches_steps (p : Path) (w : World) (at_ : Progress) (w1 : World) :
  reaches p w at_ w1 -> steps (rank at_) p Started w = (Ok at_, w1).
Proof.
  induction 1 as [ | at_ next w1 w2 _ IH Hnext]; [ reflexivity | ].
  destruct (next_step_rank _ _ _ _ _ Hnext) as [(_ & -> & ->) | (_ & ->)];
    [ exact IH | ].
  rewrite <- Nat.add_1_r, steps_add. unfold bind at 1. rewrite IH.
  cbn [steps]. unfold bind. by rewrite Hnext.
Qed.

Lemma steps_reaches (p : Path) (w : World) (n : nat) :
  forall at_ w1 last W,
    reaches p w at_ w1 ->
    steps n p at_ w1 = (Ok last, W) ->
    reaches p w last W.
Proof.
  induction n as [ | n IH]; intros at_ w1 last W Hreach Hsteps.
  - inversion Hsteps; by subst.
  - cbn [steps] in Hsteps. unfold bind in Hsteps.
    destruct (next_step p at_ w1) as [[next | e] w2] eqn:Hnext; [ | discriminate ].
    eapply IH; [ | exact Hsteps ]. by eapply reaches_next.
Qed.

(** The call, as eleven steps. *)
Lemma build_as_steps (p : Path) (w : World) :
  build_icons_from_source p w
  = (match fst (steps 11 p Started w) with
     | Ok (IcnsSaved cs rs) => Ok (cs, rs)
     | Ok _ => Raise (RuntimeError "")
     | Raise e => Raise e
     end, snd (steps 11 p Started w)).
Proof.
  unfold build_icons_from_source. cbn [steps]. unfold bind, ret.
  cbn [next_step]. unfold bind, ret, lift, convert_RGBA.
  destruct (mkdir_parents _ w) as [[[] | ?] w1]; [ | reflexivity ].
  cbn [next_step]. unfold bind, ret.
  destruct (mkdir_parents _ w1) as [[[] | ?] w2]; [ | reflexivity ].
  cbn [next_step]. unfold bind, ret.
  destruct (copyfile _ _ w2) as [[[] | ?] w3]; [ | reflexivity ].
  cbn [next_step]. unfold bind, ret.
  destruct (copyfile _ _ w3) as [[[] | ?] w4]; [ | reflexivity ].
  cbn [next_step]. unfold bind, ret.
  destruct (Image_open _ w4) as [[opened | ?] w5]; [ | reflexivity ].
  cbn [next_step]. unfold bind, ret, convert_RGBA. unfold lift.
  destruct (rgba_of opened) as [source | ?]; [ | reflexivity ].
  cbn [next_step]. unfold bind, ret.
  destruct (load_macos_standard_mask w5) as [[[[mask cs] rs] | ?] w6];
    [ | reflexivity ].
  cbn [next_step]. unfold bind, ret, lift.
  destruct (build_desktop_icon_with_mask source mask) as [icon | ?];
    [ | reflexivity ].
  cbn [next_step]. unfold bind, ret.
  destruct (save_bytes _ _ _ w6) as [[[] | ?] w7]; [ | reflexivity ].
  cbn [next_step]. unfold bind, ret.
  destruct (save_bytes _ _ _ w7) as [[[] | ?] w8]; [ | reflexivity ].
  cbn [next_step]. unfold bind, ret.
  destruct (save_bytes _ _ _ w8) as [[[] | ?] w9]; reflexivity.
Qed.

(** A step that raises ends the call, with its exception. *)
Lemma build_stops_at_failing_step (p : Path) (w : World) (at_ : Progress)
    (w1 W : World) (e : Exn) :
  reaches p w at_ w1 ->
  next_step p at_ w1 = (Raise e, W) ->
  build_icons_from_source p w = (Raise e, W).
Proof.
  intros Hreach Hnext.
  pose proof (next_step_last _ _ _ _ _ Hnext) as Hrank.
  assert (Hsteps : steps 11 p Started w = (Raise e, W)).
  { replace 11%nat with (rank at_ + S (10 - rank at_))%nat by lia.
    rewrite steps_add. unfold bind at 1. rewrite (reaches_steps _ _ _ _ Hreach).
    cbn [steps]. unfold bind. by rewrite Hnext. }
  by rewrite build_as_steps, Hsteps.
Qed.

(** A call that returns has gone through every step. *)
Lemma build_returns_after_every_step (p : Path) (w W : World) (cs rs : Path) :
  build_icons_from_source p w = (Ok (cs, rs), W) ->
  reaches p w (IcnsSaved cs rs) W.
Proof.
  rewrite build_as_steps. intros H.
  destruct (steps 11 p Started w) as [[last | e] W'] eqn:Hsteps; cbn [fst snd] in H;
    [ | discriminate ].
  destruct last; try discriminate. inversion H; subst.
  eapply steps_reaches; [ apply reaches_start | exact Hsteps ].
Qed.

Lemma mask_stage_on_macos (w : World) (tool : string) :
  platform w = "darwin"%string -> which_iconutil w = Some tool ->
  load_macos_standard_mask w
  = (container <- load_macos_container_bbox tool;;
     let '(container_bbox, container_source) := container in
     rounded <- load_macos_rounded_shape_mask tool;;
     let '(rounded_shape_alpha, rounded_shape_source) := rounded in
     mask <- lift (reshape_mask_to_bbox rounded_shape_alpha container_bbox);;
     ret (mask, container_source, rounded_shape_source)) w.
Proof.
  intros Hp Hw. unfold load_macos_standard_mask, bind at 1, get_world.
  rewrite Hp, Hw. reflexivity.
Qed.

Lemma container_aborted (tool : string) (pre : list Path) (c : Path)
    (post : list Path) (reasons errs : list string) (w : World) (e : Exn) :
  Forall2 (car_fails (fs w) tool) pre reasons ->
  car_aborts (fs w) tool c e ->
  fst (container_loop tool (pre ++ c :: post) errs w) = Raise e.
Proof.
  intros Hpre Habort. pose proof (car_aborts_outcome _ _ _ _ Habort) as Hout.
  destruct (container_decided tool pre c post reasons errs w Hpre) as [Hres _].
  { intros m. by rewrite Hout. }
  by rewrite Hout in Hres.
Qed.

Lemma shape_aborted (tool : string) (pre : list Path) (c : Path)
    (post : list Path) (reasons errs : list string) (w : World) (e : Exn) :
  Forall2 (icns_fails (fs w) tool) pre reasons ->
  icns_aborts (fs w) tool c e ->
  fst (shape_loop tool (pre ++ c :: post) errs w) = Raise e.
Proof.
  intros Hpre Habort. pose proof (icns_aborts_outcome _ _ _ _ Habort) as Hout.
  destruct (shape_decided tool pre c post reasons errs w Hpre) as [Hres _].
  { intros m. by rewrite Hout. }
  by rewrite Hout in Hres.
Qed.

(** C6, amended.  No failure is swallowed, but for one.
    (1) [select_largest_icon_png] skips a PNG that fails to open: what it
    returns is what it would return if the files that cannot be opened
    were not in the directory, and nothing is recorded.
    (2) A step of [build_icons_from_source] that raises (making a
    directory, copying the master file, opening or converting it, the mask
    stage, compositing, one of the three saves), the steps before it
    having returned, ends the call with that very exception; a call that
    returns has gone through every step.
    (3) The mask stage raises its own messages for another platform and
    for a missing [iconutil]; an exception of a loader or of
    [reshape_mask_to_bbox] leaves it unchanged.
    (4) In both loops, the diagnostics carried so far and the diagnostic
    of each candidate that fails make up, in order, the message of the
    error raised when the list is exhausted; an exception that is none
    of the recorded failures (text that cannot be decoded, a PNG that
    cannot be opened or converted) leaves the loop unchanged.
    (5) [main] raises [SystemExit] with a message that names the master
    file when it is missing, and an exception of
    [build_icons_from_source] leaves [main] unchanged. *)
Theorem failures_surface_except_unreadable_png :
  (forall (d : nat) (w : World) (chosen : option string),
      fst (select_largest_icon_png d w) = Ok chosen ->
      chosen = select_names (entries_of w d)
                 (List.filter (readable (entries_of w d)) (glob_png (entries_of w d)))
                 None (-1)
      /\ snd (select_largest_icon_png d w) = w)
  /\ ((forall (p : Path) (w : World) (at_ : Progress) (w1 W : World) (e : Exn),
          reaches p w at_ w1 ->
          next_step p at_ w1 = (Raise e, W) ->
          build_icons_from_source p w = (Raise e, W))
      /\ (forall (p : Path) (w W : World) (cs rs : Path),
             build_icons_from_source p w = (Ok (cs, rs), W) ->
             reaches p w (IcnsSaved cs rs) W))
  /\ ((forall w,
          platform w <> "darwin"%string ->
          load_macos_standard_mask w
          = (Raise (RuntimeError
                      "[branding] macOS standard icon mask extraction requires macOS."),
             w))
      /\ (forall w,
             platform w = "darwin"%string -> which_iconutil w = None ->
             load_macos_standard_mask w
             = (Raise (RuntimeError
                  "[branding] iconutil is missing, cannot extract macOS standard icon mask."),
                w))
      /\ (forall w tool e W,
             platform w = "darwin"%string -> which_iconutil w = Some tool ->
             load_macos_container_bbox tool w = (Raise e, W) ->
             load_macos_standard_mask w = (Raise e, W))
      /\ (forall w tool bbox cs W1 e W,
             platform w = "darwin"%string -> which_iconutil w = Some tool ->
             load_macos_container_bbox tool w = (Ok (bbox, cs), W1) ->
             load_macos_rounded_shape_mask tool W1 = (Raise e, W) ->
             load_macos_standard_mask w = (Raise e, W))
      /\ (forall w tool bbox cs W1 alpha rs W e,
             platform w = "darwin"%string -> which_iconutil w = Some tool ->
             load_macos_container_bbox tool w = (Ok (bbox, cs), W1) ->
             load_macos_rounded_shape_mask tool W1 = (Ok (alpha, rs), W) ->
             reshape_mask_to_bbox alpha bbox = Raise e ->
             load_macos_standard_mask w = (Raise e, W)))
  /\ ((forall tool cands reasons errs w,
          Forall2 (car_fails (fs w) tool) cands reasons ->
          fst (container_loop tool cands errs w)
          = Raise (RuntimeError
              (listing
                 "[branding] failed to extract macOS container bbox from native Assets.car files."
                 (errs ++ diagnostics cands reasons))))
      /\ (forall tool cands reasons errs w,
             Forall2 (icns_fails (fs w) tool) cands reasons ->
             fst (shape_loop tool cands errs w)
             = Raise (RuntimeError
                 (listing
                    "[branding] failed to extract macOS rounded icon shape from native AppIcon.icns files."
                    (errs ++ diagnostics cands reasons))))
      /\ (forall tool pre c post reasons errs w e,
             Forall2 (car_fails (fs w) tool) pre reasons ->
             car_aborts (fs w) tool c e ->
             fst (container_loop tool (pre ++ c :: post) errs w) = Raise e)
      /\ (forall tool pre c post reasons errs w e,
             Forall2 (icns_fails (fs w) tool) pre reasons ->
             icns_aborts (fs w) tool c e ->
             fst (shape_loop tool (pre ++ c :: post) errs w) = Raise e))
  /\ ((forall w,
          node_exists (fs w) SOURCE_ICON_PATH = false ->
          fst (main w)
          = Raise (SystemExit ("[branding] source icon missing: "
                                 +:+ str_path SOURCE_ICON_PATH)))
      /\ (forall (w W : World) (e : Exn),
             node_exists (fs w) SOURCE_ICON_PATH = true ->
             build_icons_from_source SOURCE_ICON_PATH (at_build w) = (Raise e, W) ->
             main w = (Raise e, W))).
Proof.
  split_and!.
  - intros d w chosen. rewrite select_largest_icon_png_spec. cbn [fst snd].
    intros H; inversion H. split; [ | reflexivity ].
    apply select_names_skips_unreadable.
  - apply build_stops_at_failing_step.
  - apply build_returns_after_every_step.
  - intros w Hp. unfold load_macos_standard_mask, bind, get_world.
    apply String.eqb_neq in Hp. by rewrite Hp.
  - intros w Hp Hw. unfold load_macos_standard_mask, bind, get_world.
    rewrite Hp, Hw. reflexivity.
  - intros w tool e W Hp Hw Hc. rewrite (mask_stage_on_macos w tool Hp Hw).
    by rewrite (bind_Raise _ _ _ _ _ Hc).
  - intros w tool bbox cs W1 e W Hp Hw Hc Hs.
    rewrite (mask_stage_on_macos w tool Hp Hw), (bind_Ok _ _ _ _ _ Hc).
    by rewrite (bind_Raise _ _ _ _ _ Hs).
  - intros w tool bbox cs W1 alpha rs W e Hp Hw Hc Hs Hre.
    rewrite (mask_stage_on_macos w tool Hp Hw), (bind_Ok _ _ _ _ _ Hc).
    rewrite (bind_Ok _ _ _ _ _ Hs). unfold bind, lift. by rewrite Hre.
  - intros tool cands reasons errs w Hall.
    apply (container_exhausted tool cands reasons errs w Hall).
  - intros tool cands reasons errs w Hall.
    apply (shape_exhausted tool cands reasons errs w Hall).
  - intros tool pre c post reasons errs w e. apply container_aborted.
  - intros tool pre c post reasons errs w e. apply shape_aborted.
  - intros w Hno.
    destruct (main_cases w) as [(_ & E) | (Hyes & _)]; [ by rewrite E | congruence ].
  - intros w W e Hex Hbuild.
    destruct (main_cases w) as [(Hno & _) | (_ & r & W' & Ebuild & Hr)];
      [ congruence | ].
    rewrite Hbuild in Ebuild. inversion Ebuild; subst. exact Hr.
Qed.

End StepByStep.

(** ** On the sample machines *)

Section MoreRuns.

Import Byte Sample MoreSamples.

Ltac run := vm_compute; reflexivity.
Ltac extracted := unfold extracts; split_and!; run.

Lemma nothing_usable_cars :
  Forall2 (car_fails (fs mac_nothing_usable) tool) MACOS_ICON_CAR_CANDIDATES
    [ "cannot read archive"; "missing"; "missing icon_512x512@2x.png";
      "extracted alpha mask is empty"; "extracted alpha mask is empty" ]%string.
Proof.
  constructor; [ | constructor; [ | constructor; [ | constructor;
    [ | constructor; [ | constructor ] ] ] ] ].
  - apply (car_tool_failed _ _ _ 1 ""%string cannot_read []); [ extracted | lia ].
  - apply car_missing. run.
  - apply (car_png_missing _ _ _ ""%string ""%string []); [ extracted | run ].
  - apply (car_alpha_empty _ _ _ ""%string ""%string blank_entries blank_file blank_art);
      [ extracted | run .. ].
  - apply (car_alpha_empty _ _ _ ""%string ""%string blank_entries blank_file blank_art);
      [ extracted | run .. ].
Qed.

Lemma nothing_usable_icns :
  Forall2 (icns_fails (fs mac_nothing_usable) tool) MACOS_ICON_ICNS_CANDIDATES
    [ "cannot read archive"; "missing"; "no PNG images in extracted iconset";
      "no PNG images in extracted iconset"; "extracted alpha mask is empty" ]%string.
Proof.
  constructor; [ | constructor; [ | constructor; [ | constructor;
    [ | constructor; [ | constructor ] ] ] ] ].
  - apply (icns_tool_failed _ _ _ 1 ""%string cannot_read []); [ extracted | lia ].
  - apply icns_missing. run.
  - apply (icns_no_png _ _ _ ""%string ""%string []); [ extracted | constructor ].
  - apply (icns_no_png _ _ _ ""%string ""%string
             [("icon_512x512@2x.png"%string, [x00])]); [ extracted | ].
    constructor; [ run | constructor ].
  - apply (icns_alpha_empty _ _ _ ""%string ""%string blank_entries
             "icon_512x512@2x.png"%string blank_file blank_art);
      [ extracted | run .. ].
Qed.

Lemma blank_first_car :
  car_fails (fs mac_blank_first) tool app_store_car "extracted alpha mask is empty".
Proof.
  apply (car_alpha_empty _ _ _ ""%string ""%string blank_entries blank_file blank_art);
    [ extracted | run .. ].
Qed.

Lemma blank_first_second_car :
  car_passes (fs mac_blank_first) tool notes_car sample_box.
Proof.
  exists ""%string, ""%string, [("icon_512x512@2x.png"%string, [x01])],
    good_file, container_art.
  split; [ extracted | ]. split_and!; run.
Qed.

(** On [mac_nothing_usable] both loaders list the five candidates with
    their reasons; on [mac_blank_first] the second archive is returned
    after the first one failed, and nothing after it is probed. *)
Lemma candidates_enumerated_witness :
  fst (load_macos_container_bbox tool mac_nothing_usable)
  = Raise (RuntimeError nothing_usable_car_message)
  /\ fst (load_macos_rounded_shape_mask tool mac_nothing_usable)
     = Raise (RuntimeError nothing_usable_icns_message)
  /\ fst (load_macos_container_bbox tool mac_blank_first) = Ok (sample_box, notes_car)
  /\ exists evs,
      events (snd (load_macos_container_bbox tool mac_blank_first))
      = events mac_blank_first ++ evs
      /\ probes evs = [app_store_car] ++ [notes_car].
Proof.
  split; [ | split ].
  - apply (proj1 (candidates_enumerated_or_first_passing_returned
                    tool mac_nothing_usable) _ nothing_usable_cars).
  - apply (proj1 (proj2 (candidates_enumerated_or_first_passing_returned
                           tool mac_nothing_usable)) _ nothing_usable_icns).
  - apply (proj1 (proj2 (proj2 (candidates_enumerated_or_first_passing_returned
                                  tool mac_blank_first)))
             [app_store_car] notes_car
             (skipn 2 MACOS_ICON_CAR_CANDIDATES)
             ["extracted alpha mask is empty"%string] sample_box).
    + reflexivity.
    + constructor; [ apply blank_first_car | constructor ].
    + apply blank_first_second_car.
Defined.

(** The only archive there holds a PNG that cannot be decoded: the
    loader ends in the [OSError] of the decoder, and no message lists the
    candidates.  With an error message of [iconutil] that cannot be
    decoded on the first archive, the loader ends in that error although
    the second archive passes. *)
Lemma undecodable_png_is_not_enumerated :
  Forall (fun c => node_exists (fs mac_undecodable_png) c = false)
         (skipn 1 MACOS_ICON_CAR_CANDIDATES)
  /\ car_aborts (fs mac_undecodable_png) tool app_store_car
                (OSError "cannot identify image file")
  /\ fst (load_macos_container_bbox tool mac_undecodable_png)
     = Raise (OSError "cannot identify image file")
  /\ Forall (fun c => node_exists (fs mac_undecodable_png) c = false)
            (skipn 1 MACOS_ICON_ICNS_CANDIDATES)
  /\ icns_aborts (fs mac_undecodable_png) tool app_store_icns
                 (OSError "image file is truncated")
  /\ fst (load_macos_rounded_shape_mask tool mac_undecodable_png)
     = Raise (OSError "image file is truncated")
  /\ car_passes (fs mac_undecodable_text) tool notes_car sample_box
  /\ fst (load_macos_container_bbox tool mac_undecodable_text)
     = Raise (ValueError "'ascii' codec can't decode byte: ordinal not in range(128)").
Proof.
  split_and!.
  - repeat (constructor; [ run | ]). constructor.
  - apply (car_png_unreadable _ _ _ ""%string ""%string
             [("icon_512x512@2x.png"%string, [x00])]); [ extracted | run .. ].
  - run.
  - repeat (constructor; [ run | ]). constructor.
  - apply (icns_png_truncated _ _ _ ""%string ""%string
             [("icon_512x512@2x.png"%string, [x05])] "icon_512x512@2x.png"%string
             (mkImageFile (8, 8)%N None)); [ extracted | run .. ].
  - run.
  - exists ""%string, ""%string, [("icon_512x512@2x.png"%string, [x01])],
      good_file, container_art.
    split; [ extracted | ]. split_and!; run.
  - run.
Qed.



(** On [mac_renderer_blocked] the first copy fails after the two
    directories were made, and [build_icons_from_source] ends in its
    error; on [mac_square] the corner error leaves [main] as it left
    [build_icons_from_source]. *)
Lemma reporting_witness :
  fst (build_icons_from_source SOURCE_ICON_PATH mac_renderer_blocked)
  = Raise (OSError "is a directory: /repo/src/renderer/public/branding/app-icon.png")
  /\ main mac_square
     = (Raise (RuntimeError
                 "[branding] rounded shape validation failed: corner is not transparent"),
        snd (build_icons_from_source SOURCE_ICON_PATH (at_build mac_square))).
Proof.
  split.
  - set (w1 := snd (next_step SOURCE_ICON_PATH Started mac_renderer_blocked)).
    set (w2 := snd (next_step SOURCE_ICON_PATH RendererDirMade w1)).
    assert (Hreach : reaches SOURCE_ICON_PATH mac_renderer_blocked DesktopDirMade w2).
    { apply (reaches_next _ _ RendererDirMade DesktopDirMade w1 w2).
      - apply (reaches_next _ _ Started RendererDirMade mac_renderer_blocked w1).
        + apply reaches_start.
        + apply pair_of_fst. run.
      - apply pair_of_fst. run. }
    rewrite (proj1 (proj1 (proj2 failures_surface_except_unreadable_png))
               SOURCE_ICON_PATH mac_renderer_blocked DesktopDirMade w2
               (snd (next_step SOURCE_ICON_PATH DesktopDirMade w2))
               (OSError "is a directory: /repo/src/renderer/public/branding/app-icon.png")
               Hreach);
      [ reflexivity | ].
    apply pair_of_fst. run.
  - apply (proj2 (proj2 (proj2 (proj2 (proj2
             failures_surface_except_unreadable_png))))
             mac_square).
    + run.
    + apply pair_of_fst. run.
Defined.

Lemma nothing_usable_pre :
  Forall2 (car_fails (fs mac_nothing_usable) tool)
    (firstn 3 MACOS_ICON_CAR_CANDIDATES)
    [ "cannot read archive"; "missing"; "missing icon_512x512@2x.png" ]%string.
Proof.
  pose proof nothing_usable_cars as H.
  apply (Forall2_take _ _ _ 3) in H. exact H.
Qed.

Lemma nothing_usable_post :
  Forall2 (car_fails (fs mac_nothing_usable) tool)
    (skipn 4 MACOS_ICON_CAR_CANDIDATES) [ "extracted alpha mask is empty"%string ].
Proof.
  pose proof nothing_usable_cars as H.
  apply (Forall2_drop _ _ _ 4) in H. exact H.
Qed.

(** On [mac_nothing_usable] the blank image of the fourth archive gives
    the fourth line of the error; on [mac_blank_first] the blank image of
    the first archive makes the loader go on to the second, which it
    returns. *)
Lemma empty_mask_witness :
  fst (load_macos_container_bbox tool mac_nothing_usable)
  = Raise (RuntimeError nothing_usable_car_message)
  /\ fst (load_macos_container_bbox tool mac_blank_first) = Ok (sample_box, notes_car)
  /\ exists evs,
      events (snd (load_macos_container_bbox tool mac_blank_first))
      = events mac_blank_first ++ evs
      /\ ([] ++ [app_store_car; notes_car]) `prefix_of` probes evs.
Proof.
  split; [ | split ].
  - apply (proj1 (proj1 (proj2 largest_png_selected_and_empty_mask_skips)
             tool mac_nothing_usable (firstn 3 MACOS_ICON_CAR_CANDIDATES) music_car
             (skipn 4 MACOS_ICON_CAR_CANDIDATES)
             [ "cannot read archive"; "missing"; "missing icon_512x512@2x.png" ]%string
             ""%string ""%string blank_entries blank_file blank_art
             eq_refl nothing_usable_pre ltac:(extracted) ltac:(run) ltac:(run)
             ltac:(run))
             [ "extracted alpha mask is empty"%string ] nothing_usable_post).
  - apply (proj1 (proj2 (proj1 (proj2 largest_png_selected_and_empty_mask_skips)
             tool mac_blank_first [] app_store_car
             (skipn 1 MACOS_ICON_CAR_CANDIDATES) []
             ""%string ""%string blank_entries blank_file blank_art
             eq_refl ltac:(constructor) ltac:(extracted) ltac:(run) ltac:(run)
             ltac:(run)))
             [] notes_car (skipn 2 MACOS_ICON_CAR_CANDIDATES) [] sample_box
             eq_refl ltac:(constructor) blank_first_second_car).
  - apply (proj2 (proj2 (proj1 (proj2 largest_png_selected_and_empty_mask_skips)
             tool mac_blank_first [] app_store_car
             (skipn 1 MACOS_ICON_CAR_CANDIDATES) []
             ""%string ""%string blank_entries blank_file blank_art
             eq_refl ltac:(constructor) ltac:(extracted) ltac:(run) ltac:(run)
             ltac:(run)))
             notes_car (skipn 2 MACOS_ICON_CAR_CANDIDATES) eq_refl).
Defined.

End MoreRuns.
